(** * SetuBond trading service: the order matching engine

    A shallow embedding of
    [services/trading-service/src/matching-engine/matching-engine.service.ts],
    of the entities it works on ([entities/order.entity.ts],
    [entities/trade.entity.ts]) and of [TradingService.cancelOrder]
    ([trading.service.ts]).

    Conventions of the embedding.
    - Numbers. The source computes with JavaScript numbers, which are IEEE
      754 doubles. The embedding has them twice. The engine as a whole
      (books, stores, transactions, recovery, cancellation) is embedded on
      whole numbers, as [Z]: on whole numbers of magnitude up to 2^53 the
      subtractions, additions, [Math.min] and comparisons of the source are
      exact, and so is a product that stays in that range; the DECIMAL
      columns of the tables hold the whole numbers of their range as they
      are saved. Where a
      statement depends on this, it says so ([exactWalk]). The two walks
      are embedded once more on doubles (module [Double]), for quantities
      with decimals, where the rounding of the source shows.
    - [parseFloat (x.toString ())] is the identity on a present value; on
      an absent ([undefined]) price, [toString] raises a TypeError.
    - [Date] values are [Z] (milliseconds).
    - An asynchronous method is the state transformer it performs when it
      runs alone: engine state in, engine state out, together with the value
      it resolves to or the exception it rejects with.
    - The Kafka events, the logger, the generated trade id and the
      [executedAt] clock reading do not influence books, orders or stores
      and are left out.
    - [Array.prototype.sort] is a stable sort (ECMAScript 2019). *)

From stdpp Require Import base option list sorting strings gmap.
From Stdlib Require Import ZArith Lia Floats.

Set Warnings "-inexact-float".

Local Open Scope Z_scope.

(** ** Entities *)

Inductive OrderType := MARKET | LIMIT | STOP_LOSS | ICEBERG.
Inductive OrderSide := BUY | SELL.
Inductive OrderStatus :=
  PENDING | PARTIALLY_FILLED | FILLED | CANCELLED | REJECTED | EXPIRED.
Inductive TimeInForce := GTC | IOC | FOK.

Definition OrderStatus_eqb (a b : OrderStatus) : bool :=
  match a, b with
  | PENDING, PENDING | PARTIALLY_FILLED, PARTIALLY_FILLED | FILLED, FILLED
  | CANCELLED, CANCELLED | REJECTED, REJECTED | EXPIRED, EXPIRED => true
  | _, _ => false
  end.

(** The [Order] entity. [averagePrice] keeps the quotient
    [totalValue / totalQuantity] as the exact pair (numerator, denominator). *)
Module Order.
Record t := mk {
  id : string;
  userId : string;
  bondId : string;
  orderType : OrderType;
  side : OrderSide;
  quantity : Z;
  filledQuantity : Z;
  price : option Z;
  averagePrice : option (Z * Z);
  status : OrderStatus;
  timeInForce : TimeInForce;
  createdAt : Z
}.

Definition set_filledQuantity (v : Z) (o : t) : t :=
  mk (id o) (userId o) (bondId o) (orderType o) (side o) (quantity o) v
     (price o) (averagePrice o) (status o) (timeInForce o) (createdAt o).

Definition set_status (v : OrderStatus) (o : t) : t :=
  mk (id o) (userId o) (bondId o) (orderType o) (side o) (quantity o)
     (filledQuantity o) (price o) (averagePrice o) v (timeInForce o)
     (createdAt o).

Definition set_averagePrice (v : option (Z * Z)) (o : t) : t :=
  mk (id o) (userId o) (bondId o) (orderType o) (side o) (quantity o)
     (filledQuantity o) (price o) v (status o) (timeInForce o) (createdAt o).

Definition set_timeInForce (v : TimeInForce) (o : t) : t :=
  mk (id o) (userId o) (bondId o) (orderType o) (side o) (quantity o)
     (filledQuantity o) (price o) (averagePrice o) (status o) v (createdAt o).
End Order.

(** [interface OrderBookEntry]. *)
Module OrderBookEntry.
Record t := mk {
  id : string;
  price : Z;
  quantity : Z;
  remainingQuantity : Z;
  timestamp : Z
}.

Definition set_remainingQuantity (v : Z) (e : t) : t :=
  mk (id e) (price e) (quantity e) v (timestamp e).
End OrderBookEntry.

(** The [Trade] entity, with the fields the engine fills in. *)
Module Trade.
Record t := mk {
  bondId : string;
  buyOrderId : string;
  sellOrderId : string;
  buyUserId : string;
  sellUserId : string;
  quantity : Z;
  price : Z;
  totalValue : Z
}.
End Trade.

(** ** Exceptions and results *)

Inductive Exception :=
  | TypeError              (* [toString] of an absent price *)
  | PersistenceError       (* a [save] of the store failed *)
  | NotFoundException
  | BadRequestException.

Inductive Result (A : Type) :=
  | Ok (a : A)
  | Throw (e : Exception).
Arguments Ok {A} a.
Arguments Throw {A} e.

(** ** The stores *)

(** The two repositories are tables: lists of rows in insertion order.
    [findOne ({ where: { id } })] returns the first row with the id. *)
Definition findOne (orderId : string) (rows : list Order.t) : option Order.t :=
  List.find (fun o => String.eqb (Order.id o) orderId) rows.

(** [save] of an order: the row with the order's id is replaced, a new row is
    appended when there is none. *)
Fixpoint saveOrder (o : Order.t) (rows : list Order.t) : list Order.t :=
  match rows with
  | [] => [o]
  | r :: rows' =>
      if String.eqb (Order.id r) (Order.id o) then o :: rows'
      else r :: saveOrder o rows'
  end.

(** The [EntityManager] of a running transaction: the tables as the
    transaction sees them, and how many more writes the store accepts before
    one fails ([None]: the store never fails). *)
Record Tx := mkTx {
  txOrders : list Order.t;
  txTrades : list Trade.t;
  txWrites : option nat
}.

Definition txWrite (tx : Tx) : Result Tx :=
  match txWrites tx with
  | None => Ok tx
  | Some O => Throw PersistenceError
  | Some (S n) => Ok (mkTx (txOrders tx) (txTrades tx) (Some n))
  end.

(** [manager.save (Trade, trade)] *)
Definition managerSaveTrade (t : Trade.t) (tx : Tx) : Result Tx :=
  match txWrite tx with
  | Throw e => Throw e
  | Ok tx' => Ok (mkTx (txOrders tx') (txTrades tx' ++ [t]) (txWrites tx'))
  end.

(** [manager.save (Order, order)] *)
Definition managerSaveOrder (o : Order.t) (tx : Tx) : Result Tx :=
  match txWrite tx with
  | Throw e => Throw e
  | Ok tx' => Ok (mkTx (saveOrder o (txOrders tx')) (txTrades tx') (txWrites tx'))
  end.

(** ** The engine state *)

Record OrderBook := mkBook {
  bids : list OrderBookEntry.t;
  asks : list OrderBookEntry.t
}.

Record Engine := mkEngine {
  orderBooks : gmap string OrderBook;
  orderRepository : list Order.t;
  tradeRepository : list Trade.t
}.

(** What a call of [processOrder] leaves behind: the engine, the [order]
    object the caller passed (the engine mutates it in place, so the caller
    sees the mutations also when the call throws) and the trades returned,
    or the exception. *)
Record Outcome := mkOutcome {
  engine : Engine;
  updatedOrder : Order.t;
  trades : Result (list Trade.t)
}.

(** ** Sorting *)

Section StableSort.
Context {A : Type} (cmp : A -> A -> Z).

Fixpoint insertSorted (x : A) (l : list A) : list A :=
  match l with
  | [] => [x]
  | y :: l' => if cmp x y <=? 0 then x :: y :: l' else y :: insertSorted x l'
  end.

(** [array.sort (cmp)]: [x] stays in front of every later element that does
    not compare strictly before it. *)
Fixpoint stableSort (l : list A) : list A :=
  match l with
  | [] => []
  | x :: l' => insertSorted x (stableSort l')
  end.
End StableSort.

(** [(a, b) => a.price - b.price] and [(a, b) => b.price - a.price] *)
Definition byPriceAsc (a b : OrderBookEntry.t) : Z :=
  OrderBookEntry.price a - OrderBookEntry.price b.
Definition byPriceDesc (a b : OrderBookEntry.t) : Z :=
  OrderBookEntry.price b - OrderBookEntry.price a.

(** ** Order book access *)

Definition emptyBook : OrderBook := mkBook [] [].

(** [getOrCreateOrderBook]: the map after the call and the book found. *)
Definition getOrCreateOrderBook (books : gmap string OrderBook) (bondId : string)
  : gmap string OrderBook * OrderBook :=
  match books !! bondId with
  | Some b => (books, b)
  | None => (<[bondId := emptyBook]> books, emptyBook)
  end.

(** [getOrderBook] *)
Definition getOrderBook (eng : Engine) (bondId : string) : OrderBook :=
  default emptyBook (orderBooks eng !! bondId).

(** The [bookEntry] object [addToOrderBook] builds for an order with price
    [p]; [remainingQuantity || quantity - filledQuantity] takes the second
    operand when the first is absent or 0. *)
Definition newBookEntry (order : Order.t) (p : Z) (remainingQuantity : option Z)
  : OrderBookEntry.t :=
  let rest := Order.quantity order - Order.filledQuantity order in
  OrderBookEntry.mk (Order.id order) p (Order.quantity order)
    (match remainingQuantity with
     | Some r => if r =? 0 then rest else r
     | None => rest
     end)
    (Order.createdAt order).

(** The comparator a side is sorted with after a push: highest bid first,
    lowest ask first. *)
Definition ownFirst (s : OrderSide) : OrderBookEntry.t -> OrderBookEntry.t -> Z :=
  match s with BUY => byPriceDesc | SELL => byPriceAsc end.

Definition ownSide (s : OrderSide) (b : OrderBook) : list OrderBookEntry.t :=
  match s with BUY => bids b | SELL => asks b end.

Definition setOwnSide (s : OrderSide) (l : list OrderBookEntry.t) (b : OrderBook)
  : OrderBook :=
  match s with BUY => mkBook l (asks b) | SELL => mkBook (bids b) l end.

(** [addToOrderBook (order, remainingQuantity?)]: [Throw TypeError] when the
    order has no price, after the book was looked up (and created). *)
Definition addToOrderBook (books : gmap string OrderBook) (order : Order.t)
    (remainingQuantity : option Z) : gmap string OrderBook * option Exception :=
  let '(books1, orderBook) := getOrCreateOrderBook books (Order.bondId order) in
  match Order.price order with
  | None => (books1, Some TypeError)
  | Some p =>
      let bookEntry := newBookEntry order p remainingQuantity in
      match Order.side order with
      | BUY =>
          (<[Order.bondId order :=
               mkBook (stableSort byPriceDesc (bids orderBook ++ [bookEntry]))
                      (asks orderBook)]> books1, None)
      | SELL =>
          (<[Order.bondId order :=
               mkBook (bids orderBook)
                      (stableSort byPriceAsc (asks orderBook ++ [bookEntry]))]> books1,
           None)
      end
  end.

(** ** Matching *)

(** An array of entry objects in which every object carries its identity
    (its position when the walk began): [indexOf] and the in-place updates
    of a [bookEntry] go by identity, not by order id. *)
Abbreviation Tagged := (nat * OrderBookEntry.t)%type (only parsing).

Definition tagEntries (l : list OrderBookEntry.t) : list Tagged :=
  zip (seq 0 (length l)) l.

Definition untag (l : list Tagged) : list OrderBookEntry.t := snd <$> l.

Definition hasTag (tag : nat) (te : Tagged) : bool := Nat.eqb (fst te) tag.

(** [bookEntry.remainingQuantity = v], seen through the array. *)
Definition setRemaining (tag : nat) (v : Z) (book : list Tagged) : list Tagged :=
  (fun te => if hasTag tag te
             then (fst te, OrderBookEntry.set_remainingQuantity v (snd te))
             else te) <$> book.

(** [array.indexOf (bookEntry)] *)
Fixpoint indexOf (tag : nat) (book : list Tagged) : option nat :=
  match book with
  | [] => None
  | te :: book' => if hasTag tag te then Some O else S <$> indexOf tag book'
  end.

(** [array.splice (array.indexOf (bookEntry), 1)]; on the index -1 of an
    absent object, [splice] removes the last element. *)
Definition spliceOut (tag : nat) (book : list Tagged) : list Tagged :=
  match indexOf tag book with
  | Some i => delete i book
  | None => removelast book
  end.

(** [getUserIdByOrderId], read through [this.orderRepository], outside the
    transaction. *)
Definition getUserIdByOrderId (rows : list Order.t) (orderId : string) : string :=
  match findOne orderId rows with
  | Some o => Order.userId o
  | None => ""%string
  end.

(** [manager.create (Trade, { ... })] *)
Definition createTrade (rows : list Order.t) (order : Order.t)
    (bookEntry : OrderBookEntry.t) (matchQuantity : Z) : Trade.t :=
  Trade.mk (Order.bondId order)
    (match Order.side order with BUY => Order.id order | SELL => OrderBookEntry.id bookEntry end)
    (match Order.side order with SELL => Order.id order | BUY => OrderBookEntry.id bookEntry end)
    (match Order.side order with
     | BUY => Order.userId order
     | SELL => getUserIdByOrderId rows (OrderBookEntry.id bookEntry) end)
    (match Order.side order with
     | SELL => Order.userId order
     | BUY => getUserIdByOrderId rows (OrderBookEntry.id bookEntry) end)
    matchQuantity
    (OrderBookEntry.price bookEntry)
    (matchQuantity * OrderBookEntry.price bookEntry).

(** The variables of a matching loop: the opposite side of the book, the
    incoming order object, [remainingQuantity], [trades] and the
    transaction. *)
Record Matching := mkMatching {
  mBook : list Tagged;
  mOrder : Order.t;
  mRemaining : Z;
  mTrades : list Trade.t;
  mTx : Tx
}.

(** The body of both loops after the [break] test, for the entry object
    [tag] whose fields read [bookEntry]. When a [save] throws, the
    assignments made until then stay. *)
Definition matchEntry (rows : list Order.t) (tag : nat)
    (bookEntry : OrderBookEntry.t) (m : Matching) : Matching * option Exception :=
  let order := mOrder m in
  let matchQuantity := Z.min (mRemaining m) (OrderBookEntry.remainingQuantity bookEntry) in
  let trade := createTrade rows order bookEntry matchQuantity in
  match managerSaveTrade trade (mTx m) with
  | Throw e => (m, Some e)
  | Ok tx1 =>
      let left := OrderBookEntry.remainingQuantity bookEntry - matchQuantity in
      let book1 := setRemaining tag left (mBook m) in
      let order1 :=
        Order.set_filledQuantity (Order.filledQuantity order + matchQuantity) order in
      let m1 :=
        mkMatching book1 order1 (mRemaining m - matchQuantity) (mTrades m ++ [trade]) tx1 in
      let saved :=
        match findOne (OrderBookEntry.id bookEntry) (txOrders tx1) with
        | Some oppositeOrder =>
            let o1 :=
              Order.set_filledQuantity
                (Order.filledQuantity oppositeOrder + matchQuantity) oppositeOrder in
            let o2 := if left <=? 0 then Order.set_status FILLED o1 else o1 in
            managerSaveOrder o2 tx1
        | None => Ok tx1
        end in
      match saved with
      | Throw e => (m1, Some e)
      | Ok tx2 =>
          (mkMatching (if left <=? 0 then spliceOut tag book1 else book1)
             order1 (mRemaining m1) (mTrades m1) tx2, None)
      end
  end.

(** [for (const bookEntry of oppositeBook)] in [processMarketOrder]: the
    array iterator reads [oppositeBook[i]] for i = 0, 1, ... as long as
    [i] is below the current length, while the body splices the array.
    [fuel] bounds the number of iterations. *)
Fixpoint marketLoop (fuel : nat) (i : nat) (rows : list Order.t) (m : Matching)
  : Matching * option Exception :=
  match fuel with
  | O => (m, None)
  | S fuel' =>
      match mBook m !! i with
      | None => (m, None)
      | Some (tag, bookEntry) =>
          if mRemaining m <=? 0 then (m, None)
          else
            match matchEntry rows tag bookEntry m with
            | (m', Some e) => (m', Some e)
            | (m', None) => marketLoop fuel' (S i) rows m'
            end
      end
  end.

(** [for (const bookEntry of matchableOrders)] in [processLimitOrder]:
    [matchableOrders] is an array of its own, holding objects of
    [oppositeBook]; each is visited once and only the object visited is
    assigned to, so its fields are as they were when the array was built
    (lemma [matchableOrders_readsLive]). *)
Fixpoint limitLoop (matchable : list Tagged) (rows : list Order.t) (m : Matching)
  : Matching * option Exception :=
  match matchable with
  | [] => (m, None)
  | (tag, bookEntry) :: rest =>
      if mRemaining m <=? 0 then (m, None)
      else
        match matchEntry rows tag bookEntry m with
        | (m', Some e) => (m', Some e)
        | (m', None) => limitLoop rest rows m'
        end
  end.

Definition oppositeSide (s : OrderSide) (b : OrderBook) : list OrderBookEntry.t :=
  match s with BUY => asks b | SELL => bids b end.

Definition setOppositeSide (s : OrderSide) (l : list OrderBookEntry.t) (b : OrderBook)
  : OrderBook :=
  match s with BUY => mkBook (bids b) l | SELL => mkBook l (asks b) end.

(** The comparator both algorithms sort the opposite side with. *)
Definition bestFirst (s : OrderSide) : OrderBookEntry.t -> OrderBookEntry.t -> Z :=
  match s with BUY => byPriceAsc | SELL => byPriceDesc end.

Definition sumZ (l : list Z) : Z := foldr Z.add 0 l.

(** [order.averagePrice = totalValue / totalQuantity] when there are trades *)
Definition withAveragePrice (ts : list Trade.t) (order : Order.t) : Order.t :=
  match ts with
  | [] => order
  | _ :: _ =>
      Order.set_averagePrice
        (Some (sumZ (Trade.totalValue <$> ts), sumZ (Trade.quantity <$> ts))) order
  end.

(** "Update order status" at the end of [processMarketOrder]: an order that
    matched nothing is rejected. *)
Definition marketStatus (m : Matching) : Order.t :=
  if mRemaining m <=? 0 then Order.set_status FILLED (mOrder m)
  else if Order.filledQuantity (mOrder m) >? 0
       then Order.set_status PARTIALLY_FILLED (mOrder m)
       else Order.set_status REJECTED (mOrder m).

(** "Update order status" at the end of [processLimitOrder]: an order that
    matched nothing keeps its status. *)
Definition limitStatus (m : Matching) : Order.t :=
  if mRemaining m <=? 0 then Order.set_status FILLED (mOrder m)
  else if Order.filledQuantity (mOrder m) >? 0
       then Order.set_status PARTIALLY_FILLED (mOrder m)
       else mOrder m.

(** [processMarketOrder]. [faults] is the number of writes the store accepts
    during the transaction before one fails ([None]: all succeed). When the
    transaction throws, the store rolls back to the tables it had; the book
    and the order object are JavaScript objects and keep what was assigned. *)
Definition processMarketOrder (faults : option nat) (eng : Engine) (order : Order.t)
  : Outcome :=
  let '(books1, orderBook) := getOrCreateOrderBook (orderBooks eng) (Order.bondId order) in
  let s := Order.side order in
  let oppositeBook := stableSort (bestFirst s) (oppositeSide s orderBook) in
  let m0 :=
    mkMatching (tagEntries oppositeBook) order (Order.quantity order) []
      (mkTx (orderRepository eng) (tradeRepository eng) faults) in
  let '(m1, thrown) := marketLoop (length oppositeBook) 0 (orderRepository eng) m0 in
  let books2 :=
    <[Order.bondId order := setOppositeSide s (untag (mBook m1)) orderBook]> books1 in
  let rolledBack := mkEngine books2 (orderRepository eng) (tradeRepository eng) in
  match thrown with
  | Some e => mkOutcome rolledBack (mOrder m1) (Throw e)
  | None =>
      let order2 := withAveragePrice (mTrades m1) (marketStatus m1) in
      match managerSaveOrder order2 (mTx m1) with
      | Throw e => mkOutcome rolledBack order2 (Throw e)
      | Ok tx => mkOutcome (mkEngine books2 (txOrders tx) (txTrades tx)) order2
                   (Ok (mTrades m1))
      end
  end.

(** The callback of [oppositeBook.filter] in [processLimitOrder]. *)
Definition crosses (s : OrderSide) (limit : Z) (entry : OrderBookEntry.t) : bool :=
  match s with
  | BUY => OrderBookEntry.price entry <=? limit
  | SELL => OrderBookEntry.price entry >=? limit
  end.

(** [oppositeBook.filter (...)] followed by [matchableOrders.sort (...)] in
    [processLimitOrder]. The filter callback reads [order.price.toString ()]
    once per entry: with an absent price it throws on the first entry, and
    is never called on an empty side. *)
Definition matchableOrders (s : OrderSide) (limit : option Z) (oppositeBook : list Tagged)
  : Result (list Tagged) :=
  match oppositeBook, limit with
  | [], _ => Ok []
  | _ :: _, None => Throw TypeError
  | _ :: _, Some p =>
      Ok (stableSort (fun a b => bestFirst s (snd a) (snd b))
            (List.filter (fun te => crosses s p (snd te)) oppositeBook))
  end.

(** The transaction of [processLimitOrder] and what follows it, on the
    [matchable] array: the walk, the status, the admission of the remainder
    and the [save] of the order. *)
Definition limitTransaction (faults : option nat) (eng : Engine) (order : Order.t)
    (books1 : gmap string OrderBook) (orderBook : OrderBook) (matchable : list Tagged)
  : Outcome :=
  let s := Order.side order in
  let m0 :=
    mkMatching (tagEntries (oppositeSide s orderBook)) order (Order.quantity order) []
      (mkTx (orderRepository eng) (tradeRepository eng) faults) in
  let '(m1, thrown) := limitLoop matchable (orderRepository eng) m0 in
  let books2 :=
    <[Order.bondId order := setOppositeSide s (untag (mBook m1)) orderBook]> books1 in
  match thrown with
  | Some e =>
      mkOutcome (mkEngine books2 (orderRepository eng) (tradeRepository eng))
        (mOrder m1) (Throw e)
  | None =>
      let order1 := limitStatus m1 in
      let '(books3, thrown') :=
        if mRemaining m1 <=? 0 then (books2, None)
        else addToOrderBook books2 order1 (Some (mRemaining m1)) in
      let rolledBack := mkEngine books3 (orderRepository eng) (tradeRepository eng) in
      match thrown' with
      | Some e => mkOutcome rolledBack order1 (Throw e)
      | None =>
          let order2 := withAveragePrice (mTrades m1) order1 in
          match managerSaveOrder order2 (mTx m1) with
          | Throw e => mkOutcome rolledBack order2 (Throw e)
          | Ok tx => mkOutcome (mkEngine books3 (txOrders tx) (txTrades tx)) order2
                       (Ok (mTrades m1))
          end
      end
  end.

(** [processLimitOrder] *)
Definition processLimitOrder (faults : option nat) (eng : Engine) (order : Order.t)
  : Outcome :=
  let '(books1, orderBook) := getOrCreateOrderBook (orderBooks eng) (Order.bondId order) in
  let s := Order.side order in
  match matchableOrders s (Order.price order) (tagEntries (oppositeSide s orderBook)) with
  | Throw e =>
      mkOutcome (mkEngine books1 (orderRepository eng) (tradeRepository eng)) order (Throw e)
  | Ok matchable => limitTransaction faults eng order books1 orderBook matchable
  end.

(** [processOrder] *)
Definition processOrder (faults : option nat) (eng : Engine) (order : Order.t) : Outcome :=
  match Order.orderType order with
  | MARKET => processMarketOrder faults eng order
  | LIMIT => processLimitOrder faults eng order
  | _ => mkOutcome eng order (Ok [])
  end.

(** ** Recovery *)

(** [order: { createdAt: 'ASC' }] *)
Definition byCreatedAt (a b : Order.t) : Z := Order.createdAt a - Order.createdAt b.

(** [orderRepository.find ({ where: { status: PENDING }, order: { createdAt: 'ASC' } })];
    rows with equal [createdAt] come in table order. *)
Definition findActiveOrders (rows : list Order.t) : list Order.t :=
  stableSort byCreatedAt
    (List.filter (fun o => OrderStatus_eqb (Order.status o) PENDING) rows).

(** [for (const order of activeOrders) this.addToOrderBook (order)] *)
Fixpoint addAllToOrderBook (books : gmap string OrderBook) (activeOrders : list Order.t)
  : gmap string OrderBook * option Exception :=
  match activeOrders with
  | [] => (books, None)
  | order :: rest =>
      match addToOrderBook books order None with
      | (books', Some e) => (books', Some e)
      | (books', None) => addAllToOrderBook books' rest
      end
  end.

(** [initializeOrderBooks] *)
Definition initializeOrderBooks (eng : Engine) : Engine * option Exception :=
  let '(books, thrown) :=
    addAllToOrderBook (orderBooks eng) (findActiveOrders (orderRepository eng)) in
  (mkEngine books (orderRepository eng) (tradeRepository eng), thrown).

(** [new MatchingEngineService (...)] on a store: the [orderBooks] map starts
    empty and the constructor runs [initializeOrderBooks]. *)
Definition startEngine (orders : list Order.t) (ts : list Trade.t)
  : Engine * option Exception :=
  initializeOrderBooks (mkEngine ∅ orders ts).

(** ** Cancellation *)

(** [book.findIndex (entry => entry.id === orderId)] *)
Fixpoint findIndex (orderId : string) (book : list OrderBookEntry.t) : option nat :=
  match book with
  | [] => None
  | entry :: book' =>
      if String.eqb (OrderBookEntry.id entry) orderId then Some O
      else S <$> findIndex orderId book'
  end.

(** [MatchingEngineService.cancelOrder (orderId)]; the repository's [save]
    is taken to succeed. *)
Definition cancelOrder (eng : Engine) (orderId : string) : Engine :=
  match findOne orderId (orderRepository eng) with
  | None => eng
  | Some order =>
      let '(books1, orderBook) :=
        getOrCreateOrderBook (orderBooks eng) (Order.bondId order) in
      let book := ownSide (Order.side order) orderBook in
      let book' :=
        match findIndex orderId book with
        | Some index => delete index book
        | None => book
        end in
      mkEngine
        (<[Order.bondId order := setOwnSide (Order.side order) book' orderBook]> books1)
        (saveOrder (Order.set_status CANCELLED order) (orderRepository eng))
        (tradeRepository eng)
  end.

(** [TradingService.getOrder (id, userId)] *)
Definition getOrder (eng : Engine) (orderId userId : string) : Result Order.t :=
  match List.find (fun o => String.eqb (Order.id o) orderId
                            && String.eqb (Order.userId o) userId)
          (orderRepository eng) with
  | Some o => Ok o
  | None => Throw NotFoundException
  end.

(** [TradingService.cancelOrder (id, userId)] *)
Definition TradingService_cancelOrder (eng : Engine) (orderId userId : string)
  : Engine * Result Order.t :=
  match getOrder eng orderId userId with
  | Throw e => (eng, Throw e)
  | Ok order =>
      if negb (OrderStatus_eqb (Order.status order) PENDING)
      then (eng, Throw BadRequestException)
      else
        let eng1 := cancelOrder eng orderId in
        let order' := Order.set_status CANCELLED order in
        (mkEngine (orderBooks eng1) (saveOrder order' (orderRepository eng1))
           (tradeRepository eng1),
         Ok order')
  end.

(** ** Submission *)

(** [TradingService.createOrder] from the point where the store has returned
    [savedOrder] (with its generated id and creation date): the order is in
    the table and goes through the engine. *)
Definition TradingService_createOrder (faults : option nat) (eng : Engine)
    (savedOrder : Order.t) : Outcome :=
  processOrder faults
    (mkEngine (orderBooks eng) (saveOrder savedOrder (orderRepository eng))
       (tradeRepository eng))
    savedOrder.

(** ** Restart *)

(** A restart of the process: the order books, which live in memory only,
    are gone; a new engine is constructed on the stores as they are. *)
Definition restart (eng : Engine) : Engine :=
  (startEngine (orderRepository eng) (tradeRepository eng)).1.

(** ** Engine states that occur *)

(** The states an engine can be in: constructed with empty books on some
    stores, and from then on changed by recovery, by the processing of
    orders, by cancellations, and by writes of other services to the
    stores. *)
Inductive Reachable : Engine -> Prop :=
  | reach_new orders ts :
      Reachable (mkEngine ∅ orders ts)
  | reach_store eng orders ts :
      Reachable eng -> Reachable (mkEngine (orderBooks eng) orders ts)
  | reach_recover eng :
      Reachable eng -> Reachable (initializeOrderBooks eng).1
  | reach_process faults eng order :
      Reachable eng -> Reachable (engine (processOrder faults eng order))
  | reach_cancel eng orderId :
      Reachable eng -> Reachable (cancelOrder eng orderId).

(** ** The walks on doubles *)

(** The numbers of the source are JavaScript numbers: IEEE 754 binary64.
    Module [Double] has the two walks once more on Rocq's primitive
    binary64 type [float], for the quantities with decimals that the DTO
    admits: what a call of [processOrder] that meets no store failure
    returns, and what it leaves in the book of the order's instrument. The
    order table reaches a walk through the user ids it holds ([users], the
    lookup of [getUserIdByOrderId]); the rows written do not reach it and
    are left out. A decimal literal stands for the nearest double, as it
    does in JavaScript, and [parseFloat (x.toString ())] is the identity on
    a number. *)
Module Double.

Local Open Scope float_scope.

Module Order.
Record t := mk {
  id : string;
  userId : string;
  bondId : string;
  orderType : OrderType;
  side : OrderSide;
  quantity : float;
  filledQuantity : float;
  price : option float;
  averagePrice : option float;
  status : OrderStatus;
  timeInForce : TimeInForce;
  createdAt : Z
}.

Definition set_filledQuantity (v : float) (o : t) : t :=
  mk (id o) (userId o) (bondId o) (orderType o) (side o) (quantity o) v
     (price o) (averagePrice o) (status o) (timeInForce o) (createdAt o).

Definition set_status (v : OrderStatus) (o : t) : t :=
  mk (id o) (userId o) (bondId o) (orderType o) (side o) (quantity o)
     (filledQuantity o) (price o) (averagePrice o) v (timeInForce o)
     (createdAt o).

Definition set_averagePrice (v : option float) (o : t) : t :=
  mk (id o) (userId o) (bondId o) (orderType o) (side o) (quantity o)
     (filledQuantity o) (price o) v (status o) (timeInForce o) (createdAt o).
End Order.

Module OrderBookEntry.
Record t := mk {
  id : string;
  price : float;
  quantity : float;
  remainingQuantity : float;
  timestamp : Z
}.

Definition set_remainingQuantity (v : float) (e : t) : t :=
  mk (id e) (price e) (quantity e) v (timestamp e).
End OrderBookEntry.

Module Trade.
Record t := mk {
  bondId : string;
  buyOrderId : string;
  sellOrderId : string;
  buyUserId : string;
  sellUserId : string;
  quantity : float;
  price : float;
  totalValue : float
}.
End Trade.

Record OrderBook := mkBook {
  bids : list OrderBookEntry.t;
  asks : list OrderBookEntry.t
}.

(** What a call gives: the instrument's book after it, the order object
    and the trades, or the exception thrown. *)
Record Outcome := mkOutcome {
  book : OrderBook;
  updatedOrder : Order.t;
  trades : Result (list Trade.t)
}.

(** How [Array.prototype.sort] reads the number its comparator returns:
    positive, negative, or neither (zero and NaN). *)
Definition sign (d : float) : Z :=
  if 0 <? d then 1%Z else if d <? 0 then (-1)%Z else 0%Z.

(** [(a, b) => a.price - b.price] and [(a, b) => b.price - a.price] *)
Definition byPriceAsc (a b : OrderBookEntry.t) : Z :=
  sign (OrderBookEntry.price a - OrderBookEntry.price b).
Definition byPriceDesc (a b : OrderBookEntry.t) : Z :=
  sign (OrderBookEntry.price b - OrderBookEntry.price a).

(** [Math.min (a, b)] *)
Definition Math_min (a b : float) : float :=
  if is_nan a || is_nan b then nan
  else if b <? a then b
  else if a <? b then a
  else if get_sign b then b else a.

(** [v || w]: a number is falsy when it is zero or NaN. *)
Definition orElse (v : option float) (w : float) : float :=
  match v with
  | Some r => if is_zero r || is_nan r then w else r
  | None => w
  end.

Definition ownSide (s : OrderSide) (b : OrderBook) : list OrderBookEntry.t :=
  match s with BUY => bids b | SELL => asks b end.

Definition oppositeSide (s : OrderSide) (b : OrderBook) : list OrderBookEntry.t :=
  match s with BUY => asks b | SELL => bids b end.

Definition setOppositeSide (s : OrderSide) (l : list OrderBookEntry.t) (b : OrderBook)
  : OrderBook :=
  match s with BUY => mkBook (bids b) l | SELL => mkBook l (asks b) end.

Definition bestFirst (s : OrderSide) : OrderBookEntry.t -> OrderBookEntry.t -> Z :=
  match s with BUY => byPriceAsc | SELL => byPriceDesc end.

(** [addToOrderBook (order, remainingQuantity?)] on the instrument's book *)
Definition addToOrderBook (orderBook : OrderBook) (order : Order.t)
    (remainingQuantity : option float) : Result OrderBook :=
  match Order.price order with
  | None => Throw TypeError
  | Some p =>
      let bookEntry :=
        OrderBookEntry.mk (Order.id order) p (Order.quantity order)
          (orElse remainingQuantity (Order.quantity order - Order.filledQuantity order))
          (Order.createdAt order) in
      match Order.side order with
      | BUY =>
          Ok (mkBook (stableSort byPriceDesc (bids orderBook ++ [bookEntry]))
                (asks orderBook))
      | SELL =>
          Ok (mkBook (bids orderBook)
                (stableSort byPriceAsc (asks orderBook ++ [bookEntry])))
      end
  end.

(** The entry objects of a side, told apart by their position in the array
    the walk begins on, as in the walk on whole numbers. *)
Definition tagEntries (l : list OrderBookEntry.t) : list (nat * OrderBookEntry.t) :=
  zip (seq 0 (length l)) l.

Definition untag (l : list (nat * OrderBookEntry.t)) : list OrderBookEntry.t :=
  snd <$> l.

Definition hasTag (tag : nat) (te : nat * OrderBookEntry.t) : bool :=
  Nat.eqb (fst te) tag.

Definition setRemaining (tag : nat) (v : float) (oppositeBook : list (nat * OrderBookEntry.t))
  : list (nat * OrderBookEntry.t) :=
  (fun te => if hasTag tag te
             then (fst te, OrderBookEntry.set_remainingQuantity v (snd te))
             else te) <$> oppositeBook.

Fixpoint indexOf (tag : nat) (oppositeBook : list (nat * OrderBookEntry.t)) : option nat :=
  match oppositeBook with
  | [] => None
  | te :: rest => if hasTag tag te then Some O else S <$> indexOf tag rest
  end.

Definition spliceOut (tag : nat) (oppositeBook : list (nat * OrderBookEntry.t))
  : list (nat * OrderBookEntry.t) :=
  match indexOf tag oppositeBook with
  | Some i => delete i oppositeBook
  | None => removelast oppositeBook
  end.

(** [manager.create (Trade, { ... })] *)
Definition createTrade (users : string -> string) (order : Order.t)
    (bookEntry : OrderBookEntry.t) (matchQuantity : float) : Trade.t :=
  Trade.mk (Order.bondId order)
    (match Order.side order with BUY => Order.id order | SELL => OrderBookEntry.id bookEntry end)
    (match Order.side order with SELL => Order.id order | BUY => OrderBookEntry.id bookEntry end)
    (match Order.side order with
     | BUY => Order.userId order
     | SELL => users (OrderBookEntry.id bookEntry) end)
    (match Order.side order with
     | SELL => Order.userId order
     | BUY => users (OrderBookEntry.id bookEntry) end)
    matchQuantity
    (OrderBookEntry.price bookEntry)
    (matchQuantity * OrderBookEntry.price bookEntry).

(** The variables of a matching loop. *)
Record Matching := mkMatching {
  mBook : list (nat * OrderBookEntry.t);
  mOrder : Order.t;
  mRemaining : float;
  mTrades : list Trade.t
}.

(** The body of both loops after the [break] test. *)
Definition matchEntry (users : string -> string) (tag : nat)
    (bookEntry : OrderBookEntry.t) (m : Matching) : Matching :=
  let order := mOrder m in
  let matchQuantity := Math_min (mRemaining m) (OrderBookEntry.remainingQuantity bookEntry) in
  let trade := createTrade users order bookEntry matchQuantity in
  let left := OrderBookEntry.remainingQuantity bookEntry - matchQuantity in
  let book1 := setRemaining tag left (mBook m) in
  let order1 :=
    Order.set_filledQuantity (Order.filledQuantity order + matchQuantity) order in
  mkMatching (if left <=? 0 then spliceOut tag book1 else book1)
    order1 (mRemaining m - matchQuantity) (mTrades m ++ [trade]).

(** [for (const bookEntry of oppositeBook)] in [processMarketOrder], by
    index over the array that the body splices. *)
Fixpoint marketLoop (fuel : nat) (i : nat) (users : string -> string) (m : Matching)
  : Matching :=
  match fuel with
  | O => m
  | S fuel' =>
      match mBook m !! i with
      | None => m
      | Some (tag, bookEntry) =>
          if mRemaining m <=? 0 then m
          else marketLoop fuel' (S i) users (matchEntry users tag bookEntry m)
      end
  end.

(** [for (const bookEntry of matchableOrders)] in [processLimitOrder] *)
Fixpoint limitLoop (matchable : list (nat * OrderBookEntry.t)) (users : string -> string)
    (m : Matching) : Matching :=
  match matchable with
  | [] => m
  | (tag, bookEntry) :: rest =>
      if mRemaining m <=? 0 then m
      else limitLoop rest users (matchEntry users tag bookEntry m)
  end.

(** [trades.reduce ((sum, trade) => sum + ..., 0)] *)
Definition total (f : Trade.t -> float) (ts : list Trade.t) : float :=
  fold_left (fun sum trade => sum + f trade) ts 0.

(** [order.averagePrice = totalValue / totalQuantity] when there are trades *)
Definition withAveragePrice (ts : list Trade.t) (order : Order.t) : Order.t :=
  match ts with
  | [] => order
  | _ :: _ =>
      Order.set_averagePrice
        (Some (total Trade.totalValue ts / total Trade.quantity ts)) order
  end.

Definition marketStatus (m : Matching) : Order.t :=
  if mRemaining m <=? 0 then Order.set_status FILLED (mOrder m)
  else if 0 <? Order.filledQuantity (mOrder m)
       then Order.set_status PARTIALLY_FILLED (mOrder m)
       else Order.set_status REJECTED (mOrder m).

Definition limitStatus (m : Matching) : Order.t :=
  if mRemaining m <=? 0 then Order.set_status FILLED (mOrder m)
  else if 0 <? Order.filledQuantity (mOrder m)
       then Order.set_status PARTIALLY_FILLED (mOrder m)
       else mOrder m.

(** [processMarketOrder] *)
Definition processMarketOrder (users : string -> string) (orderBook : OrderBook)
    (order : Order.t) : Outcome :=
  let s := Order.side order in
  let oppositeBook := stableSort (bestFirst s) (oppositeSide s orderBook) in
  let m0 := mkMatching (tagEntries oppositeBook) order (Order.quantity order) [] in
  let m1 := marketLoop (length oppositeBook) 0 users m0 in
  mkOutcome (setOppositeSide s (untag (mBook m1)) orderBook)
    (withAveragePrice (mTrades m1) (marketStatus m1))
    (Ok (mTrades m1)).

(** The callback of [oppositeBook.filter] in [processLimitOrder]. *)
Definition crosses (s : OrderSide) (limit : float) (entry : OrderBookEntry.t) : bool :=
  match s with
  | BUY => OrderBookEntry.price entry <=? limit
  | SELL => limit <=? OrderBookEntry.price entry
  end.

(** [oppositeBook.filter (...)] and [matchableOrders.sort (...)] *)
Definition matchableOrders (s : OrderSide) (limit : option float)
    (oppositeBook : list (nat * OrderBookEntry.t))
  : Result (list (nat * OrderBookEntry.t)) :=
  match oppositeBook, limit with
  | [], _ => Ok []
  | _ :: _, None => Throw TypeError
  | _ :: _, Some p =>
      Ok (stableSort (fun a b => bestFirst s (snd a) (snd b))
            (List.filter (fun te => crosses s p (snd te)) oppositeBook))
  end.

(** [processLimitOrder] *)
Definition processLimitOrder (users : string -> string) (orderBook : OrderBook)
    (order : Order.t) : Outcome :=
  let s := Order.side order in
  let oppositeBook := tagEntries (oppositeSide s orderBook) in
  match matchableOrders s (Order.price order) oppositeBook with
  | Throw e => mkOutcome orderBook order (Throw e)
  | Ok matchable =>
      let m0 := mkMatching oppositeBook order (Order.quantity order) [] in
      let m1 := limitLoop matchable users m0 in
      let book2 := setOppositeSide s (untag (mBook m1)) orderBook in
      let order1 := limitStatus m1 in
      let order2 := withAveragePrice (mTrades m1) order1 in
      if mRemaining m1 <=? 0 then mkOutcome book2 order2 (Ok (mTrades m1))
      else
        match addToOrderBook book2 order1 (Some (mRemaining m1)) with
        | Throw e => mkOutcome book2 order1 (Throw e)
        | Ok book3 => mkOutcome book3 order2 (Ok (mTrades m1))
        end
  end.

(** [processOrder] *)
Definition processOrder (users : string -> string) (orderBook : OrderBook)
    (order : Order.t) : Outcome :=
  match Order.orderType order with
  | MARKET => processMarketOrder users orderBook order
  | LIMIT => processLimitOrder users orderBook order
  | _ => mkOutcome orderBook order (Ok [])
  end.

(** The value of a finite double, counted in units of 2^-1074 (every
    finite double is a whole number of them). *)
Definition units (d : float) : Z :=
  match Prim2SF d with
  | S754_finite s m e => ((if s then Z.neg m else Z.pos m) * 2 ^ (e + 1074))%Z
  | _ => 0%Z
  end.

(** A new order on the bond INE001, and a resting entry of an order, as in
    the sample data on whole numbers. *)
Definition newOrder (orderId : string) (ty : OrderType) (s : OrderSide) (q : float)
    (p : option float) (tif : TimeInForce) (at_ : Z) : Order.t :=
  Order.mk orderId ("user-" +:+ orderId) "INE001" ty s q 0 p None PENDING tif at_.

Definition resting (o : Order.t) (p : float) : OrderBookEntry.t :=
  OrderBookEntry.mk (Order.id o) p (Order.quantity o)
    (Order.quantity o - Order.filledQuantity o) (Order.createdAt o).

Definition users (orderId : string) : string := ("user-" +:+ orderId)%string.

(** Asks of 1.03 and 2.04 at price 10, and a limit buy of 3.07 at 10. *)
Definition asks_103_204 : OrderBook :=
  mkBook []
    [resting (newOrder "s1" LIMIT SELL 1.03 (Some 10) GTC 1%Z) 10;
     resting (newOrder "s2" LIMIT SELL 2.04 (Some 10) GTC 2%Z) 10].

Definition buy_307 : Order.t := newOrder "b1" LIMIT BUY 3.07 (Some 10) GTC 3%Z.

(** Asks of 1.14 and 1.00 at price 10, and a limit buy of 2.14 at 10. *)
Definition asks_114_100 : OrderBook :=
  mkBook []
    [resting (newOrder "s1" LIMIT SELL 1.14 (Some 10) GTC 1%Z) 10;
     resting (newOrder "s2" LIMIT SELL 1.00 (Some 10) GTC 2%Z) 10].

Definition buy_214 : Order.t := newOrder "b1" LIMIT BUY 2.14 (Some 10) GTC 3%Z.

End Double.

(** The whole numbers of the first embedding as doubles, and its orders,
    entries, books and trades as those of [Double]. The pair kept for
    [averagePrice] becomes the quotient the source stores. *)
Definition toDouble (z : Z) : float :=
  match z with
  | Z0 => 0%float
  | Zpos _ => of_uint63 (Uint63.of_Z z)
  | Zneg q => (- of_uint63 (Uint63.of_Z (Zpos q)))%float
  end.

Definition toDouble_order (o : Order.t) : Double.Order.t :=
  Double.Order.mk (Order.id o) (Order.userId o) (Order.bondId o) (Order.orderType o)
    (Order.side o) (toDouble (Order.quantity o)) (toDouble (Order.filledQuantity o))
    (toDouble <$> Order.price o)
    ((fun vq => (toDouble vq.1 / toDouble vq.2)%float) <$> Order.averagePrice o)
    (Order.status o) (Order.timeInForce o) (Order.createdAt o).

Definition toDouble_entry (e : OrderBookEntry.t) : Double.OrderBookEntry.t :=
  Double.OrderBookEntry.mk (OrderBookEntry.id e) (toDouble (OrderBookEntry.price e))
    (toDouble (OrderBookEntry.quantity e)) (toDouble (OrderBookEntry.remainingQuantity e))
    (OrderBookEntry.timestamp e).

Definition toDouble_book (b : OrderBook) : Double.OrderBook :=
  Double.mkBook (toDouble_entry <$> bids b) (toDouble_entry <$> asks b).

Definition toDouble_trade (t : Trade.t) : Double.Trade.t :=
  Double.Trade.mk (Trade.bondId t) (Trade.buyOrderId t) (Trade.sellOrderId t)
    (Trade.buyUserId t) (Trade.sellUserId t) (toDouble (Trade.quantity t))
    (toDouble (Trade.price t)) (toDouble (Trade.totalValue t)).

(** What [Double.processOrder] gives for an order of the first embedding on
    the engine [eng], to compare with [processOrder None eng order]. *)
Definition onDoubles (eng : Engine) (order : Order.t) : Double.Outcome :=
  Double.processOrder (getUserIdByOrderId (orderRepository eng))
    (toDouble_book (getOrderBook eng (Order.bondId order))) (toDouble_order order).

Definition toDouble_outcome (bondId : string) (out : Outcome) : Double.Outcome :=
  Double.mkOutcome (toDouble_book (getOrderBook (engine out) bondId))
    (toDouble_order (updatedOrder out))
    (match trades out with
     | Ok ts => Ok (toDouble_trade <$> ts)
     | Throw e => Throw e
     end).

(** ** Sample data *)

(** An engine on empty stores. *)
Definition freshEngine : Engine := mkEngine ∅ [] [].

(** A new order on the bond INE001: pending, nothing filled. *)
Definition newOrder (orderId : string) (ty : OrderType) (s : OrderSide) (q : Z)
    (p : option Z) (tif : TimeInForce) (at_ : Z) : Order.t :=
  Order.mk orderId ("user-" +:+ orderId) "INE001" ty s q 0 p None PENDING tif at_.

(** A resting entry of a sample order. *)
Definition resting (o : Order.t) (p : Z) : OrderBookEntry.t :=
  OrderBookEntry.mk (Order.id o) p (Order.quantity o)
    (Order.quantity o - Order.filledQuantity o) (Order.createdAt o).

(** Two resting sell orders, 60 at 100 and 50 at 101, and the engine that
    holds them. *)
Definition sellA : Order.t := newOrder "s1" LIMIT SELL 60 (Some 100) GTC 1.
Definition sellB : Order.t := newOrder "s2" LIMIT SELL 50 (Some 101) GTC 2.

Definition twoAsks : Engine :=
  mkEngine {["INE001"%string := mkBook [] [resting sellA 100; resting sellB 101]]}
    [sellA; sellB] [].

(** A resting buy order admitted at time 5, the engine that holds it, and a
    buy order at the same price created earlier, at time 3. *)
Definition buyLate : Order.t := newOrder "b1" LIMIT BUY 20 (Some 50) GTC 5.
Definition buyEarly : Order.t := newOrder "b2" LIMIT BUY 10 (Some 50) GTC 3.

Definition oneBid : Engine :=
  mkEngine {["INE001"%string := mkBook [resting buyLate 50] []]} [buyLate] [].

(** Scenario D of the specification: asks of 60 in all at price 10, and a
    fill-or-kill limit buy of 100 at 10. *)
Definition sellD : Order.t := newOrder "s9" LIMIT SELL 60 (Some 10) GTC 1.
Definition fokBuy : Order.t := newOrder "b9" LIMIT BUY 100 (Some 10) FOK 2.

Definition oneAsk : Engine :=
  mkEngine {["INE001"%string := mkBook [] [resting sellD 10]]} [sellD] [].

(** A limit buy of 100 at 10, good till cancelled, and the engine after it
    was submitted against the asks of [oneAsk]: 60 are bought, 40 rest. *)
Definition gtcBuy : Order.t := newOrder "b9" LIMIT BUY 100 (Some 10) GTC 2.

Definition afterPartialFill : Engine :=
  engine (TradingService_createOrder None oneAsk gtcBuy).

(** A later sell of 40 at 10, which crosses the resting bid. *)
Definition sellLater : Order.t := newOrder "s10" LIMIT SELL 40 (Some 10) GTC 3.

(** An engine whose book has eleven asks of 10 each, at the prices 100 to
    110. *)
Definition elevenAsks : Engine :=
  mkEngine
    {["INE001"%string :=
        mkBook []
          [OrderBookEntry.mk "a01" 100 10 10 1;
           OrderBookEntry.mk "a02" 101 10 10 2;
           OrderBookEntry.mk "a03" 102 10 10 3;
           OrderBookEntry.mk "a04" 103 10 10 4;
           OrderBookEntry.mk "a05" 104 10 10 5;
           OrderBookEntry.mk "a06" 105 10 10 6;
           OrderBookEntry.mk "a07" 106 10 10 7;
           OrderBookEntry.mk "a08" 107 10 10 8;
           OrderBookEntry.mk "a09" 108 10 10 9;
           OrderBookEntry.mk "a10" 109 10 10 10;
           OrderBookEntry.mk "a11" 110 10 10 11]]}
    [] [].

(** ** Predicates used in the statements *)

(** The order a comparator sorts into. *)
Definition notAfter {A : Type} (cmp : A -> A -> Z) (a b : A) : Prop := cmp a b <= 0.

Definition bidsByPrice : list OrderBookEntry.t -> Prop :=
  StronglySorted (notAfter byPriceDesc).
Definition asksByPrice : list OrderBookEntry.t -> Prop :=
  StronglySorted (notAfter byPriceAsc).

(** A side is in the order the walk over it as opposite side expects. *)
Definition sideByPrice (s : OrderSide) : list OrderBookEntry.t -> Prop :=
  StronglySorted (notAfter (bestFirst s)).

Definition priceOrdered (b : OrderBook) : Prop :=
  bidsByPrice (bids b) /\ asksByPrice (asks b).

Definition booksPriceOrdered (books : gmap string OrderBook) : Prop :=
  forall bondId b, books !! bondId = Some b -> priceOrdered b.

(** The side an order of side [s] rests on is in the order of its own
    comparator: bids by descending, asks by ascending price. *)
Definition ownByPrice (s : OrderSide) : list OrderBookEntry.t -> Prop :=
  match s with BUY => bidsByPrice | SELL => asksByPrice end.

(** What of an entry never changes while it rests: everything but
    [remainingQuantity]. *)
Definition offer (e : OrderBookEntry.t) : OrderBookEntry.t :=
  OrderBookEntry.set_remainingQuantity 0 e.

(** [t] records a match of the incoming [order] with the resting entry [e]:
    at the entry's price, between the order and the entry's order. *)
Definition tradeAgainst (order : Order.t) (e : OrderBookEntry.t) (t : Trade.t) : Prop :=
  Trade.price t = OrderBookEntry.price e
  /\ Trade.totalValue t = Trade.quantity t * OrderBookEntry.price e
  /\ Trade.bondId t = Order.bondId order
  /\ match Order.side order with
     | BUY => Trade.buyOrderId t = Order.id order
              /\ Trade.sellOrderId t = OrderBookEntry.id e
     | SELL => Trade.sellOrderId t = Order.id order
               /\ Trade.buyOrderId t = OrderBookEntry.id e
     end.

(** Two order objects that differ at most in [filledQuantity]. *)
Definition sameButFilled (a b : Order.t) : Prop :=
  Order.set_filledQuantity 0 a = Order.set_filledQuantity 0 b.

(** The invariant of both loops, for the incoming [order] and the array
    [walked] the loop began on. *)
Record walkInvariant (order : Order.t) (walked : list OrderBookEntry.t)
    (m : Matching) : Prop := {
  walk_conserves :
    sumZ (Trade.quantity <$> mTrades m) + mRemaining m = Order.quantity order;
  walk_remaining : 0 <= Order.quantity order -> 0 <= mRemaining m;
  walk_book : offer <$> untag (mBook m) `sublist_of` offer <$> walked;
  walk_order : sameButFilled (mOrder m) order;
  walk_filled :
    Order.filledQuantity (mOrder m)
    = Order.filledQuantity order + sumZ (Trade.quantity <$> mTrades m);
  walk_trades :
    Forall (fun t => exists e, e ∈ walked /\ tradeAgainst order e t) (mTrades m)
}.

(** The order the specification asks of a bid list and of an ask list:
    by price, and by admission timestamp among equal prices. *)
Definition bidBefore (a b : OrderBookEntry.t) : Prop :=
  OrderBookEntry.price b < OrderBookEntry.price a
  \/ (OrderBookEntry.price a = OrderBookEntry.price b
      /\ OrderBookEntry.timestamp a <= OrderBookEntry.timestamp b).

Definition askBefore (a b : OrderBookEntry.t) : Prop :=
  OrderBookEntry.price a < OrderBookEntry.price b
  \/ (OrderBookEntry.price a = OrderBookEntry.price b
      /\ OrderBookEntry.timestamp a <= OrderBookEntry.timestamp b).

(** Price-time order of both sides, and no order id twice in the book. *)
Definition priceTimeOrdered (b : OrderBook) : Prop :=
  StronglySorted bidBefore (bids b)
  /\ StronglySorted askBefore (asks b)
  /\ NoDup (OrderBookEntry.id <$> (bids b ++ asks b)).

(** The entries of a side that go in front of, and behind, an entry
    admitted at price [p]: admission puts the new entry behind every
    resting entry whose price is as good. *)
Definition inFrontOf (s : OrderSide) (p : Z) (l : list OrderBookEntry.t)
  : list OrderBookEntry.t :=
  List.filter (fun y => match s with
                        | BUY => p <=? OrderBookEntry.price y
                        | SELL => OrderBookEntry.price y <=? p
                        end) l.

Definition behind (s : OrderSide) (p : Z) (l : list OrderBookEntry.t)
  : list OrderBookEntry.t :=
  List.filter (fun y => negb (match s with
                              | BUY => p <=? OrderBookEntry.price y
                              | SELL => OrderBookEntry.price y <=? p
                              end)) l.

(** The quantity resting on the opposite side at prices that cross the
    limit [p] of an order of side [s]. *)
Definition crossingQuantity (s : OrderSide) (p : Z) (b : OrderBook) : Z :=
  sumZ (OrderBookEntry.remainingQuantity
          <$> List.filter (crosses s p) (oppositeSide s b)).


(** The loop variables of the same walk for the order with another
    time-in-force. *)
Definition withTimeInForce (tif : TimeInForce) (m : Matching) : Matching :=
  mkMatching (mBook m) (Order.set_timeInForce tif (mOrder m)) (mRemaining m)
    (mTrades m) (mTx m).

(** The loop variables of the same walk on a store that never fails. *)
Definition onReliableStore (m : Matching) : Matching :=
  mkMatching (mBook m) (mOrder m) (mRemaining m) (mTrades m)
    (mkTx (txOrders (mTx m)) (txTrades (mTx m)) None).

(** ** Events *)

(** The payload of the 'orderbook.updated' event of [emitOrderBookUpdate],
    without its clock reading: [bids.slice (0, 10)] and [asks.slice (0, 10)]
    of [getOrderBook (bondId)]. *)
Definition orderBookUpdate (eng : Engine) (bondId : string) : OrderBook :=
  mkBook (take 10 (bids (getOrderBook eng bondId)))
         (take 10 (asks (getOrderBook eng bondId))).

(** ** Predicates of the further properties *)

(** What the transaction of a walk has done to the stores of [eng] so far:
    it has appended the trades of the walk to the trade table, and written
    only rows of orders whose id is among [ids]. *)
Record storeInvariant (eng : Engine) (ids : list string) (m : Matching) : Prop := {
  store_trades : txTrades (mTx m) = tradeRepository eng ++ mTrades m;
  store_frame :
    forall orderId, orderId ∉ ids ->
      findOne orderId (txOrders (mTx m)) = findOne orderId (orderRepository eng);
  store_keeps :
    forall orderId, is_Some (findOne orderId (orderRepository eng)) ->
      is_Some (findOne orderId (txOrders (mTx m)))
}.

(** Every resting entry has something left. *)
Definition sidePositive (l : list OrderBookEntry.t) : Prop :=
  Forall (fun e => 0 < OrderBookEntry.remainingQuantity e) l.

Definition bookPositive (b : OrderBook) : Prop :=
  sidePositive (bids b) /\ sidePositive (asks b).


(** The entries at the even and at the odd positions of an array. *)
Fixpoint evens {A} (l : list A) : list A :=
  match l with
  | [] => []
  | x :: l' => x :: match l' with [] => [] | _ :: l'' => evens l'' end
  end.

Definition odds {A} (l : list A) : list A :=
  match l with [] => [] | _ :: l' => evens l' end.

(** The order price, then time: better price first, earlier timestamp
    first among equal prices. *)
Definition bestThenEarliest (s : OrderSide) (a b : OrderBookEntry.t) : Prop :=
  match s with BUY => bidBefore a b | SELL => askBefore a b end.

(** The whole numbers a double holds exactly, up to 2^53. The numbers of a
    walk of [order] over [side] that stay among them: the order's quantity
    and what is filled of it, its limit, the remaining quantity and the
    price of every entry, and the value of every entry. On such a walk the
    source computes in doubles what the embedding computes in [Z]. *)
Definition exactNumber (z : Z) : Prop := Z.abs z <= 2 ^ 53.

Definition exactWalk (order : Order.t) (side : list OrderBookEntry.t) : Prop :=
  0 <= Order.quantity order
  /\ 0 <= Order.filledQuantity order
  /\ exactNumber (Order.filledQuantity order + Order.quantity order)
  /\ match Order.price order with Some p => exactNumber p | None => True end
  /\ Forall (fun e =>
               0 <= OrderBookEntry.remainingQuantity e
               /\ exactNumber (OrderBookEntry.remainingQuantity e)
               /\ exactNumber (OrderBookEntry.price e)
               /\ exactNumber (OrderBookEntry.remainingQuantity e
                               * OrderBookEntry.price e))
       side.

(** For an incoming order of side [s], the price [p] is no worse than
    [q]: lower for a buy, higher for a sell. The order of execution: a
    trade at a price that is no worse than the price of the other. *)
Definition noWorse (s : OrderSide) (p q : Z) : Prop :=
  match s with BUY => p <= q | SELL => q <= p end.

Definition executedNotAfter (s : OrderSide) (a b : Trade.t) : Prop :=
  noWorse s (Trade.price a) (Trade.price b).

(** Both sides of a book in price-time order, and the same for the side
    an order of side [s] faces. *)
Definition inPriceTime (b : OrderBook) : Prop :=
  StronglySorted bidBefore (bids b) /\ StronglySorted askBefore (asks b).

Definition facingInTime (s : OrderSide) : list OrderBookEntry.t -> Prop :=
  match s with BUY => StronglySorted askBefore | SELL => StronglySorted bidBefore end.



(** * Properties *)

(** ** Stable sort *)

Section StableSortFacts.
Context {A : Type} (cmp : A -> A -> Z).

Lemma insertSorted_Permutation (x : A) (l : list A) :
  insertSorted cmp x l ≡ₚ x :: l.
Proof.
  induction l as [|y l IH]; simpl; [done|].
  destruct (cmp x y <=? 0); [done|].
  rewrite IH. apply Permutation_swap.
Qed.

Lemma stableSort_Permutation (l : list A) : stableSort cmp l ≡ₚ l.
Proof.
  induction l as [|x l IH]; simpl; [done|].
  by rewrite insertSorted_Permutation, IH.
Qed.

Lemma stableSort_elem_of (x : A) (l : list A) : x ∈ stableSort cmp l ↔ x ∈ l.
Proof. by rewrite stableSort_Permutation. Qed.

Hypothesis cmp_total : forall a b, 0 < cmp a b -> cmp b a <= 0.
Hypothesis cmp_trans : forall a b c, cmp a b <= 0 -> cmp b c <= 0 -> cmp a c <= 0.

Lemma insertSorted_sorted (x : A) (l : list A) :
  StronglySorted (notAfter cmp) l -> StronglySorted (notAfter cmp) (insertSorted cmp x l).
Proof.
  induction l as [|y l IH]; simpl; intros Hs.
  - repeat constructor.
  - apply StronglySorted_cons in Hs as [Hy Hs].
    destruct (Z.leb_spec (cmp x y) 0) as [Hle|Hgt].
    + apply StronglySorted_cons. split.
      * constructor; [done|].
        eapply Forall_impl; [exact Hy|]. intros z Hz. by eapply cmp_trans.
      * by apply StronglySorted_cons.
    + apply StronglySorted_cons. split; [|by apply IH].
      rewrite insertSorted_Permutation. constructor; [|done].
      by apply cmp_total.
Qed.

Lemma stableSort_sorted (l : list A) : StronglySorted (notAfter cmp) (stableSort cmp l).
Proof.
  induction l as [|x l IH]; simpl; [constructor|].
  by apply insertSorted_sorted.
Qed.

(** Sorting an array that is in order leaves it as it is. *)
Lemma stableSort_of_sorted (l : list A) :
  StronglySorted (notAfter cmp) l -> stableSort cmp l = l.
Proof.
  induction l as [|x l IH]; simpl; [done|].
  intros [Hx Hs]%StronglySorted_cons. rewrite IH by done.
  destruct l as [|y l]; simpl; [done|].
  apply Forall_cons in Hx as [Hxy _]. unfold notAfter in Hxy.
  destruct (Z.leb_spec (cmp x y) 0); [done|lia].
Qed.
End StableSortFacts.

(** ** Price order of a book side *)

Lemma bestFirst_total s a b : 0 < bestFirst s a b -> bestFirst s b a <= 0.
Proof. destruct s; unfold bestFirst, byPriceAsc, byPriceDesc; lia. Qed.

Lemma bestFirst_trans s a b c :
  bestFirst s a b <= 0 -> bestFirst s b c <= 0 -> bestFirst s a c <= 0.
Proof. destruct s; unfold bestFirst, byPriceAsc, byPriceDesc; lia. Qed.

Lemma sort_bestFirst_sorted s l : sideByPrice s (stableSort (bestFirst s) l).
Proof.
  apply stableSort_sorted; [apply bestFirst_total | apply bestFirst_trans].
Qed.

Lemma offer_id e : OrderBookEntry.id (offer e) = OrderBookEntry.id e.
Proof. done. Qed.
Lemma offer_price e : OrderBookEntry.price (offer e) = OrderBookEntry.price e.
Proof. done. Qed.

Lemma sorted_by_offers (cmp : OrderBookEntry.t -> OrderBookEntry.t -> Z) l :
  (forall a b, cmp (offer a) (offer b) = cmp a b) ->
  StronglySorted (notAfter cmp) l <-> StronglySorted (notAfter cmp) (offer <$> l).
Proof.
  intros Hc. induction l as [|x l IH]; simpl.
  - split; constructor.
  - rewrite !StronglySorted_cons, IH, Forall_fmap.
    unfold notAfter, compose. setoid_rewrite Hc. done.
Qed.

Lemma bestFirst_offer s a b : bestFirst s (offer a) (offer b) = bestFirst s a b.
Proof. by destruct s. Qed.

(** A side that only lost entries and remaining quantity is still in order. *)
Lemma sideByPrice_shrink s l l' :
  offer <$> l' `sublist_of` offer <$> l -> sideByPrice s l -> sideByPrice s l'.
Proof.
  unfold sideByPrice. intros Hsub Hs.
  apply sorted_by_offers; [apply bestFirst_offer|].
  apply sorted_by_offers in Hs; [|apply bestFirst_offer].
  revert Hs. generalize (offer <$> l) (offer <$> l') Hsub. clear.
  intros l l' Hsub. induction Hsub as [|x l1 l2 Hsub IH|x l1 l2 Hsub IH].
  - done.
  - rewrite !StronglySorted_cons. intros [Hx Hs]. split; [|by apply IH].
    eapply Forall_forall. intros y Hy. eapply Forall_forall in Hx; [exact Hx|].
    by eapply elem_of_sublist.
  - rewrite StronglySorted_cons. intros [_ Hs]. by apply IH.
Qed.

(** ** One match *)

Lemma untag_tagEntries l : untag (tagEntries l) = l.
Proof. unfold untag, tagEntries. apply snd_zip. by rewrite length_seq. Qed.

Lemma offers_setRemaining tag v book :
  offer <$> untag (setRemaining tag v book) = offer <$> untag book.
Proof.
  unfold untag, setRemaining. rewrite <- !list_fmap_compose.
  apply list_fmap_ext. intros i [n e] _. simpl. by destruct (hasTag tag (n, e)).
Qed.

Lemma removelast_sublist {A} (l : list A) : removelast l `sublist_of` l.
Proof.
  induction l as [|x [|y l] IH]; simpl; [done|apply sublist_nil_l|].
  by apply sublist_skip.
Qed.

Lemma spliceOut_sublist tag book : spliceOut tag book `sublist_of` book.
Proof.
  unfold spliceOut. destruct (indexOf tag book).
  - apply sublist_delete.
  - apply removelast_sublist.
Qed.

Lemma txWrite_throws tx e : txWrite tx = Throw e -> e = PersistenceError.
Proof. unfold txWrite. destruct (txWrites tx) as [[|n]|]; congruence. Qed.

Lemma managerSaveTrade_throws t tx e :
  managerSaveTrade t tx = Throw e -> e = PersistenceError.
Proof.
  unfold managerSaveTrade. destruct (txWrite tx) eqn:E; [done|].
  intros [= <-]. by eapply txWrite_throws.
Qed.

Lemma managerSaveOrder_throws o tx e :
  managerSaveOrder o tx = Throw e -> e = PersistenceError.
Proof.
  unfold managerSaveOrder. destruct (txWrite tx) eqn:E; [done|].
  intros [= <-]. by eapply txWrite_throws.
Qed.

(** What one run of the loop body does: either the trade could not be saved
    and nothing was assigned, or the trade at the entry's price is recorded,
    the quantities are moved and the book side at most lost the entry. *)
Lemma matchEntry_spec rows tag e m m' ex :
  matchEntry rows tag e m = (m', ex) ->
  let q := Z.min (mRemaining m) (OrderBookEntry.remainingQuantity e) in
  (m' = m /\ ex = Some PersistenceError)
  \/ (mTrades m' = mTrades m ++ [createTrade rows (mOrder m) e q]
      /\ mRemaining m' = mRemaining m - q
      /\ mOrder m' =
           Order.set_filledQuantity (Order.filledQuantity (mOrder m) + q) (mOrder m)
      /\ offer <$> untag (mBook m') `sublist_of` offer <$> untag (mBook m)
      /\ (ex = None \/ ex = Some PersistenceError)).
Proof.
  intros H q. unfold matchEntry in H. fold q in H.
  destruct (managerSaveTrade _ (mTx m)) as [tx1|e1] eqn:E1.
  2:{ left. apply managerSaveTrade_throws in E1. by simplify_eq. }
  right.
  match type of H with
  | (match ?s with _ => _ end) = _ => destruct s as [tx2|e2] eqn:E2
  end; simplify_eq; simpl.
  - repeat split; try done; [|by left].
    destruct (_ <=? 0).
    + rewrite <- (offers_setRemaining tag (OrderBookEntry.remainingQuantity e - q) (mBook m)).
      unfold untag. by rewrite spliceOut_sublist.
    + by rewrite offers_setRemaining.
  - repeat split; try done.
    + by rewrite offers_setRemaining.
    + right. f_equal. destruct (findOne _ _); [|done].
      by eapply managerSaveOrder_throws.
Qed.

(** ** Loop invariants *)

(** A property of the loop variables that every run of the body keeps is
    kept by the loops. The body is only run on an entry of the side walked,
    with a positive remaining quantity. *)
Lemma marketLoop_invariant (P : Matching -> Prop) rows :
  (forall tag e m m' ex,
      P m -> (tag, e) ∈ mBook m -> 0 < mRemaining m ->
      matchEntry rows tag e m = (m', ex) -> P m') ->
  forall fuel i m m' ex,
    P m -> marketLoop fuel i rows m = (m', ex) -> P m'.
Proof.
  intros Hbody fuel. induction fuel as [|fuel IH]; simpl; intros i m m' ex HP H.
  - by simplify_eq.
  - destruct (mBook m !! i) as [[tag e]|] eqn:Ei; [|by simplify_eq].
    destruct (Z.leb_spec (mRemaining m) 0); [by simplify_eq|].
    destruct (matchEntry rows tag e m) as [m1 [e1|]] eqn:Em.
    + simplify_eq. eapply Hbody; eauto. by eapply list_elem_of_lookup_2.
    + eapply IH; [|exact H]. eapply Hbody; eauto. by eapply list_elem_of_lookup_2.
Qed.

Lemma limitLoop_invariant (P : Matching -> Prop) rows :
  forall matchable,
  (forall tag e m m' ex,
      P m -> (tag, e) ∈ matchable -> 0 < mRemaining m ->
      matchEntry rows tag e m = (m', ex) -> P m') ->
  forall m m' ex,
    P m -> limitLoop matchable rows m = (m', ex) -> P m'.
Proof.
  intros matchable.
  induction matchable as [|[tag e] rest IH]; simpl; intros Hbody m m' ex HP H.
  - by simplify_eq.
  - destruct (Z.leb_spec (mRemaining m) 0); [by simplify_eq|].
    destruct (matchEntry rows tag e m) as [m1 [e1|]] eqn:Em.
    + simplify_eq. eapply Hbody; eauto. left.
    + eapply IH; [| |exact H].
      * intros ? ? ? ? ? ? ?. eapply Hbody; eauto. by right.
      * eapply Hbody; eauto. left.
Qed.

(** The market walk only throws what a failed [save] throws. *)
Lemma marketLoop_throws rows fuel i m m' e :
  marketLoop fuel i rows m = (m', Some e) -> e = PersistenceError.
Proof.
  revert i m. induction fuel as [|fuel IH]; simpl; intros i m H; [done|].
  destruct (mBook m !! i) as [[tag be]|]; [|done].
  destruct (mRemaining m <=? 0); [done|].
  destruct (matchEntry rows tag be m) as [m1 [e1|]] eqn:Em; [|by eapply IH].
  simplify_eq. apply matchEntry_spec in Em.
  destruct Em as [[_ ?]|(_ & _ & _ & _ & [?|?])]; congruence.
Qed.

(** ** The iterator of the market walk *)

Lemma tagEntries_length l : length (tagEntries l) = length l.
Proof.
  unfold tagEntries. rewrite length_zip_with, length_seq. lia.
Qed.

Lemma matchEntry_book_length rows tag e m m' ex :
  matchEntry rows tag e m = (m', ex) ->
  (length (mBook m') <= length (mBook m))%nat.
Proof.
  intros [[-> _]|(_ & _ & _ & Hsub & _)]%matchEntry_spec; [done|].
  apply sublist_length in Hsub. unfold untag in Hsub.
  by rewrite !length_fmap in Hsub.
Qed.

(** The walk needs at most one iteration per entry left from the index on:
    with that much fuel, more fuel changes nothing. *)
Lemma marketLoop_more_fuel rows fuel :
  forall fuel' i m,
    (length (mBook m) <= i + fuel)%nat -> (fuel <= fuel')%nat ->
    marketLoop fuel' i rows m = marketLoop fuel i rows m.
Proof.
  induction fuel as [|fuel IH]; intros fuel' i m Hlen Hfuel.
  - assert (Hnone : mBook m !! i = None) by (apply lookup_ge_None; lia).
    destruct fuel'; [done|]. simpl. by rewrite Hnone.
  - destruct fuel' as [|fuel']; [lia|]. simpl.
    destruct (mBook m !! i) as [[tag e]|]; [|done].
    destruct (mRemaining m <=? 0); [done|].
    destruct (matchEntry rows tag e m) as [m1 [e1|]] eqn:Em; [done|].
    apply IH; [|lia]. apply matchEntry_book_length in Em. lia.
Qed.

(** The fuel [processMarketOrder] gives its walk is enough. *)
Lemma marketLoop_fuel_suffices rows l order q ts tx extra :
  marketLoop (length l + extra) 0 rows (mkMatching (tagEntries l) order q ts tx)
  = marketLoop (length l) 0 rows (mkMatching (tagEntries l) order q ts tx).
Proof.
  apply marketLoop_more_fuel; simpl; [|lia]. rewrite tagEntries_length. lia.
Qed.

(** The array iterator and the splice in the body: after an entry was taken
    whole and spliced out, the entry that moved into its place is passed
    over. A market buy of 100 against asks of 60 at 100 and 50 at 101 takes
    the 60 and stops. *)
Example market_walk_passes_over_next_entry :
  let out := processOrder None twoAsks (newOrder "b1" MARKET BUY 100 None GTC 3) in
  trades out = Ok [Trade.mk "INE001" "b1" "s1" "user-b1" "user-s1" 60 100 6000]
  /\ Order.status (updatedOrder out) = PARTIALLY_FILLED
  /\ asks (getOrderBook (engine out) "INE001") = [resting sellB 101].
Proof. vm_compute. repeat split. Qed.

(** ** Identity of the entry objects *)

Lemma tagEntries_NoDup l : NoDup (tagEntries l).*1.
Proof.
  unfold tagEntries. rewrite fst_zip by (rewrite length_seq; lia). apply NoDup_seq.
Qed.


Lemma indexOf_None tag book : indexOf tag book = None -> tag ∉ book.*1.
Proof.
  induction book as [|te book IH]; simpl; [intros _; apply not_elem_of_nil|].
  unfold hasTag. destruct (Nat.eqb_spec te.1 tag) as [Heq|Hne]; [done|].
  destruct (indexOf tag book) as [j|]; [done|]. intros _.
  intros [?|?]%elem_of_cons; [done|]. by apply IH.
Qed.

Lemma setRemaining_tags tag v book : (setRemaining tag v book).*1 = book.*1.
Proof.
  unfold setRemaining. rewrite <- list_fmap_compose. apply list_fmap_ext.
  intros i te _. simpl. by destruct (hasTag tag te).
Qed.






Lemma filter_sublist_bool {A} (f : A -> bool) (l : list A) :
  List.filter f l `sublist_of` l.
Proof.
  induction l as [|x l IH]; simpl; [done|].
  destruct (f x); [by apply sublist_skip|by apply sublist_cons].
Qed.



(** ** What a walk over the opposite side keeps *)

Lemma sameButFilled_fields a b :
  sameButFilled a b ->
  Order.id a = Order.id b /\ Order.side a = Order.side b
  /\ Order.bondId a = Order.bondId b /\ Order.status a = Order.status b
  /\ Order.price a = Order.price b /\ Order.quantity a = Order.quantity b
  /\ Order.createdAt a = Order.createdAt b
  /\ Order.orderType a = Order.orderType b
  /\ Order.userId a = Order.userId b.
Proof. destruct a, b. unfold sameButFilled. simpl. intros [=]. by subst. Qed.

Lemma sumZ_app l1 l2 : sumZ (l1 ++ l2) = sumZ l1 + sumZ l2.
Proof. unfold sumZ. induction l1 as [|x l1 IH]; simpl; lia. Qed.

Lemma createTrade_against rows order0 order e q :
  sameButFilled order order0 -> tradeAgainst order0 e (createTrade rows order e q).
Proof.
  intros Hs. apply sameButFilled_fields in Hs as (Hid & Hside & Hbond & _).
  unfold tradeAgainst, createTrade. simpl. rewrite <- Hside, <- Hid, <- Hbond.
  by destruct (Order.side order).
Qed.

Lemma tradeAgainst_offer order e e' t :
  offer e = offer e' -> tradeAgainst order e t -> tradeAgainst order e' t.
Proof.
  intros He. unfold tradeAgainst.
  rewrite <- (offer_price e), <- (offer_id e), He, offer_price, offer_id. done.
Qed.

Lemma walkInvariant_start order walked tx :
  walkInvariant order walked
    (mkMatching (tagEntries walked) order (Order.quantity order) [] tx).
Proof.
  split; simpl.
  - unfold sumZ. simpl. lia.
  - intros. lia.
  - by rewrite untag_tagEntries.
  - done.
  - unfold sumZ. simpl. lia.
  - constructor.
Qed.

Lemma matchEntry_walkInvariant rows order walked tag e m m' ex :
  walkInvariant order walked m ->
  offer e ∈ offer <$> walked ->
  matchEntry rows tag e m = (m', ex) ->
  walkInvariant order walked m'.
Proof.
  intros [Hc Hr Hb Ho Hf Ht] He Hm.
  apply matchEntry_spec in Hm as [[-> _]|(Htr & Hrem & Hord & Hbook & _)]; [done|].
  split.
  - rewrite Htr, Hrem, fmap_app, sumZ_app. simpl. lia.
  - rewrite Hrem. intros Hq. specialize (Hr Hq). lia.
  - by etrans.
  - rewrite Hord. revert Ho. unfold sameButFilled. by destruct (mOrder m).
  - rewrite Hord, Htr, fmap_app, sumZ_app. simpl. lia.
  - rewrite Htr. apply Forall_app. split; [done|]. constructor; [|done].
    apply list_elem_of_fmap in He as (e0 & He0 & Hin). exists e0. split; [done|].
    eapply tradeAgainst_offer; [exact He0|]. by apply createTrade_against.
Qed.

Lemma marketLoop_walkInvariant rows order walked fuel i m m' ex :
  walkInvariant order walked m ->
  marketLoop fuel i rows m = (m', ex) ->
  walkInvariant order walked m'.
Proof.
  apply (marketLoop_invariant (walkInvariant order walked)).
  intros tag e m0 m1 ex1 Hinv Hin _ Hm.
  eapply matchEntry_walkInvariant; [done| |exact Hm].
  eapply elem_of_sublist; [|apply (walk_book _ _ _ Hinv)].
  apply list_elem_of_fmap. exists e. split; [done|].
  apply list_elem_of_fmap. by exists (tag, e).
Qed.

Lemma limitLoop_walkInvariant rows order walked ml m m' ex :
  (forall tag e, (tag, e) ∈ ml -> e ∈ walked) ->
  walkInvariant order walked m ->
  limitLoop ml rows m = (m', ex) ->
  walkInvariant order walked m'.
Proof.
  intros Hml. apply (limitLoop_invariant (walkInvariant order walked)).
  intros tag e m0 m1 ex1 Hinv Hin _ Hm.
  eapply matchEntry_walkInvariant; [done| |exact Hm].
  apply list_elem_of_fmap. exists e. split; [done|]. by eapply Hml.
Qed.

(** The [matchableOrders] of a limit order are entries of the opposite side. *)
Lemma matchable_from_book (f : Tagged -> bool) cmp l tag e :
  (tag, e) ∈ stableSort cmp (List.filter f (tagEntries l)) -> e ∈ l.
Proof.
  rewrite stableSort_elem_of, list_elem_of_In, filter_In, <- list_elem_of_In.
  intros [Hin _]. unfold tagEntries in Hin.
  apply list_elem_of_lookup in Hin as [i Hi].
  apply lookup_zip_Some in Hi as [_ Hi]. by eapply list_elem_of_lookup_2.
Qed.

(** ** The order book map *)

Lemma getOrCreateOrderBook_spec books bondId :
  exists books1,
    getOrCreateOrderBook books bondId = (books1, default emptyBook (books !! bondId))
    /\ (forall b, <[bondId := b]> books1 = <[bondId := b]> books)
    /\ books1 !! bondId = Some (default emptyBook (books !! bondId))
    /\ (forall k b, books !! k = Some b -> books1 !! k = Some b).
Proof.
  unfold getOrCreateOrderBook. destruct (books !! bondId) as [b|] eqn:E; simpl.
  - exists books. by repeat split.
  - eexists. split; [done|]. split; [|split].
    + intros b. apply insert_insert_eq.
    + apply lookup_insert_eq.
    + intros k b Hk. rewrite lookup_insert_ne; [done|]. congruence.
Qed.

(** ** The two algorithms, seen through their loop *)

Lemma withAveragePrice_status ts o :
  Order.status (withAveragePrice ts o) = Order.status o.
Proof. by destruct ts. Qed.

(** Every call of [processMarketOrder] is a walk over the sorted opposite
    side that ends in some loop state [m1]; the book of the instrument gets
    the walked side, and the call either returns the trades of the walk or
    throws after a failed [save], with the stores as they were. *)
Lemma processMarketOrder_view faults eng order :
  let s := Order.side order in
  let book := getOrderBook eng (Order.bondId order) in
  let out := processMarketOrder faults eng order in
  exists m1,
    walkInvariant order (stableSort (bestFirst s) (oppositeSide s book)) m1
    /\ orderBooks (engine out) =
         <[Order.bondId order := setOppositeSide s (untag (mBook m1)) book]>
           (orderBooks eng)
    /\ match trades out with
       | Ok ts =>
           ts = mTrades m1
           /\ updatedOrder out = withAveragePrice ts (marketStatus m1)
       | Throw e =>
           e = PersistenceError
           /\ orderRepository (engine out) = orderRepository eng
           /\ tradeRepository (engine out) = tradeRepository eng
       end.
Proof.
  intros s book out. subst out. unfold processMarketOrder.
  destruct (getOrCreateOrderBook_spec (orderBooks eng) (Order.bondId order))
    as (books1 & -> & Hins & _). fold book s.
  destruct (marketLoop _ _ _ _) as [m1 thrown] eqn:Eloop. exists m1.
  split; [eapply marketLoop_walkInvariant; [apply walkInvariant_start|exact Eloop]|].
  destruct thrown as [e|]; simpl.
  - split; [apply Hins|]. apply marketLoop_throws in Eloop. done.
  - destruct (managerSaveOrder _ _) as [tx|e] eqn:Es; simpl.
    + split; [apply Hins|done].
    + split; [apply Hins|]. apply managerSaveOrder_throws in Es. done.
Qed.

(** The [matchableOrders] of a limit order are entries of the opposite side. *)
Lemma matchableOrders_from_book s limit l ml tag e :
  matchableOrders s limit (tagEntries l) = Ok ml -> (tag, e) ∈ ml -> e ∈ l.
Proof.
  unfold matchableOrders. destruct (tagEntries l) as [|te tl] eqn:Etag.
  - intros [= <-] Hin. by apply elem_of_nil in Hin.
  - destruct limit as [p|]; [|done]. intros [= <-] Hin.
    eapply matchable_from_book. rewrite Etag. exact Hin.
Qed.

Lemma matchableOrders_throws s limit tagged e :
  matchableOrders s limit tagged = Throw e -> limit = None /\ e = TypeError.
Proof.
  unfold matchableOrders. destruct tagged; [done|]. destruct limit; [done|].
  by intros [= <-].
Qed.

(** Every call of [processLimitOrder] either throws in the filter (no price,
    opposite side not empty) before anything but the book lookup happened,
    or is a walk over the crossing entries that ends in some loop state
    [m1], followed by the admission of the remainder when there is one. *)
Lemma processLimitOrder_view faults eng order :
  let s := Order.side order in
  let book := getOrderBook eng (Order.bondId order) in
  let out := processLimitOrder faults eng order in
  (Order.price order = None
   /\ trades out = Throw TypeError
   /\ updatedOrder out = order
   /\ engine out =
        mkEngine (getOrCreateOrderBook (orderBooks eng) (Order.bondId order)).1
          (orderRepository eng) (tradeRepository eng))
  \/ exists m1,
      walkInvariant order (oppositeSide s book) m1
      /\ let books2 :=
           <[Order.bondId order := setOppositeSide s (untag (mBook m1)) book]>
             (orderBooks eng) in
         let rested :=
           addToOrderBook books2 (limitStatus m1) (Some (mRemaining m1)) in
         match trades out with
         | Ok ts =>
             ts = mTrades m1
             /\ updatedOrder out = withAveragePrice ts (limitStatus m1)
             /\ ((mRemaining m1 <= 0 /\ orderBooks (engine out) = books2)
                 \/ (0 < mRemaining m1 /\ rested = (orderBooks (engine out), None)))
         | Throw e =>
             orderRepository (engine out) = orderRepository eng
             /\ tradeRepository (engine out) = tradeRepository eng
             /\ (orderBooks (engine out) = books2
                 \/ (0 < mRemaining m1 /\ orderBooks (engine out) = rested.1))
         end.
Proof.
  intros s book out. subst out. unfold processLimitOrder.
  destruct (getOrCreateOrderBook_spec (orderBooks eng) (Order.bondId order))
    as (books1 & Hget & Hins & _). rewrite Hget. fold book s. simpl.
  destruct (matchableOrders _ _ _) as [ml|e] eqn:Eml.
  2:{ left. by apply matchableOrders_throws in Eml as [-> ->]. }
  right. unfold limitTransaction. fold s.
  destruct (limitLoop _ _ _) as [m1 thrown] eqn:Eloop. exists m1. split.
  { eapply limitLoop_walkInvariant; [|apply walkInvariant_start|exact Eloop].
    intros tag e. by eapply matchableOrders_from_book. }
  rewrite Hins. destruct thrown as [e|]; simpl; [by auto|].
  destruct (Z.leb_spec (mRemaining m1) 0) as [Hle|Hgt].
  - destruct (managerSaveOrder _ _); simpl; auto 6.
  - destruct (addToOrderBook _ _ _) as [books3 [e|]] eqn:Eadd; simpl; [by auto|].
    destruct (managerSaveOrder _ _); simpl; auto 6.
Qed.

(** ** Two scenarios of the specification *)

(** Scenario B: on an empty book, a limit sell of 50 at 99, good till
    cancelled, trades nothing, stays PENDING and rests as the only ask. *)
Example limit_order_rests_on_empty_book :
  let order := newOrder "s3" LIMIT SELL 50 (Some 99) GTC 4 in
  let out := TradingService_createOrder None freshEngine order in
  trades out = Ok []
  /\ Order.status (updatedOrder out) = PENDING
  /\ getOrderBook (engine out) "INE001" = mkBook [] [resting order 99].
Proof. vm_compute. repeat split. Qed.

(** Scenario C: the resting buy of 20 at 50 is cancelled; the bids are
    empty, the order is CANCELLED in the store, and a sell at 50 that comes
    next trades nothing and rests. *)
Example cancelled_order_is_not_matched :
  let cancelled := (TradingService_cancelOrder oneBid "b1" "user-b1").1 in
  let sell := newOrder "s4" LIMIT SELL 20 (Some 50) GTC 6 in
  bids (getOrderBook cancelled "INE001") = []
  /\ (Order.status <$> findOne "b1" (orderRepository cancelled)) = Some CANCELLED
  /\ trades (TradingService_createOrder None cancelled sell) = Ok [].
Proof. vm_compute. repeat split. Qed.

(** ** Whole numbers *)

(** [exactWalk] for an order and a side that are given: every bound by
    computation. *)
Ltac exact_walk side :=
  change (oppositeSide _ _) with side; unfold exactWalk, exactNumber;
  split; [simpl; lia|]; split; [simpl; lia|];
  split; [vm_compute; discriminate|];
  split; [first [exact I|vm_compute; discriminate]|];
  repeat (apply List.Forall_cons; [repeat split; vm_compute; discriminate|]);
  apply List.Forall_nil.

(** * The claims *)

(** ** Orders that are neither market nor limit orders *)

(** C10. For an incoming order whose type is neither MARKET nor LIMIT
    (STOP_LOSS, ICEBERG), [processOrder] returns an empty trade list and the
    order as it came (status and filled quantity included) and leaves every
    order book and both stores as they were. *)
Theorem processOrder_other_type_noop faults eng order :
  Order.orderType order <> MARKET ->
  Order.orderType order <> LIMIT ->
  trades (processOrder faults eng order) = Ok []
  /\ updatedOrder (processOrder faults eng order) = order
  /\ engine (processOrder faults eng order) = eng.
Proof.
  intros Hm Hl. unfold processOrder. by destruct (Order.orderType order).
Qed.

Lemma processOrder_other_type_noop_witness :
  let order := newOrder "o1" STOP_LOSS SELL 25 (Some 990000) GTC 1 in
  let eng := mkEngine {["INE001" := mkBook [resting order 990000] []]} [order] [] in
  trades (processOrder (Some 0%nat) eng order) = Ok []
  /\ updatedOrder (processOrder (Some 0%nat) eng order) = order
  /\ engine (processOrder (Some 0%nat) eng order) = eng.
Proof.
  intros order eng.
  apply (processOrder_other_type_noop (Some 0%nat) eng order); discriminate.
Defined.

(** ** Conservation *)

Lemma marketStatus_filled m :
  Order.status (marketStatus m) = FILLED <-> mRemaining m <= 0.
Proof.
  unfold marketStatus. destruct (Z.leb_spec (mRemaining m) 0); simpl.
  - tauto.
  - destruct (_ >? 0); simpl; split; (discriminate || lia).
Qed.

Lemma limitStatus_filled m :
  Order.status (mOrder m) <> FILLED ->
  Order.status (limitStatus m) = FILLED <-> mRemaining m <= 0.
Proof.
  unfold limitStatus. intros Hs. destruct (Z.leb_spec (mRemaining m) 0); simpl.
  - tauto.
  - destruct (_ >? 0); simpl; split; (discriminate || lia || done).
Qed.

(** On whole numbers that doubles hold exactly the law of conservation
    holds: for one submission (a pending order of positive quantity), the
    quantities of the trades that
    processing returns sum to at most the submitted quantity, and to
    exactly the submitted quantity if and only if the order ends FILLED. *)
Theorem trades_conserve_quantity faults eng order ts :
  exactWalk order
    (oppositeSide (Order.side order) (getOrderBook eng (Order.bondId order))) ->
  0 < Order.quantity order ->
  Order.status order = PENDING ->
  trades (processOrder faults eng order) = Ok ts ->
  sumZ (Trade.quantity <$> ts) <= Order.quantity order
  /\ (sumZ (Trade.quantity <$> ts) = Order.quantity order
      <-> Order.status (updatedOrder (processOrder faults eng order)) = FILLED).
Proof.
  intros _ Hq Hst. unfold processOrder.
  destruct (Order.orderType order) eqn:Ety.
  - destruct (processMarketOrder_view faults eng order) as (m1 & Hinv & _ & Hout).
    intros Hts. rewrite Hts in Hout. destruct Hout as [-> ->].
    rewrite withAveragePrice_status, marketStatus_filled.
    pose proof (walk_conserves _ _ _ Hinv). pose proof (walk_remaining _ _ _ Hinv).
    lia.
  - destruct (processLimitOrder_view faults eng order)
      as [(_ & Hthrow & _)|(m1 & Hinv & Hout)]; intros Hts.
    { by rewrite Hthrow in Hts. }
    simpl in Hout. rewrite Hts in Hout. destruct Hout as (-> & -> & _).
    rewrite withAveragePrice_status, limitStatus_filled.
    + pose proof (walk_conserves _ _ _ Hinv). pose proof (walk_remaining _ _ _ Hinv).
      lia.
    + destruct (sameButFilled_fields _ _ (walk_order _ _ _ Hinv))
        as (_ & _ & _ & -> & _). by rewrite Hst.
  - simpl. intros [= <-]. rewrite Hst. unfold sumZ. simpl. split; [lia|].
    split; [lia|discriminate].
  - simpl. intros [= <-]. rewrite Hst. unfold sumZ. simpl. split; [lia|].
    split; [lia|discriminate].
Qed.

Lemma trades_conserve_quantity_witness :
  let order := newOrder "b1" LIMIT BUY 100 (Some 101) GTC 3 in
  let ts := [Trade.mk "INE001" "b1" "s1" "user-b1" "user-s1" 60 100 6000;
             Trade.mk "INE001" "b1" "s2" "user-b1" "user-s2" 40 101 4040] in
  sumZ (Trade.quantity <$> ts) <= Order.quantity order
  /\ (sumZ (Trade.quantity <$> ts) = Order.quantity order
      <-> Order.status (updatedOrder (processOrder None twoAsks order)) = FILLED).
Proof.
  intros order ts.
  apply (trades_conserve_quantity None twoAsks order ts);
    [exact_walk [resting sellA 100; resting sellB 101]
    | reflexivity | reflexivity | vm_compute; reflexivity].
Defined.

(** C5. With quantities that have decimals the engine breaks the law,
    because it subtracts doubles. A limit buy of 3.07 at 10 meets asks of
    1.03 and 2.04 at 10. The walk takes the first ask whole and computes
    3.07 - 1.03, which in doubles is the double 2.04; it takes the second
    ask whole, nothing remains, and the order ends FILLED with both asks
    gone from the book. But the doubles 1.03 and 2.04 are together more
    than the double 3.07, by 2^-52: the quantities of the two trades sum
    to more than the submitted quantity, in exact arithmetic, and in the
    sum the engine forms itself, the [filledQuantity] it returns. *)
Theorem decimal_fills_exceed_the_submitted_quantity :
  let out := Double.processOrder Double.users Double.asks_103_204 Double.buy_307 in
  Double.Order.quantity Double.buy_307 = 3.07%float
  /\ Double.trades out
     = Ok [Double.Trade.mk "INE001" "b1" "s1" "user-b1" "user-s1"
             1.03 10 10.3;
           Double.Trade.mk "INE001" "b1" "s2" "user-b1" "user-s2"
             2.04 10 20.4]
  /\ Double.Order.status (Double.updatedOrder out) = FILLED
  /\ Double.book out = Double.mkBook [] []
  /\ Double.units 3.07 < Double.units 1.03 + Double.units 2.04
  /\ Double.units 1.03 + Double.units 2.04 - Double.units 3.07 = Double.units 0x1p-52
  /\ Double.Order.filledQuantity (Double.updatedOrder out) = 3.0700000000000003%float
  /\ (Double.Order.quantity (Double.updatedOrder out)
      <? Double.Order.filledQuantity (Double.updatedOrder out))%float = true.
Proof. vm_compute. repeat split. Qed.

(** The same rounding has a second face: a limit buy of 2.14 at 10 meets
    asks of 1.14 and 1.00 at 10, which cover it. The walk takes both asks
    whole; 2.14 - 1.14 is in doubles a little more than 1, so after the
    second ask 2^-52 remain. The order ends PARTIALLY_FILLED and a bid for
    2^-52 is admitted to the book. *)
Example decimal_fill_leaves_dust :
  let out := Double.processOrder Double.users Double.asks_114_100 Double.buy_214 in
  (Double.Trade.quantity <$> default [] (match Double.trades out with
                                         | Ok ts => Some ts
                                         | Throw _ => None
                                         end))
  = [1.14%float; 1%float]
  /\ Double.Order.status (Double.updatedOrder out) = PARTIALLY_FILLED
  /\ Double.book out
     = Double.mkBook [Double.OrderBookEntry.mk "b1" 10 2.14 0x1p-52 3] [].
Proof. vm_compute. repeat split. Qed.

(** On the whole numbers of the scenarios the two embeddings give the same
    trades, the same order and the same book: a limit buy of 100 at 101 and
    a market buy of 100 against the two asks, and the orders of scenario
    D. *)
Example walks_agree_on_whole_numbers :
  onDoubles twoAsks (newOrder "b1" LIMIT BUY 100 (Some 101) GTC 3)
  = toDouble_outcome "INE001"
      (processOrder None twoAsks (newOrder "b1" LIMIT BUY 100 (Some 101) GTC 3))
  /\ onDoubles twoAsks (newOrder "b1" MARKET BUY 100 None GTC 3)
     = toDouble_outcome "INE001"
         (processOrder None twoAsks (newOrder "b1" MARKET BUY 100 None GTC 3))
  /\ onDoubles oneAsk fokBuy
     = toDouble_outcome "INE001" (processOrder None oneAsk fokBuy)
  /\ onDoubles afterPartialFill sellLater
     = toDouble_outcome "INE001" (processOrder None afterPartialFill sellLater).
Proof. vm_compute. repeat split. Qed.

(** ** Trade prices *)

Lemma trades_against_opposite_side faults eng order ts t :
  trades (processOrder faults eng order) = Ok ts ->
  t ∈ ts ->
  exists e,
    e ∈ oppositeSide (Order.side order) (getOrderBook eng (Order.bondId order))
    /\ tradeAgainst order e t.
Proof.
  unfold processOrder. destruct (Order.orderType order).
  - destruct (processMarketOrder_view faults eng order) as (m1 & Hinv & _ & Hout).
    intros Hts Ht. rewrite Hts in Hout. destruct Hout as [-> _].
    pose proof (walk_trades _ _ _ Hinv) as Hall.
    rewrite Forall_forall in Hall. destruct (Hall t Ht) as (e & He & Hag).
    exists e. split; [|done]. by apply stableSort_elem_of in He.
  - destruct (processLimitOrder_view faults eng order)
      as [(_ & Hthrow & _)|(m1 & Hinv & Hout)]; intros Hts Ht.
    { by rewrite Hthrow in Hts. }
    simpl in Hout. rewrite Hts in Hout. destruct Hout as (-> & _).
    pose proof (walk_trades _ _ _ Hinv) as Hall.
    rewrite Forall_forall in Hall. apply (Hall t Ht).
  - simpl. intros [= <-] Ht. by apply elem_of_nil in Ht.
  - simpl. intros [= <-] Ht. by apply elem_of_nil in Ht.
Qed.

(** C4. Every trade returned for an incoming MARKET or LIMIT order is a match
    with an entry that rested on the opposite side of the instrument's book
    when the order came in, and its price is that entry's price: the price
    field of the incoming order is not what the trade is priced at. *)
Theorem trade_price_is_resting_price faults eng order ts t :
  Order.orderType order = MARKET \/ Order.orderType order = LIMIT ->
  trades (processOrder faults eng order) = Ok ts ->
  t ∈ ts ->
  exists e,
    e ∈ oppositeSide (Order.side order) (getOrderBook eng (Order.bondId order))
    /\ Trade.price t = OrderBookEntry.price e
    /\ Trade.totalValue t = Trade.quantity t * OrderBookEntry.price e
    /\ match Order.side order with
       | BUY => Trade.sellOrderId t = OrderBookEntry.id e
       | SELL => Trade.buyOrderId t = OrderBookEntry.id e
       end.
Proof.
  intros _ Hts Ht.
  destruct (trades_against_opposite_side faults eng order ts t Hts Ht)
    as (e & He & Hp & Hv & _ & Hside).
  exists e. repeat split; try done. by destruct (Order.side order), Hside.
Qed.

Lemma trade_price_is_resting_price_witness :
  let order := newOrder "b1" LIMIT BUY 100 (Some 105) GTC 3 in
  let t := Trade.mk "INE001" "b1" "s2" "user-b1" "user-s2" 40 101 4040 in
  exists e,
    e ∈ oppositeSide (Order.side order) (getOrderBook twoAsks (Order.bondId order))
    /\ Trade.price t = OrderBookEntry.price e
    /\ Trade.totalValue t = Trade.quantity t * OrderBookEntry.price e
    /\ match Order.side order with
       | BUY => Trade.sellOrderId t = OrderBookEntry.id e
       | SELL => Trade.buyOrderId t = OrderBookEntry.id e
       end.
Proof.
  intros order t.
  apply (trade_price_is_resting_price None twoAsks order
           [Trade.mk "INE001" "b1" "s1" "user-b1" "user-s1" 60 100 6000; t] t).
  - right. reflexivity.
  - vm_compute. reflexivity.
  - apply list_elem_of_In. simpl. right. left. reflexivity.
Defined.

(** ** Failure of the store *)

(** C2, as stated, fails: with the asks of [twoAsks] resting, a market buy
    of 100 whose second write (the update of the matched sell order) fails
    throws, and the stores are as before; but the first ask is left in the
    book with nothing remaining and the order object says 60 are filled. *)
Lemma failed_attempt_leaves_book_and_order_changed :
  let order := newOrder "b1" MARKET BUY 100 None GTC 3 in
  let out := processOrder (Some 1%nat) twoAsks order in
  trades out = Throw PersistenceError
  /\ orderRepository (engine out) = orderRepository twoAsks
  /\ tradeRepository (engine out) = tradeRepository twoAsks
  /\ asks (getOrderBook twoAsks "INE001") = [resting sellA 100; resting sellB 101]
  /\ asks (getOrderBook (engine out) "INE001") =
       [OrderBookEntry.set_remainingQuantity 0 (resting sellA 100); resting sellB 101]
  /\ getOrderBook (engine out) "INE001" <> getOrderBook twoAsks "INE001"
  /\ Order.filledQuantity (updatedOrder out) = 60
  /\ updatedOrder out <> order.
Proof.
  vm_compute. repeat split; discriminate.
Qed.

(** A write either fails or goes through as on a store that never fails. *)
Lemma matchEntry_onReliableStore rows tag e m m' ex :
  matchEntry rows tag e m = (m', ex) ->
  ex = Some PersistenceError
  \/ (ex = None
      /\ matchEntry rows tag e (onReliableStore m) = (onReliableStore m', None)).
Proof.
  unfold matchEntry, managerSaveTrade, managerSaveOrder, txWrite, onReliableStore.
  destruct m as [book order rem ts [orders tds [[|n]|]]]; simpl.
  - intros [= <- <-]. by left.
  - destruct (findOne _ _) as [opp|]; simpl.
    + destruct n as [|n]; simpl; intros [= <- <-]; [by left|by right].
    + intros [= <- <-]. by right.
  - destruct (findOne _ _) as [opp|]; simpl; intros [= <- <-]; by right.
Qed.

Lemma marketLoop_onReliableStore rows fuel i m m' ex :
  marketLoop fuel i rows m = (m', ex) ->
  ex = Some PersistenceError
  \/ (ex = None
      /\ marketLoop fuel i rows (onReliableStore m) = (onReliableStore m', None)).
Proof.
  revert i m. induction fuel as [|fuel IH]; simpl; intros i m H.
  - simplify_eq. by right.
  - destruct (mBook m !! i) as [[tag be]|]; [|simplify_eq; by right].
    destruct (mRemaining m <=? 0); [simplify_eq; by right|].
    destruct (matchEntry rows tag be m) as [m1 ex1] eqn:Em.
    apply matchEntry_onReliableStore in Em as [->|[-> ->]].
    + simplify_eq. by left.
    + by apply IH.
Qed.

Lemma limitLoop_onReliableStore rows ml m m' ex :
  limitLoop ml rows m = (m', ex) ->
  ex = Some PersistenceError
  \/ (ex = None
      /\ limitLoop ml rows (onReliableStore m) = (onReliableStore m', None)).
Proof.
  revert m. induction ml as [|[tag be] rest IH]; simpl; intros m H.
  - simplify_eq. by right.
  - destruct (mRemaining m <=? 0); [simplify_eq; by right|].
    destruct (matchEntry rows tag be m) as [m1 ex1] eqn:Em.
    apply matchEntry_onReliableStore in Em as [->|[-> ->]].
    + simplify_eq. by left.
    + by apply IH.
Qed.

Lemma managerSaveOrder_onReliableStore o tx :
  managerSaveOrder o tx = Throw PersistenceError
  \/ exists tx',
      managerSaveOrder o tx = Ok tx'
      /\ managerSaveOrder o (mkTx (txOrders tx) (txTrades tx) None)
         = Ok (mkTx (txOrders tx') (txTrades tx') None).
Proof.
  unfold managerSaveOrder, txWrite. destruct tx as [orders tds [[|n]|]]; simpl.
  - by left.
  - right. by eexists.
  - right. by eexists.
Qed.

Ltac reliable_fields m :=
  change (marketStatus (onReliableStore m)) with (marketStatus m);
  change (limitStatus (onReliableStore m)) with (limitStatus m);
  change (mTrades (onReliableStore m)) with (mTrades m);
  change (mBook (onReliableStore m)) with (mBook m);
  change (mOrder (onReliableStore m)) with (mOrder m);
  change (mRemaining (onReliableStore m)) with (mRemaining m);
  change (mTx (onReliableStore m))
    with (mkTx (txOrders (mTx m)) (txTrades (mTx m)) None);
  cbv beta iota.

(** A store that fails at some write either makes the call throw the
    persistence error, or the call never reached that write and went as on
    a store that never fails. *)
Lemma store_failure_is_thrown n eng order :
  trades (processOrder (Some n) eng order) = Throw PersistenceError
  \/ processOrder (Some n) eng order = processOrder None eng order.
Proof.
  unfold processOrder. destruct (Order.orderType order); [| |by right|by right].
  - unfold processMarketOrder.
    destruct (getOrCreateOrderBook _ _) as [books1 orderBook].
    destruct (marketLoop _ _ _ _) as [m1 thrown] eqn:Eloop.
    apply marketLoop_onReliableStore in Eloop as [->|[-> Eloop]]; [by left|].
    unfold onReliableStore in Eloop at 1. simpl in Eloop. rewrite Eloop.
    reliable_fields m1.
    destruct (managerSaveOrder_onReliableStore
                (withAveragePrice (mTrades m1) (marketStatus m1)) (mTx m1))
      as [->|(tx' & -> & ->)]; [by left|by right].
  - unfold processLimitOrder.
    destruct (getOrCreateOrderBook _ _) as [books1 orderBook].
    destruct (matchableOrders _ _ _) as [ml|e]; [|by right].
    unfold limitTransaction.
    destruct (limitLoop _ _ _) as [m1 thrown] eqn:Eloop.
    apply limitLoop_onReliableStore in Eloop as [->|[-> Eloop]]; [by left|].
    unfold onReliableStore in Eloop at 1. simpl in Eloop. rewrite Eloop.
    reliable_fields m1.
    destruct (if mRemaining m1 <=? 0 then _ else _) as [books3 [e|]]; [by right|].
    destruct (managerSaveOrder_onReliableStore
                (withAveragePrice (mTrades m1) (limitStatus m1)) (mTx m1))
      as [->|(tx' & -> & ->)]; [by left|by right].
Qed.

(** C2, amended. When an attempt to process an order throws, both stores are
    exactly as they were before the attempt (the transaction is rolled
    back), and a failure of the store is reported: on a store that fails
    after [n] writes the attempt either throws the persistence error or
    did not reach the failing write, and then went as on a store that
    never fails. *)
Theorem failed_attempt_rolls_back_stores faults eng order :
  (forall e,
      trades (processOrder faults eng order) = Throw e ->
      orderRepository (engine (processOrder faults eng order)) = orderRepository eng
      /\ tradeRepository (engine (processOrder faults eng order)) = tradeRepository eng)
  /\ (trades (processOrder faults eng order) = Throw PersistenceError
      \/ processOrder faults eng order = processOrder None eng order).
Proof.
  split.
  - intros e. unfold processOrder. destruct (Order.orderType order); [| |done|done].
    + destruct (processMarketOrder_view faults eng order) as (m1 & _ & _ & Hout).
      intros He. rewrite He in Hout. tauto.
    + destruct (processLimitOrder_view faults eng order)
        as [(_ & _ & _ & ->)|(m1 & _ & Hout)]; intros He; [done|].
      simpl in Hout. rewrite He in Hout. tauto.
  - destruct faults as [n|]; [apply store_failure_is_thrown|by right].
Qed.

Lemma failed_attempt_rolls_back_stores_witness :
  let order := newOrder "b1" MARKET BUY 100 None GTC 3 in
  trades (processOrder (Some 1%nat) twoAsks order) = Throw PersistenceError
  /\ orderRepository (engine (processOrder (Some 1%nat) twoAsks order))
     = orderRepository twoAsks
  /\ tradeRepository (engine (processOrder (Some 1%nat) twoAsks order))
     = tradeRepository twoAsks.
Proof.
  intros order.
  assert (Hthrown : trades (processOrder (Some 1%nat) twoAsks order)
                    = Throw PersistenceError) by (vm_compute; reflexivity).
  split; [exact Hthrown|].
  exact (proj1 (failed_attempt_rolls_back_stores (Some 1%nat) twoAsks order)
           PersistenceError Hthrown).
Defined.

(** ** Order of the book *)

Section AdmissionPosition.
Context {A : Type} (cmp : A -> A -> Z).
Hypothesis cmp_trans : forall a b c, cmp a b <= 0 -> cmp b c <= 0 -> cmp a c <= 0.

Lemma insertSorted_front (y : A) (l : list A) :
  Forall (notAfter cmp y) l -> insertSorted cmp y l = y :: l.
Proof.
  destruct l as [|z l]; simpl; [done|].
  intros [Hyz _]%Forall_cons. unfold notAfter in Hyz.
  destruct (Z.leb_spec (cmp y z) 0); [done|lia].
Qed.

(** Pushing [x] on an array in order and sorting it puts [x] behind the
    elements that are not after it, and moves nothing else. *)
Lemma stableSort_push (l : list A) (x : A) :
  StronglySorted (notAfter cmp) l ->
  stableSort cmp (l ++ [x])
  = List.filter (fun y => cmp y x <=? 0) l
    ++ x :: List.filter (fun y => negb (cmp y x <=? 0)) l.
Proof.
  induction l as [|y l IH]; simpl; [done|].
  intros [Hy Hs]%StronglySorted_cons. rewrite IH by done.
  destruct (Z.leb_spec (cmp y x) 0) as [Hle|Hgt]; simpl.
  - apply insertSorted_front. apply Forall_app. split.
    + apply Forall_forall. intros z Hz. eapply Forall_forall in Hy; [exact Hy|].
      apply list_elem_of_In, filter_In in Hz as [Hz _]. by apply list_elem_of_In.
    + constructor; [done|].
      apply Forall_forall. intros z Hz. eapply Forall_forall in Hy; [exact Hy|].
      apply list_elem_of_In, filter_In in Hz as [Hz _]. by apply list_elem_of_In.
  - assert (Hnone : List.filter (fun y => cmp y x <=? 0) l = []).
    { rewrite <- (filter_false l). apply filter_ext_in. intros z Hz.
      apply list_elem_of_In in Hz. eapply Forall_forall in Hy; [|exact Hz].
      unfold notAfter in Hy. destruct (Z.leb_spec (cmp z x) 0) as [Hzx|]; [|done].
      pose proof (cmp_trans _ _ _ Hy Hzx). lia. }
    assert (Hall : List.filter (fun y => negb (cmp y x <=? 0)) l = l).
    { apply forallb_filter_id, forallb_forall. intros z Hz.
      apply list_elem_of_In in Hz. eapply Forall_forall in Hy; [|exact Hz].
      unfold notAfter in Hy. destruct (Z.leb_spec (cmp z x) 0) as [Hzx|]; [|done].
      pose proof (cmp_trans _ _ _ Hy Hzx). lia. }
    rewrite Hnone, Hall. simpl.
    destruct (Z.leb_spec (cmp y x) 0); [lia|]. f_equal.
    by apply insertSorted_front.
Qed.
End AdmissionPosition.

Lemma ownFirst_total s a b : 0 < ownFirst s a b -> ownFirst s b a <= 0.
Proof. destruct s; unfold ownFirst, byPriceAsc, byPriceDesc; lia. Qed.

Lemma ownFirst_trans s a b c :
  ownFirst s a b <= 0 -> ownFirst s b c <= 0 -> ownFirst s a c <= 0.
Proof. destruct s; unfold ownFirst, byPriceAsc, byPriceDesc; lia. Qed.

Lemma ownByPrice_alt s l : ownByPrice s l <-> StronglySorted (notAfter (ownFirst s)) l.
Proof. by destruct s. Qed.

Lemma priceOrdered_sides s b :
  priceOrdered b <-> ownByPrice s (ownSide s b) /\ sideByPrice s (oppositeSide s b).
Proof. destruct s, b; unfold priceOrdered; simpl; tauto. Qed.

Lemma ownSide_setOwnSide s l b : ownSide s (setOwnSide s l b) = l.
Proof. by destruct s. Qed.
Lemma oppositeSide_setOwnSide s l b :
  oppositeSide s (setOwnSide s l b) = oppositeSide s b.
Proof. by destruct s. Qed.
Lemma ownSide_setOppositeSide s l b : ownSide s (setOppositeSide s l b) = ownSide s b.
Proof. by destruct s. Qed.
Lemma oppositeSide_setOppositeSide s l b : oppositeSide s (setOppositeSide s l b) = l.
Proof. by destruct s. Qed.

Lemma emptyBook_priceOrdered : priceOrdered emptyBook.
Proof. split; constructor. Qed.

Lemma getOrderBook_priceOrdered books bondId :
  booksPriceOrdered books -> priceOrdered (default emptyBook (books !! bondId)).
Proof.
  intros Hb. destruct (books !! bondId) as [b|] eqn:E; simpl.
  - by eapply Hb.
  - apply emptyBook_priceOrdered.
Qed.

Lemma insert_booksPriceOrdered books bondId b :
  booksPriceOrdered books -> priceOrdered b ->
  booksPriceOrdered (<[bondId := b]> books).
Proof.
  intros Hb Hn k b'. rewrite lookup_insert. case_decide.
  - by intros [= <-].
  - apply Hb.
Qed.

Lemma getOrCreateOrderBook_priceOrdered books bondId :
  booksPriceOrdered books ->
  booksPriceOrdered (getOrCreateOrderBook books bondId).1.
Proof.
  intros Hb. unfold getOrCreateOrderBook. destruct (books !! bondId); simpl; [done|].
  apply insert_booksPriceOrdered; [done|apply emptyBook_priceOrdered].
Qed.

(** What [addToOrderBook] does, side by side. *)
Lemma addToOrderBook_spec books order rq :
  let s := Order.side order in
  let book := default emptyBook (books !! Order.bondId order) in
  addToOrderBook books order rq =
    match Order.price order with
    | None => ((getOrCreateOrderBook books (Order.bondId order)).1, Some TypeError)
    | Some p =>
        (<[Order.bondId order :=
             setOwnSide s
               (stableSort (ownFirst s) (ownSide s book ++ [newBookEntry order p rq]))
               book]> books, None)
    end.
Proof.
  intros s book. unfold addToOrderBook.
  destruct (getOrCreateOrderBook_spec books (Order.bondId order))
    as (books1 & Hget & Hins & _). rewrite Hget. fold book. simpl.
  destruct (Order.price order) as [p|]; [|done].
  subst s. destruct (Order.side order); simpl; by rewrite Hins.
Qed.

Lemma addToOrderBook_priceOrdered books order rq :
  booksPriceOrdered books -> booksPriceOrdered (addToOrderBook books order rq).1.
Proof.
  intros Hb. rewrite addToOrderBook_spec. destruct (Order.price order) as [p|]; simpl.
  - apply insert_booksPriceOrdered; [done|].
    pose proof (getOrderBook_priceOrdered books (Order.bondId order) Hb) as Hbook.
    apply (priceOrdered_sides (Order.side order)) in Hbook as [_ Hopp].
    apply (priceOrdered_sides (Order.side order)).
    rewrite ownSide_setOwnSide, oppositeSide_setOwnSide. split; [|done].
    apply ownByPrice_alt, stableSort_sorted; [apply ownFirst_total|apply ownFirst_trans].
  - by apply getOrCreateOrderBook_priceOrdered.
Qed.

Lemma addAllToOrderBook_priceOrdered orders books :
  booksPriceOrdered books -> booksPriceOrdered (addAllToOrderBook books orders).1.
Proof.
  revert books. induction orders as [|o rest IH]; simpl; intros books Hb; [done|].
  pose proof (addToOrderBook_priceOrdered books o None Hb) as Hadd.
  destruct (addToOrderBook books o None) as [books' [e|]]; simpl in *; [done|].
  by apply IH.
Qed.

Lemma walked_side_priceOrdered s book walked m1 order :
  priceOrdered book ->
  sideByPrice s walked ->
  walkInvariant order walked m1 ->
  priceOrdered (setOppositeSide s (untag (mBook m1)) book).
Proof.
  intros Hbook Hw Hinv. apply (priceOrdered_sides s) in Hbook as [Hown _].
  apply (priceOrdered_sides s).
  rewrite ownSide_setOppositeSide, oppositeSide_setOppositeSide. split; [done|].
  eapply sideByPrice_shrink; [apply (walk_book _ _ _ Hinv)|done].
Qed.

Lemma processOrder_priceOrdered faults eng order :
  booksPriceOrdered (orderBooks eng) ->
  booksPriceOrdered (orderBooks (engine (processOrder faults eng order))).
Proof.
  intros Hb. unfold processOrder. destruct (Order.orderType order); [| |done|done].
  - destruct (processMarketOrder_view faults eng order) as (m1 & Hinv & -> & _).
    apply insert_booksPriceOrdered; [done|].
    eapply walked_side_priceOrdered; [|apply sort_bestFirst_sorted|exact Hinv].
    by apply getOrderBook_priceOrdered.
  - pose proof (getOrderBook_priceOrdered _ (Order.bondId order) Hb) as Hbook.
    destruct (processLimitOrder_view faults eng order)
      as [(_ & _ & _ & ->)|(m1 & Hinv & Hout)].
    { simpl. by apply getOrCreateOrderBook_priceOrdered. }
    simpl in Hout.
    assert (Hb2 : booksPriceOrdered
      (<[Order.bondId order :=
           setOppositeSide (Order.side order) (untag (mBook m1))
             (getOrderBook eng (Order.bondId order))]> (orderBooks eng))).
    { apply insert_booksPriceOrdered; [done|].
      eapply walked_side_priceOrdered; [done| |exact Hinv].
      by apply (priceOrdered_sides (Order.side order)) in Hbook as [_ ?]. }
    pose proof (addToOrderBook_priceOrdered _ (limitStatus m1)
                  (Some (mRemaining m1)) Hb2) as Hb3.
    destruct (trades (processLimitOrder faults eng order)) as [ts|e].
    + destruct Hout as (_ & _ & [[_ ->]|[_ Hadd]]); [done|].
      by rewrite Hadd in Hb3.
    + destruct Hout as (_ & _ & [->|[_ ->]]); done.
Qed.

Lemma cancelOrder_priceOrdered eng orderId :
  booksPriceOrdered (orderBooks eng) ->
  booksPriceOrdered (orderBooks (cancelOrder eng orderId)).
Proof.
  intros Hb. unfold cancelOrder. destruct (findOne _ _) as [order|]; [|done].
  destruct (getOrCreateOrderBook_spec (orderBooks eng) (Order.bondId order))
    as (books1 & -> & Hins & _). simpl. rewrite Hins.
  apply insert_booksPriceOrdered; [done|].
  pose proof (getOrderBook_priceOrdered _ (Order.bondId order) Hb) as Hbook.
  apply (priceOrdered_sides (Order.side order)) in Hbook as [Hown Hopp].
  apply (priceOrdered_sides (Order.side order)).
  rewrite ownSide_setOwnSide, oppositeSide_setOwnSide. split; [|done].
  destruct (findIndex _ _) as [i|]; [|done].
  apply ownByPrice_alt. apply ownByPrice_alt in Hown.
  revert Hown. generalize (ownSide (Order.side order)
                             (default emptyBook (orderBooks eng !! Order.bondId order))).
  intros l. revert i. induction l as [|x l IH]; intros [|i]; simpl; try done.
  - by intros [_ ?]%StronglySorted_cons.
  - intros [Hx Hs]%StronglySorted_cons. apply StronglySorted_cons. split; [|by apply IH].
    eapply Forall_forall. intros y Hy. eapply Forall_forall in Hx; [exact Hx|].
    eapply elem_of_sublist; [exact Hy|apply sublist_delete].
Qed.

Lemma addToOrderBook_position books order rq p :
  Order.price order = Some p ->
  let s := Order.side order in
  let book := default emptyBook (books !! Order.bondId order) in
  ownByPrice s (ownSide s book) ->
  exists book',
    (addToOrderBook books order rq).1 !! Order.bondId order = Some book'
    /\ oppositeSide s book' = oppositeSide s book
    /\ ownSide s book' =
         inFrontOf s p (ownSide s book)
         ++ newBookEntry order p rq :: behind s p (ownSide s book).
Proof.
  intros Hp s book Hown. rewrite addToOrderBook_spec, Hp. fold s book. simpl.
  eexists. split; [apply lookup_insert_eq|].
  rewrite ownSide_setOwnSide, oppositeSide_setOwnSide. split; [done|].
  rewrite stableSort_push; [|apply ownFirst_trans|by apply ownByPrice_alt].
  unfold inFrontOf, behind. f_equal; [|f_equal]; apply filter_ext; intros y;
    destruct s; unfold ownFirst, byPriceDesc, byPriceAsc; simpl;
    repeat match goal with |- context [?a <=? ?b] => destruct (Z.leb_spec a b) end;
    simpl; (done || lia).
Qed.

(** C3, as stated, fails. A buy order created at time 3 that reaches the
    book after the order created at time 5 rests at the same price is
    placed behind it: the bids are no longer in timestamp order among equal
    prices. And an order that is processed while its entry rests gets a
    second entry with the same id. *)
Lemma book_order_ignores_timestamps_and_ids :
  priceTimeOrdered (getOrderBook oneBid "INE001")
  /\ trades (processOrder None oneBid buyEarly) = Ok []
  /\ bids (getOrderBook (engine (processOrder None oneBid buyEarly)) "INE001")
     = [resting buyLate 50; resting buyEarly 50]
  /\ ~ priceTimeOrdered (getOrderBook (engine (processOrder None oneBid buyEarly)) "INE001")
  /\ bids (getOrderBook (engine (processOrder None oneBid buyLate)) "INE001")
     = [resting buyLate 50; resting buyLate 50]
  /\ ~ priceTimeOrdered (getOrderBook (engine (processOrder None oneBid buyLate)) "INE001").
Proof.
  assert (H1 : bids (getOrderBook (engine (processOrder None oneBid buyEarly)) "INE001")
               = [resting buyLate 50; resting buyEarly 50]) by (vm_compute; reflexivity).
  assert (H2 : bids (getOrderBook (engine (processOrder None oneBid buyLate)) "INE001")
               = [resting buyLate 50; resting buyLate 50]) by (vm_compute; reflexivity).
  assert (H3 : asks (getOrderBook (engine (processOrder None oneBid buyLate)) "INE001")
               = []) by (vm_compute; reflexivity).
  split; [|split; [by vm_compute|split; [exact H1|split; [|split; [exact H2|]]]]].
  - change (getOrderBook oneBid "INE001") with (mkBook [resting buyLate 50] []).
    unfold priceTimeOrdered. simpl. repeat split; repeat constructor.
    apply not_elem_of_nil.
  - intros (Hbids & _). rewrite H1 in Hbids.
    apply StronglySorted_cons in Hbids as [Hfirst _].
    apply Forall_cons in Hfirst as [Hbefore _].
    unfold bidBefore in Hbefore. simpl in Hbefore. lia.
  - intros (_ & _ & Hids). rewrite H2, H3 in Hids. simpl in Hids.
    apply NoDup_cons in Hids as [Hnotin _]. apply Hnotin. left.
Qed.

Lemma TradingService_cancelOrder_books eng orderId userId :
  orderBooks (TradingService_cancelOrder eng orderId userId).1 = orderBooks eng
  \/ orderBooks (TradingService_cancelOrder eng orderId userId).1
     = orderBooks (cancelOrder eng orderId).
Proof.
  unfold TradingService_cancelOrder. destruct (getOrder _ _ _); [|by left].
  destruct (negb _); [by left|by right].
Qed.

Lemma initializeOrderBooks_priceOrdered eng :
  booksPriceOrdered (orderBooks eng) ->
  booksPriceOrdered (orderBooks (initializeOrderBooks eng).1).
Proof.
  intros Hb. unfold initializeOrderBooks.
  pose proof (addAllToOrderBook_priceOrdered
                (findActiveOrders (orderRepository eng)) _ Hb) as Hall.
  by destruct (addAllToOrderBook _ _).
Qed.

(** C3, amended. In every state an engine can be in, every bid list is
    ordered by descending price and every ask list by ascending price: each
    operation that changes an order book (processing an order, which
    matches and admits; admission by [addToOrderBook]; cancellation;
    recovery) keeps them so. An admitted entry is placed behind all resting
    entries of its side whose price is as good as its own and in front of
    the others, which keep their order: among equal prices the order is the
    order of admission. *)
Theorem book_stays_price_ordered :
  (forall eng, Reachable eng -> booksPriceOrdered (orderBooks eng))
  /\ (forall faults eng order orderId userId rq,
        booksPriceOrdered (orderBooks eng) ->
        booksPriceOrdered (orderBooks (engine (processOrder faults eng order)))
        /\ booksPriceOrdered (orderBooks (cancelOrder eng orderId))
        /\ booksPriceOrdered (orderBooks (TradingService_cancelOrder eng orderId userId).1)
        /\ booksPriceOrdered (orderBooks (initializeOrderBooks eng).1)
        /\ booksPriceOrdered (addToOrderBook (orderBooks eng) order rq).1)
  /\ (forall eng order rq p,
        booksPriceOrdered (orderBooks eng) ->
        Order.price order = Some p ->
        let s := Order.side order in
        let before := getOrderBook eng (Order.bondId order) in
        exists after,
          (addToOrderBook (orderBooks eng) order rq).1 !! Order.bondId order = Some after
          /\ oppositeSide s after = oppositeSide s before
          /\ ownSide s after
             = inFrontOf s p (ownSide s before)
               ++ newBookEntry order p rq :: behind s p (ownSide s before)).
Proof.
  split; [|split].
  - intros eng Hreach. induction Hreach as [orders ts| | | |]; simpl.
    + intros k b Hk. by rewrite lookup_empty in Hk.
    + done.
    + by apply initializeOrderBooks_priceOrdered.
    + by apply processOrder_priceOrdered.
    + by apply cancelOrder_priceOrdered.
  - intros faults eng order orderId userId rq Hb.
    split; [by apply processOrder_priceOrdered|].
    split; [by apply cancelOrder_priceOrdered|]. split.
    { destruct (TradingService_cancelOrder_books eng orderId userId) as [->| ->];
        [done|by apply cancelOrder_priceOrdered]. }
    split; [by apply initializeOrderBooks_priceOrdered|].
    by apply addToOrderBook_priceOrdered.
  - intros eng order rq p Hb Hp. apply addToOrderBook_position; [done|].
    pose proof (getOrderBook_priceOrdered _ (Order.bondId order) Hb) as Hbook.
    by apply (priceOrdered_sides (Order.side order)) in Hbook as [? _].
Qed.

Lemma oneBid_priceOrdered : booksPriceOrdered (orderBooks oneBid).
Proof.
  unfold oneBid. simpl. intros k b [_ <-]%lookup_singleton_Some.
  split; repeat constructor.
Qed.

Lemma book_stays_price_ordered_witness :
  booksPriceOrdered (orderBooks (engine (processOrder None oneBid buyEarly)))
  /\ bids (getOrderBook (engine (processOrder None oneBid buyEarly)) "INE001")
     = [resting buyLate 50; resting buyEarly 50].
Proof.
  split.
  - exact (proj1 (proj1 (proj2 book_stays_price_ordered)
                    None oneBid buyEarly "b1" "user-b1" None oneBid_priceOrdered)).
  - vm_compute. reflexivity.
Defined.

(** ** The remainder of a limit order *)

Lemma newBookEntry_limitStatus m p rq :
  newBookEntry (limitStatus m) p rq = newBookEntry (mOrder m) p rq.
Proof.
  unfold limitStatus. destruct (_ <=? 0); [done|]. by destruct (_ >? 0).
Qed.

Lemma limitStatus_fields m :
  Order.side (limitStatus m) = Order.side (mOrder m)
  /\ Order.bondId (limitStatus m) = Order.bondId (mOrder m)
  /\ Order.price (limitStatus m) = Order.price (mOrder m).
Proof.
  unfold limitStatus. destruct (_ <=? 0); [done|]. by destruct (_ >? 0).
Qed.

Lemma newBookEntry_remainder order0 order p r :
  sameButFilled order order0 -> r <> 0 ->
  newBookEntry order p (Some r)
  = OrderBookEntry.mk (Order.id order0) p (Order.quantity order0) r
      (Order.createdAt order0).
Proof.
  intros (Hid & _ & _ & _ & _ & Hq & Hc & _)%sameButFilled_fields Hr.
  unfold newBookEntry. rewrite Hid, Hq, Hc. by destruct (Z.eqb_spec r 0).
Qed.

(** The book of the instrument after a limit order was processed and the
    call returned: the opposite side as the walk left it, and on the
    order's side the remainder pushed and sorted in, when there is one. *)
Lemma processLimitOrder_returns faults eng order ts :
  let s := Order.side order in
  let book := getOrderBook eng (Order.bondId order) in
  let out := processLimitOrder faults eng order in
  trades out = Ok ts ->
  exists m1,
    walkInvariant order (oppositeSide s book) m1
    /\ ts = mTrades m1
    /\ updatedOrder out = withAveragePrice ts (limitStatus m1)
    /\ let walkedBook := setOppositeSide s (untag (mBook m1)) book in
       (mRemaining m1 <= 0 /\ getOrderBook (engine out) (Order.bondId order) = walkedBook)
       \/ (0 < mRemaining m1
           /\ exists p,
               Order.price order = Some p
               /\ getOrderBook (engine out) (Order.bondId order)
                  = setOwnSide s
                      (stableSort (ownFirst s)
                         (ownSide s book
                          ++ [OrderBookEntry.mk (Order.id order) p (Order.quantity order)
                                (mRemaining m1) (Order.createdAt order)]))
                      walkedBook).
Proof.
  intros s book out Hts. subst out.
  destruct (processLimitOrder_view faults eng order)
    as [(_ & Hthrow & _)|(m1 & Hinv & Hout)]; [by rewrite Hthrow in Hts|].
  simpl in Hout. rewrite Hts in Hout. destruct Hout as (-> & Hupd & Hbooks).
  exists m1. split; [done|]. split; [done|]. split; [done|]. simpl.
  unfold getOrderBook.
  destruct Hbooks as [[Hle ->]|[Hgt Hadd]].
  - left. split; [done|]. by rewrite lookup_insert_eq.
  - right. split; [done|]. rewrite addToOrderBook_spec in Hadd.
    destruct (limitStatus_fields m1) as (Hside & Hbond & Hprice).
    destruct (sameButFilled_fields _ _ (walk_order _ _ _ Hinv))
      as (_ & Hside' & Hbond' & _ & Hprice' & _).
    rewrite Hside, Hbond, Hprice, Hside', Hbond', Hprice' in Hadd.
    destruct (Order.price order) as [p|]; [|done]. exists p. split; [done|].
    injection Hadd as <-. rewrite lookup_insert_eq. simpl.
    rewrite lookup_insert_eq. simpl. fold s book.
    rewrite ownSide_setOppositeSide, newBookEntry_limitStatus.
    rewrite (newBookEntry_remainder order); [done|apply (walk_order _ _ _ Hinv)|lia].
Qed.

(** C6. The engine rests the remainder of every limit order, whatever its
    time-in-force: [processLimitOrder] calls [addToOrderBook] for what
    remains and never reads [timeInForce]. A LIMIT order with
    time-in-force IOC, and one with FOK, that match nothing are admitted
    to the book with their whole quantity, like a GTC order; and of an
    immediate-or-cancel buy of 100 at 100 that buys the 60 offered at that
    price, the remaining 40 are not discarded: they rest as a bid. *)
Lemma ioc_and_fok_orders_rest :
  let ioc := newOrder "b7" LIMIT BUY 10 (Some 50) IOC 7 in
  let fok := newOrder "b8" LIMIT BUY 10 (Some 50) FOK 8 in
  let iocPart := newOrder "b1" LIMIT BUY 100 (Some 100) IOC 3 in
  trades (processOrder None freshEngine ioc) = Ok []
  /\ bids (getOrderBook (engine (processOrder None freshEngine ioc)) "INE001")
     = [resting ioc 50]
  /\ trades (processOrder None freshEngine fok) = Ok []
  /\ bids (getOrderBook (engine (processOrder None freshEngine fok)) "INE001")
     = [resting fok 50]
  /\ trades (processOrder None twoAsks iocPart)
     = Ok [Trade.mk "INE001" "b1" "s1" "user-b1" "user-s1" 60 100 6000]
  /\ Order.status (updatedOrder (processOrder None twoAsks iocPart)) = PARTIALLY_FILLED
  /\ bids (getOrderBook (engine (processOrder None twoAsks iocPart)) "INE001")
     = [OrderBookEntry.mk "b1" 100 100 40 3].
Proof. vm_compute. repeat split. Qed.

(** These orders are no exception. On whole numbers that doubles hold
    exactly, for every LIMIT order, whatever its time-in-force (GTC, IOC or FOK alike), whose
    processing returns with an unmatched remainder, that remainder is
    admitted to the order's side of the book as one entry with the order's
    id, its own limit price, its quantity, the remainder as remaining
    quantity and its creation timestamp, next to the entries that rested
    there; when nothing remains, the order's side is as it was. *)
Theorem limit_remainder_rests faults eng order ts :
  Order.orderType order = LIMIT ->
  exactWalk order
    (oppositeSide (Order.side order) (getOrderBook eng (Order.bondId order))) ->
  trades (processOrder faults eng order) = Ok ts ->
  let s := Order.side order in
  let r := Order.quantity order - sumZ (Trade.quantity <$> ts) in
  let before := ownSide s (getOrderBook eng (Order.bondId order)) in
  let after :=
    ownSide s (getOrderBook (engine (processOrder faults eng order)) (Order.bondId order)) in
  (0 < r ->
   exists p,
     Order.price order = Some p
     /\ after ≡ₚ OrderBookEntry.mk (Order.id order) p (Order.quantity order) r
                   (Order.createdAt order) :: before)
  /\ (r <= 0 -> after = before).
Proof.
  intros Hty _ Hts s r before after. subst after.
  unfold processOrder in *. rewrite Hty in *.
  destruct (processLimitOrder_returns faults eng order ts Hts)
    as (m1 & Hinv & -> & _ & Hbook).
  assert (Hr : r = mRemaining m1).
  { subst r. pose proof (walk_conserves _ _ _ Hinv). lia. }
  simpl in Hbook. fold s in Hbook.
  destruct Hbook as [[Hle ->]|(Hgt & p & Hp & ->)].
  - split; [lia|]. intros _. by rewrite ownSide_setOppositeSide.
  - split; [|lia]. intros _. exists p. split; [done|].
    rewrite ownSide_setOwnSide, stableSort_Permutation, Hr.
    by rewrite Permutation_app_comm.
Qed.

Lemma limit_remainder_rests_witness :
  let order := newOrder "b1" LIMIT BUY 100 (Some 100) IOC 3 in
  exists p,
    Order.price order = Some p
    /\ ownSide BUY (getOrderBook (engine (processOrder None twoAsks order)) "INE001")
       ≡ₚ OrderBookEntry.mk "b1" p 100 40 3 :: ownSide BUY (getOrderBook twoAsks "INE001").
Proof.
  intros order.
  refine (proj1 (limit_remainder_rests None twoAsks order
            [Trade.mk "INE001" "b1" "s1" "user-b1" "user-s1" 60 100 6000] _ _ _) _).
  - reflexivity.
  - exact_walk [resting sellA 100; resting sellB 101].
  - vm_compute. reflexivity.
  - vm_compute. reflexivity.
Defined.

(** ** Calls return *)

Lemma matchEntry_on_reliable rows tag e m :
  txWrites (mTx m) = None ->
  exists m', matchEntry rows tag e m = (m', None) /\ txWrites (mTx m') = None.
Proof.
  unfold matchEntry, managerSaveTrade, managerSaveOrder, txWrite.
  destruct m as [book order rem ts [orders tds writes]]. simpl. intros ->. simpl.
  destruct (findOne _ _) as [opp|]; simpl; eexists; (split; reflexivity).
Qed.

Lemma marketLoop_on_reliable rows fuel i m :
  txWrites (mTx m) = None ->
  (marketLoop fuel i rows m).2 = None
  /\ txWrites (mTx (marketLoop fuel i rows m).1) = None.
Proof.
  revert i m. induction fuel as [|fuel IH]; simpl; intros i m Hm; [done|].
  destruct (mBook m !! i) as [[tag e]|]; [|done].
  destruct (mRemaining m <=? 0); [done|].
  destruct (matchEntry_on_reliable rows tag e m Hm) as (m' & -> & Hm'). by apply IH.
Qed.

Lemma limitLoop_on_reliable rows ml m :
  txWrites (mTx m) = None ->
  (limitLoop ml rows m).2 = None /\ txWrites (mTx (limitLoop ml rows m).1) = None.
Proof.
  revert m. induction ml as [|[tag e] rest IH]; simpl; intros m Hm; [done|].
  destruct (mRemaining m <=? 0); [done|].
  destruct (matchEntry_on_reliable rows tag e m Hm) as (m' & -> & Hm'). by apply IH.
Qed.

(** On a store that never fails, every order is processed to the end: the
    call returns its trades, unless it is a limit order without a price. *)
Lemma processOrder_returns eng order :
  (Order.orderType order = LIMIT -> Order.price order <> None) ->
  exists ts, trades (processOrder None eng order) = Ok ts.
Proof.
  intros Hprice. unfold processOrder.
  destruct (Order.orderType order); [| |by eexists|by eexists].
  - unfold processMarketOrder.
    destruct (getOrCreateOrderBook _ _) as [books1 orderBook].
    match goal with
    | |- context [marketLoop ?f ?i ?r ?m] =>
        destruct (marketLoop_on_reliable r f i m eq_refl) as [Hnone Hwrites];
        destruct (marketLoop f i r m) as [m1 thrown]
    end.
    simpl in Hnone, Hwrites. subst thrown.
    unfold managerSaveOrder, txWrite. rewrite Hwrites. by eexists.
  - specialize (Hprice eq_refl).
    destruct (Order.price order) as [p|] eqn:Hp; [|done].
    destruct (processLimitOrder_view None eng order)
      as [(Hnone & _)|(m1 & Hinv & Hout)]; [congruence|].
    simpl in Hout.
    destruct (trades (processLimitOrder None eng order)) as [ts|e] eqn:Ets;
      [by eexists|exfalso].
    revert Ets. unfold processLimitOrder.
    destruct (getOrCreateOrderBook _ _) as [books1 orderBook]. rewrite Hp.
    destruct (matchableOrders _ _ _) as [ml|e0] eqn:Eml.
    2:{ by apply matchableOrders_throws in Eml as [? _]. }
    unfold limitTransaction.
    match goal with
    | |- context [limitLoop ?l ?r ?m] =>
        destruct (limitLoop_on_reliable r l m eq_refl) as [Hnone Hwrites];
        pose proof (limitLoop_walkInvariant r order
                      (oppositeSide (Order.side order) orderBook) l m) as Hwalk;
        destruct (limitLoop l r m) as [m2 thrown] eqn:Eloop
    end.
    simpl in Hnone, Hwrites. subst thrown. simpl.
    assert (Hp2 : Order.price (limitStatus m2) = Some p).
    { destruct (limitStatus_fields m2) as (_ & _ & ->).
      specialize (Hwalk m2 None).
      assert (Hinv2 : walkInvariant order
                        (oppositeSide (Order.side order) orderBook) m2).
      { apply Hwalk; [|apply walkInvariant_start|done].
        intros tag e1. by eapply matchableOrders_from_book. }
      destruct (sameButFilled_fields _ _ (walk_order _ _ _ Hinv2))
        as (_ & _ & _ & _ & -> & _). done. }
    destruct (mRemaining m2 <=? 0).
    + unfold managerSaveOrder, txWrite. by rewrite Hwrites.
    + rewrite addToOrderBook_spec, Hp2. simpl.
      unfold managerSaveOrder, txWrite. by rewrite Hwrites.
Qed.

(** ** Time-in-force *)

Lemma matchEntry_timeInForce rows tif tag e m :
  matchEntry rows tag e (withTimeInForce tif m)
  = ((withTimeInForce tif (matchEntry rows tag e m).1), (matchEntry rows tag e m).2).
Proof.
  unfold matchEntry, withTimeInForce. simpl.
  change (createTrade rows (Order.set_timeInForce tif (mOrder m)) e)
    with (createTrade rows (mOrder m) e).
  destruct (managerSaveTrade _ _) as [tx1|e1]; [|done].
  destruct (findOne _ _) as [opp|]; [|done].
  by destruct (managerSaveOrder _ _).
Qed.

Lemma limitLoop_timeInForce rows tif ml m :
  limitLoop ml rows (withTimeInForce tif m)
  = ((withTimeInForce tif (limitLoop ml rows m).1), (limitLoop ml rows m).2).
Proof.
  revert m. induction ml as [|[tag e] rest IH]; simpl; intros m; [done|].
  destruct (mRemaining m <=? 0); [done|].
  rewrite matchEntry_timeInForce.
  destruct (matchEntry rows tag e m) as [m1 [e1|]]; simpl; [done|]. apply IH.
Qed.

Lemma limitStatus_timeInForce tif m :
  limitStatus (withTimeInForce tif m) = Order.set_timeInForce tif (limitStatus m).
Proof.
  unfold limitStatus, withTimeInForce. simpl.
  destruct (_ <=? 0); [done|]. by destruct (_ >? 0).
Qed.

Lemma addToOrderBook_timeInForce books tif o rq :
  addToOrderBook books (Order.set_timeInForce tif o) rq = addToOrderBook books o rq.
Proof. done. Qed.

Lemma withAveragePrice_timeInForce tif ts o :
  withAveragePrice ts (Order.set_timeInForce tif o)
  = Order.set_timeInForce tif (withAveragePrice ts o).
Proof. by destruct ts. Qed.

(** [processLimitOrder] never reads the time-in-force of the order: with
    another one, the books, the trades returned and the trade store come out
    the same, and the order comes back the same but for that field. *)
Lemma processLimitOrder_timeInForce faults eng order tif :
  let out := processLimitOrder faults eng order in
  let out' := processLimitOrder faults eng (Order.set_timeInForce tif order) in
  orderBooks (engine out') = orderBooks (engine out)
  /\ tradeRepository (engine out') = tradeRepository (engine out)
  /\ trades out' = trades out
  /\ updatedOrder out' = Order.set_timeInForce tif (updatedOrder out).
Proof.
  simpl. unfold processLimitOrder.
  change (Order.bondId (Order.set_timeInForce tif order)) with (Order.bondId order).
  change (Order.side (Order.set_timeInForce tif order)) with (Order.side order).
  change (Order.price (Order.set_timeInForce tif order)) with (Order.price order).
  destruct (getOrCreateOrderBook _ _) as [books1 orderBook].
  destruct (matchableOrders _ _ _) as [ml|e]; [|done].
  unfold limitTransaction.
  change (Order.bondId (Order.set_timeInForce tif order)) with (Order.bondId order).
  change (Order.side (Order.set_timeInForce tif order)) with (Order.side order).
  change (Order.quantity (Order.set_timeInForce tif order)) with (Order.quantity order).
  match goal with
  | |- context [limitLoop ml ?rows (mkMatching ?b (Order.set_timeInForce tif order) ?q ?t ?x)] =>
      change (mkMatching b (Order.set_timeInForce tif order) q t x)
        with (withTimeInForce tif (mkMatching b order q t x));
      rewrite limitLoop_timeInForce;
      destruct (limitLoop ml rows (mkMatching b order q t x)) as [m1 thrown]
  end.
  simpl. destruct thrown as [e|]; [done|].
  rewrite limitStatus_timeInForce, addToOrderBook_timeInForce.
  destruct (if mRemaining m1 <=? 0 then _ else _) as [books3 [e|]]; [done|].
  rewrite withAveragePrice_timeInForce.
  unfold managerSaveOrder, txWrite.
  by destruct (txWrites (mTx m1)) as [[|n]|].
Qed.

(** ** A limit order that cannot be filled *)

Lemma sumZ_Permutation l1 l2 : l1 ≡ₚ l2 -> sumZ l1 = sumZ l2.
Proof.
  unfold sumZ. induction 1; simpl; lia.
Qed.

Lemma sumZ_nonneg l : Forall (fun x => 0 <= x) l -> 0 <= sumZ l.
Proof. unfold sumZ. induction 1; simpl; lia. Qed.

Lemma untag_filter_tagged (f : OrderBookEntry.t -> bool) l n :
  untag (List.filter (fun te : Tagged => f te.2) (zip (seq n (length l)) l))
  = List.filter f l.
Proof.
  revert n. induction l as [|x l IH]; simpl; intros n; [done|].
  destruct (f x); simpl; by rewrite (IH (S n)).
Qed.

Lemma matchableOrders_crossing s p l ml :
  matchableOrders s (Some p) (tagEntries l) = Ok ml ->
  untag ml ≡ₚ List.filter (crosses s p) l.
Proof.
  unfold matchableOrders. destruct l as [|x l'].
  - by intros [= <-].
  - intros [= <-]. unfold untag. rewrite stableSort_Permutation.
    by rewrite <- (untag_filter_tagged (crosses s p) (x :: l') 0).
Qed.

(** When less rests at crossing prices than the order asks for, the walk
    takes every crossing entry whole. *)
Lemma limitLoop_takes_all rows ml m m' :
  Forall (fun te : Tagged => 0 <= OrderBookEntry.remainingQuantity te.2) ml ->
  sumZ (OrderBookEntry.remainingQuantity <$> untag ml) < mRemaining m ->
  limitLoop ml rows m = (m', None) ->
  sumZ (Trade.quantity <$> mTrades m')
  = sumZ (Trade.quantity <$> mTrades m)
    + sumZ (OrderBookEntry.remainingQuantity <$> untag ml).
Proof.
  revert m. induction ml as [|[tag e] rest IH]; simpl; intros m Hpos Hlt Hloop.
  - simplify_eq. unfold sumZ. simpl. lia.
  - apply Forall_cons in Hpos as [He Hrest]. simpl in He.
    change (list_fmap OrderBookEntry.t Z OrderBookEntry.remainingQuantity (untag rest))
      with (OrderBookEntry.remainingQuantity <$> untag rest) in *.
    assert (0 <= sumZ (OrderBookEntry.remainingQuantity <$> untag rest)).
    { apply sumZ_nonneg, Forall_fmap, Forall_fmap.
      eapply Forall_impl; [exact Hrest|]. by intros [n x]. }
    destruct (Z.leb_spec (mRemaining m) 0); [lia|].
    destruct (matchEntry rows tag e m) as [m1 [e1|]] eqn:Em; [done|].
    apply matchEntry_spec in Em as [[_ ?]|(Htr & Hrem & _)]; [done|].
    rewrite Z.min_r in Htr, Hrem by lia.
    rewrite (IH m1 Hrest); [|lia|done].
    rewrite Htr, fmap_app, sumZ_app. simpl. lia.
Qed.

(** A limit order whose call returns went through the loop on its
    matchable entries without a throw. *)
Lemma processLimitOrder_walk faults eng order ts :
  let s := Order.side order in
  let book := getOrderBook eng (Order.bondId order) in
  trades (processLimitOrder faults eng order) = Ok ts ->
  exists ml m1,
    matchableOrders s (Order.price order) (tagEntries (oppositeSide s book)) = Ok ml
    /\ limitLoop ml (orderRepository eng)
         (mkMatching (tagEntries (oppositeSide s book)) order (Order.quantity order) []
            (mkTx (orderRepository eng) (tradeRepository eng) faults)) = (m1, None)
    /\ ts = mTrades m1
    /\ updatedOrder (processLimitOrder faults eng order)
       = withAveragePrice ts (limitStatus m1).
Proof.
  intros s book. unfold processLimitOrder.
  destruct (getOrCreateOrderBook_spec (orderBooks eng) (Order.bondId order))
    as (books1 & -> & _). fold book s.
  destruct (matchableOrders _ _ _) as [ml|e]; [|done].
  unfold limitTransaction. fold s.
  destruct (limitLoop _ _ _) as [m1 [e|]] eqn:Eloop; [done|]. simpl.
  destruct (if mRemaining m1 <=? 0 then _ else _) as [books3 [e|]]; [done|].
  destruct (managerSaveOrder _ _); [|done]. simpl. intros [= <-].
  by exists ml, m1.
Qed.

(** C1. The engine does not do what the claim asks of a fill-or-kill
    order: [processLimitOrder] never reads [timeInForce]. In scenario D
    (asks of 60 in all at price 10, a fill-or-kill limit buy of 100 at 10)
    the order is not rejected: one trade of 60 at 10 is executed, the order
    ends PARTIALLY_FILLED, the ask leaves the book and the remaining 40
    rest as a bid. *)
Lemma fok_order_is_matched_and_rests :
  crossingQuantity BUY 10 (getOrderBook oneAsk "INE001") = 60
  /\ Order.quantity fokBuy = 100
  /\ trades (processOrder None oneAsk fokBuy)
     = Ok [Trade.mk "INE001" "b9" "s9" "user-b9" "user-s9" 60 10 600]
  /\ Order.status (updatedOrder (processOrder None oneAsk fokBuy)) = PARTIALLY_FILLED
  /\ getOrderBook oneAsk "INE001" = mkBook [] [resting sellD 10]
  /\ getOrderBook (engine (processOrder None oneAsk fokBuy)) "INE001"
     = mkBook [OrderBookEntry.mk "b9" 10 100 40 2] [].
Proof. vm_compute. repeat split. Qed.

Lemma set_timeInForce_same order tif :
  Order.timeInForce order = tif ->
  forall tif', Order.set_timeInForce tif (Order.set_timeInForce tif' order) = order.
Proof. destruct order. simpl. by intros ->. Qed.

(** Scenario D is no exception. On whole numbers that doubles hold
    exactly, for every incoming LIMIT order with time-in-force FOK and a
    price, whose quantity exceeds what rests at crossing prices on the
    opposite side, a call that returns has not rejected
    the order: it has executed trades for the whole crossing quantity, the
    order is PARTIALLY_FILLED when anything is filled and keeps its status
    otherwise, the remainder rests on the order's side of the book, and
    books and trades are those the same order gets with time-in-force
    GTC. *)
Theorem unfillable_fok_order_is_matched_and_rests faults eng order p ts :
  Order.orderType order = LIMIT ->
  Order.timeInForce order = FOK ->
  Order.price order = Some p ->
  exactWalk order
    (oppositeSide (Order.side order) (getOrderBook eng (Order.bondId order))) ->
  crossingQuantity (Order.side order) p (getOrderBook eng (Order.bondId order))
    < Order.quantity order ->
  trades (processOrder faults eng order) = Ok ts ->
  let s := Order.side order in
  let available := crossingQuantity s p (getOrderBook eng (Order.bondId order)) in
  let out := processOrder faults eng order in
  let gtc := processOrder faults eng (Order.set_timeInForce GTC order) in
  sumZ (Trade.quantity <$> ts) = available
  /\ Order.status (updatedOrder out)
     = (if Order.filledQuantity order + available >? 0
        then PARTIALLY_FILLED else Order.status order)
  /\ ownSide s (getOrderBook (engine out) (Order.bondId order))
     ≡ₚ OrderBookEntry.mk (Order.id order) p (Order.quantity order)
          (Order.quantity order - available) (Order.createdAt order)
        :: ownSide s (getOrderBook eng (Order.bondId order))
  /\ orderBooks (engine gtc) = orderBooks (engine out)
  /\ trades gtc = trades out
  /\ updatedOrder out = Order.set_timeInForce FOK (updatedOrder gtc).
Proof.
  intros Hty Htif Hp (_ & _ & _ & _ & Hside) Hlt Hts s available out gtc.
  subst out gtc.
  assert (Hpos : Forall (fun e => 0 <= OrderBookEntry.remainingQuantity e)
                   (oppositeSide (Order.side order)
                      (getOrderBook eng (Order.bondId order)))).
  { eapply Forall_impl; [exact Hside|]. by intros e (? & _). }
  unfold processOrder in *.
  change (Order.orderType (Order.set_timeInForce GTC order)) with (Order.orderType order).
  rewrite Hty in *.
  destruct (processLimitOrder_walk faults eng order ts Hts)
    as (ml & m1 & Hml & Hloop & -> & Hupd).
  fold s in Hml, Hloop, Hpos. fold s available in Hlt. rewrite Hp in Hml.
  assert (Hsum : sumZ (OrderBookEntry.remainingQuantity <$> untag ml) = available).
  { apply sumZ_Permutation, fmap_Permutation. by eapply matchableOrders_crossing. }
  assert (Hinv : walkInvariant order
                   (oppositeSide s (getOrderBook eng (Order.bondId order))) m1).
  { eapply limitLoop_walkInvariant; [|apply walkInvariant_start|exact Hloop].
    intros tag e. by eapply matchableOrders_from_book. }
  assert (Htaken : sumZ (Trade.quantity <$> mTrades m1) = available).
  { assert (Hall : Forall (fun te : Tagged => 0 <= OrderBookEntry.remainingQuantity te.2) ml).
    { apply Forall_forall. intros [tag e] Hin. simpl.
      eapply Forall_forall in Hpos; [exact Hpos|].
      by eapply matchableOrders_from_book. }
    rewrite <- Hsum in Hlt.
    pose proof (fun H => limitLoop_takes_all _ _ _ _ Hall H Hloop) as Htaken.
    simpl in Htaken. rewrite (Htaken Hlt), Hsum. lia. }
  split; [done|]. split.
  { rewrite Hupd, withAveragePrice_status. unfold limitStatus.
    pose proof (walk_conserves _ _ _ Hinv) as Hc. rewrite Htaken in Hc.
    rewrite (walk_filled _ _ _ Hinv), Htaken.
    destruct (Z.leb_spec (mRemaining m1) 0); [lia|].
    destruct (_ >? 0); [done|].
    by destruct (sameButFilled_fields _ _ (walk_order _ _ _ Hinv))
      as (_ & _ & _ & -> & _). }
  split.
  { destruct (processLimitOrder_returns faults eng order _ Hts)
      as (m2 & Hinv2 & Hts2 & _ & Hbook).
    pose proof (walk_conserves _ _ _ Hinv2) as Hc. rewrite <- Hts2, Htaken in Hc.
    simpl in Hbook. destruct Hbook as [[Hle _]|(_ & p' & Hp' & ->)]; [lia|].
    rewrite Hp in Hp'. injection Hp' as <-.
    rewrite ownSide_setOwnSide, stableSort_Permutation.
    rewrite Permutation_app_comm. simpl. fold s. fold available in Hc.
    by replace (mRemaining m2) with (Order.quantity order - available) by lia. }
  pose proof (processLimitOrder_timeInForce faults eng
                (Order.set_timeInForce GTC order) FOK) as Htwin.
  simpl in Htwin. rewrite (set_timeInForce_same order FOK Htif GTC) in Htwin.
  destruct Htwin as (Hb & _ & Ht & Hu). by rewrite Hb, Ht, Hu.
Qed.

Lemma unfillable_fok_order_is_matched_and_rests_witness :
  sumZ (Trade.quantity
          <$> [Trade.mk "INE001" "b9" "s9" "user-b9" "user-s9" 60 10 600]) = 60
  /\ Order.status (updatedOrder (processOrder None oneAsk fokBuy)) = PARTIALLY_FILLED.
Proof.
  assert (Hexact : exactWalk fokBuy
                     (oppositeSide (Order.side fokBuy)
                        (getOrderBook oneAsk (Order.bondId fokBuy)))).
  { exact_walk [resting sellD 10]. }
  assert (Hlt : crossingQuantity (Order.side fokBuy) 10
                  (getOrderBook oneAsk (Order.bondId fokBuy)) < Order.quantity fokBuy).
  { vm_compute. reflexivity. }
  assert (Hts : trades (processOrder None oneAsk fokBuy)
                = Ok [Trade.mk "INE001" "b9" "s9" "user-b9" "user-s9" 60 10 600]).
  { vm_compute. reflexivity. }
  destruct (unfillable_fok_order_is_matched_and_rests None oneAsk fokBuy 10 _
              eq_refl eq_refl eq_refl Hexact Hlt Hts) as (Hsum & Hstatus & _).
  split; [exact Hsum|exact Hstatus].
Defined.

(** ** Recovery *)

(** C7. On the store left by a limit buy of 100 that bought 60 and rests
    with 40 (status PARTIALLY_FILLED), recovery finds no active order:
    the bid that was in the book before the restart is not in the book
    after it. The query of [initializeOrderBooks] asks for status PENDING
    only. *)
Lemma recovery_drops_partially_filled_order :
  bids (getOrderBook afterPartialFill "INE001") = [OrderBookEntry.mk "b9" 10 100 40 2]
  /\ (Order.status <$> findOne "b9" (orderRepository afterPartialFill))
     = Some PARTIALLY_FILLED
  /\ findActiveOrders (orderRepository afterPartialFill) = []
  /\ initializeOrderBooks
       (mkEngine ∅ (orderRepository afterPartialFill) (tradeRepository afterPartialFill))
     = (mkEngine ∅ (orderRepository afterPartialFill) (tradeRepository afterPartialFill),
        None)
  /\ bids (getOrderBook (restart afterPartialFill) "INE001") = [].
Proof. vm_compute. repeat split. Qed.

Lemma initializeOrderBooks_stores eng :
  orderRepository (initializeOrderBooks eng).1 = orderRepository eng
  /\ tradeRepository (initializeOrderBooks eng).1 = tradeRepository eng.
Proof. unfold initializeOrderBooks. by destruct (addAllToOrderBook _ _). Qed.

Lemma filter_Permutation_bool {A} (f : A -> bool) (l1 l2 : list A) :
  l1 ≡ₚ l2 -> List.filter f l1 ≡ₚ List.filter f l2.
Proof.
  induction 1 as [|x l1 l2 _ IH|x y l|l1 l2 l3 _ IH1 _ IH2]; simpl.
  - done.
  - destruct (f x); by rewrite IH.
  - destruct (f x), (f y); (done || apply Permutation_swap).
  - by etrans.
Qed.

Lemma byCreatedAt_total a b : 0 < byCreatedAt a b -> byCreatedAt b a <= 0.
Proof. unfold byCreatedAt. lia. Qed.

Lemma byCreatedAt_trans a b c :
  byCreatedAt a b <= 0 -> byCreatedAt b c <= 0 -> byCreatedAt a c <= 0.
Proof. unfold byCreatedAt. lia. Qed.

(** The active orders found do not depend on the order of the rows, as long
    as no two pending orders were created at the same instant. *)
Lemma findActiveOrders_Permutation rows1 rows2 :
  rows1 ≡ₚ rows2 ->
  (forall a b, a ∈ rows1 -> b ∈ rows1 ->
               Order.status a = PENDING -> Order.status b = PENDING ->
               Order.createdAt a = Order.createdAt b -> a = b) ->
  findActiveOrders rows1 = findActiveOrders rows2.
Proof.
  intros Hperm Hdistinct. unfold findActiveOrders.
  apply (StronglySorted_unique_strong (notAfter byCreatedAt)).
  - intros a b Ha Hb Hab Hba. unfold notAfter, byCreatedAt in Hab, Hba.
    apply stableSort_elem_of, list_elem_of_In, filter_In in Ha as [Ha Hsa].
    apply stableSort_elem_of, list_elem_of_In, filter_In in Hb as [Hb Hsb].
    apply list_elem_of_In in Ha, Hb. rewrite <- Hperm in Hb.
    apply Hdistinct; try done; try lia.
    + by destruct (Order.status a).
    + by destruct (Order.status b).
  - apply stableSort_sorted; [apply byCreatedAt_total|apply byCreatedAt_trans].
  - apply stableSort_sorted; [apply byCreatedAt_total|apply byCreatedAt_trans].
  - rewrite !stableSort_Permutation. by apply filter_Permutation_bool.
Qed.

(** C8. Recovery is idempotent. The recovery procedure is the construction
    of an engine on the stores ([initializeOrderBooks] is private and is
    called by the constructor only, on the empty map of books). For a
    fixed store of persisted orders, recovery run any number of times, one
    or more, gives the order books, identically ordered, that running it
    once gives; the engine that comes up is the same whatever engine went
    down on those stores; and its books do not depend on the order in
    which the table holds the rows, as long as no two pending orders have
    the same creation timestamp. *)
Theorem recovery_is_repeatable :
  (forall n eng, Nat.iter (S n) restart eng = restart eng)
  /\ (forall eng eng',
        orderRepository eng = orderRepository eng' ->
        tradeRepository eng = tradeRepository eng' ->
        restart eng = restart eng')
  /\ (forall rows1 rows2 ts,
        rows1 ≡ₚ rows2 ->
        (forall a b, a ∈ rows1 -> b ∈ rows1 ->
                     Order.status a = PENDING -> Order.status b = PENDING ->
                     Order.createdAt a = Order.createdAt b -> a = b) ->
        orderBooks (startEngine rows1 ts).1 = orderBooks (startEngine rows2 ts).1).
Proof.
  assert (Hsame : forall eng eng',
             orderRepository eng = orderRepository eng' ->
             tradeRepository eng = tradeRepository eng' ->
             restart eng = restart eng').
  { intros eng eng' Ho Ht. unfold restart. by rewrite Ho, Ht. }
  split; [|split; [exact Hsame|]].
  - intros n eng. induction n as [|n IH]; [done|].
    change (Nat.iter (S (S n)) restart eng) with (restart (Nat.iter (S n) restart eng)).
    rewrite IH. apply Hsame; unfold restart, startEngine;
      by destruct (initializeOrderBooks_stores
                     (mkEngine ∅ (orderRepository eng) (tradeRepository eng))).
  - intros rows1 rows2 ts Hperm Hdistinct. unfold startEngine, initializeOrderBooks.
    simpl. rewrite (findActiveOrders_Permutation rows1 rows2 Hperm Hdistinct).
    by destruct (addAllToOrderBook _ _).
Qed.

Lemma recovery_is_repeatable_witness :
  Nat.iter 3 restart (mkEngine ∅ [buyLate] []) = restart (mkEngine ∅ [buyLate] [])
  /\ bids (getOrderBook (restart (mkEngine ∅ [buyLate] [])) "INE001")
     = [resting buyLate 50].
Proof.
  split.
  - exact (proj1 recovery_is_repeatable 2%nat (mkEngine ∅ [buyLate] [])).
  - vm_compute. reflexivity.
Defined.

(** ** Cancellation *)

(** C9, as stated, fails for the other non-terminal state: the bid that
    rests with 40 after a partial fill belongs to an order whose status is
    PARTIALLY_FILLED, and [TradingService.cancelOrder] refuses it. The entry
    stays in the book and the next crossing sell trades against it. *)
Lemma partially_filled_order_cannot_be_cancelled :
  (Order.status <$> findOne "b9" (orderRepository afterPartialFill))
    = Some PARTIALLY_FILLED
  /\ bids (getOrderBook afterPartialFill "INE001") = [OrderBookEntry.mk "b9" 10 100 40 2]
  /\ TradingService_cancelOrder afterPartialFill "b9" "user-b9"
     = (afterPartialFill, Throw BadRequestException)
  /\ trades (TradingService_createOrder None
               (TradingService_cancelOrder afterPartialFill "b9" "user-b9").1 sellLater)
     = Ok [Trade.mk "INE001" "b9" "s10" "user-b9" "user-s10" 40 10 400].
Proof. vm_compute. repeat split. Qed.

Lemma findOne_id orderId rows o :
  findOne orderId rows = Some o -> Order.id o = orderId.
Proof.
  unfold findOne. intros [_ H]%find_some. by apply String.eqb_eq in H.
Qed.

Lemma findOne_saveOrder o rows : findOne (Order.id o) (saveOrder o rows) = Some o.
Proof.
  unfold findOne. induction rows as [|r rows IH]; simpl.
  - by rewrite String.eqb_refl.
  - destruct (String.eqb (Order.id r) (Order.id o)) eqn:E; simpl.
    + by rewrite String.eqb_refl.
    + by rewrite E.
Qed.

Lemma getOrder_of_findOne eng orderId o :
  findOne orderId (orderRepository eng) = Some o ->
  getOrder eng orderId (Order.userId o) = Ok o.
Proof.
  unfold getOrder, findOne. induction (orderRepository eng) as [|r rows IH]; simpl; [done|].
  destruct (String.eqb (Order.id r) orderId) eqn:E; simpl.
  - intros [= ->]. by rewrite String.eqb_refl.
  - apply IH.
Qed.

Lemma findIndex_removes orderId (l : list OrderBookEntry.t) :
  orderId ∈ OrderBookEntry.id <$> l ->
  NoDup (OrderBookEntry.id <$> l) ->
  exists i,
    findIndex orderId l = Some i
    /\ orderId ∉ OrderBookEntry.id <$> delete i l.
Proof.
  induction l as [|e l IH]; simpl.
  - by intros ?%elem_of_nil.
  - intros Hin [Hnotin Hnodup]%NoDup_cons.
    destruct (String.eqb (OrderBookEntry.id e) orderId) eqn:E.
    + apply String.eqb_eq in E. subst orderId. by exists 0%nat.
    + apply String.eqb_neq in E. apply elem_of_cons in Hin as [Heq|Hin]; [done|].
      destruct (IH Hin Hnodup) as (i & -> & Hgone). exists (S i). split; [done|].
      simpl. by intros [?|?]%elem_of_cons.
Qed.

(** What the engine's [cancelOrder] does for an order of the store that has
    one entry on its side of its book. *)
Lemma cancelOrder_spec eng orderId order :
  findOne orderId (orderRepository eng) = Some order ->
  let s := Order.side order in
  let book := getOrderBook eng (Order.bondId order) in
  orderId ∈ OrderBookEntry.id <$> ownSide s book ->
  NoDup (OrderBookEntry.id <$> ownSide s book) ->
  exists l,
    orderBooks (cancelOrder eng orderId)
    = <[Order.bondId order := setOwnSide s l book]> (orderBooks eng)
    /\ l `sublist_of` ownSide s book
    /\ (orderId ∉ OrderBookEntry.id <$> l)
    /\ orderRepository (cancelOrder eng orderId)
       = saveOrder (Order.set_status CANCELLED order) (orderRepository eng)
    /\ tradeRepository (cancelOrder eng orderId) = tradeRepository eng.
Proof.
  intros Hfind s book Hin Hnodup. unfold cancelOrder. rewrite Hfind.
  destruct (getOrCreateOrderBook_spec (orderBooks eng) (Order.bondId order))
    as (books1 & -> & Hins & _).
  change (default emptyBook (orderBooks eng !! Order.bondId order)) with book.
  fold s. simpl.
  destruct (findIndex_removes orderId _ Hin Hnodup) as (i & -> & Hgone).
  exists (delete i (ownSide s book)). rewrite Hins.
  repeat split; try done. apply sublist_delete.
Qed.

(** C9, amended. For every order in PENDING state that is in the store and
    has a resting entry on its side of its instrument's book, the only entry
    there with its id, [TradingService.cancelOrder] for the order's owner
    removes that entry and nothing else from the book, returns the order
    marked CANCELLED and leaves it so in the store; afterwards no trade
    that a crossing order (another order, on the other side, for the same
    instrument) produces names the cancelled order. *)
Theorem cancel_pending_order_removes_its_entry eng orderId order :
  findOne orderId (orderRepository eng) = Some order ->
  Order.status order = PENDING ->
  orderId ∈ OrderBookEntry.id
              <$> ownSide (Order.side order) (getOrderBook eng (Order.bondId order)) ->
  NoDup (OrderBookEntry.id
           <$> ownSide (Order.side order) (getOrderBook eng (Order.bondId order))) ->
  let s := Order.side order in
  let before := getOrderBook eng (Order.bondId order) in
  let cancelled := TradingService_cancelOrder eng orderId (Order.userId order) in
  let after := getOrderBook cancelled.1 (Order.bondId order) in
  cancelled.2 = Ok (Order.set_status CANCELLED order)
  /\ findOne orderId (orderRepository cancelled.1)
     = Some (Order.set_status CANCELLED order)
  /\ (orderId ∉ OrderBookEntry.id <$> ownSide s after)
  /\ ownSide s after `sublist_of` ownSide s before
  /\ length (ownSide s before) = S (length (ownSide s after))
  /\ oppositeSide s after = oppositeSide s before
  /\ (forall faults next ts t,
        Order.bondId next = Order.bondId order ->
        Order.side next <> Order.side order ->
        Order.id next <> orderId ->
        trades (processOrder faults cancelled.1 next) = Ok ts ->
        t ∈ ts ->
        Trade.buyOrderId t <> orderId /\ Trade.sellOrderId t <> orderId).
Proof.
  intros Hfind Hst Hin Hnodup s before cancelled after.
  pose proof (findOne_id _ _ _ Hfind) as Hid.
  assert (Hcancelled :
    cancelled = (mkEngine (orderBooks (cancelOrder eng orderId))
                   (saveOrder (Order.set_status CANCELLED order)
                      (orderRepository (cancelOrder eng orderId)))
                   (tradeRepository (cancelOrder eng orderId)),
                 Ok (Order.set_status CANCELLED order))).
  { subst cancelled. unfold TradingService_cancelOrder.
    rewrite (getOrder_of_findOne eng orderId order Hfind), Hst. done. }
  destruct (cancelOrder_spec eng orderId order Hfind Hin Hnodup)
    as (l & Hbooks & Hsub & Hgone & Hrows & _).
  fold s before in Hbooks, Hsub.
  assert (Hafter : after = setOwnSide s l before).
  { subst after. rewrite Hcancelled. unfold getOrderBook. simpl.
    by rewrite Hbooks, lookup_insert_eq. }
  assert (Hown : ownSide s after = l) by (by rewrite Hafter, ownSide_setOwnSide).
  assert (Hlen : length (ownSide s before) = S (length l)).
  { unfold cancelOrder in Hbooks. rewrite Hfind in Hbooks.
    destruct (getOrCreateOrderBook_spec (orderBooks eng) (Order.bondId order))
      as (books1 & Hget & Hins & _). rewrite Hget in Hbooks. simpl in Hbooks.
    change (default emptyBook (orderBooks eng !! Order.bondId order))
      with before in Hbooks.
    fold s in Hbooks.
    destruct (findIndex_removes orderId _ Hin Hnodup) as (i & Hi & _).
    fold s before in Hi. rewrite Hi, Hins in Hbooks.
    apply (f_equal (fun m => ownSide s <$> m !! Order.bondId order)) in Hbooks.
    rewrite !lookup_insert_eq in Hbooks. simpl in Hbooks.
    rewrite !ownSide_setOwnSide in Hbooks. injection Hbooks as <-.
    assert (i < length (ownSide s before))%nat.
    { clear -Hi. revert i Hi. induction (ownSide s before) as [|e l' IH]; simpl; [done|].
      intros i. destruct (String.eqb _ _); [intros [= <-]; lia|].
      destruct (findIndex orderId l') as [j|]; [|done]. simpl. intros [= <-].
      specialize (IH j eq_refl). lia. }
    rewrite length_delete by (apply lookup_lt_is_Some_2; lia). lia. }
  split; [by rewrite Hcancelled|]. split.
  { rewrite Hcancelled. simpl. rewrite <- Hid. apply (findOne_saveOrder
      (Order.set_status CANCELLED order)). }
  split; [by rewrite Hown|]. split; [by rewrite Hown|]. split; [by rewrite Hown|].
  split; [by rewrite Hafter, oppositeSide_setOwnSide|].
  intros faults next ts t Hbond Hside Hnext Hts Ht.
  destruct (trades_against_opposite_side faults _ next ts t Hts Ht)
    as (e & He & _ & _ & _ & Hparties).
  rewrite Hbond in He. fold after in He.
  assert (Hopp : oppositeSide (Order.side next) after = ownSide s after).
  { subst s. destruct (Order.side next), (Order.side order); done. }
  rewrite Hopp, Hown in He.
  assert (OrderBookEntry.id e <> orderId).
  { intros <-. apply Hgone. by apply list_elem_of_fmap_2. }
  destruct (Order.side next), Hparties as [-> ->]; done.
Qed.

Lemma cancel_pending_order_removes_its_entry_witness :
  (TradingService_cancelOrder oneBid "b1" "user-b1").2
    = Ok (Order.set_status CANCELLED buyLate)
  /\ findOne "b1" (orderRepository (TradingService_cancelOrder oneBid "b1" "user-b1").1)
     = Some (Order.set_status CANCELLED buyLate)
  /\ ("b1" ∉ OrderBookEntry.id
              <$> bids (getOrderBook (TradingService_cancelOrder oneBid "b1" "user-b1").1
                          "INE001")).
Proof.
  assert (Hfind : findOne "b1" (orderRepository oneBid) = Some buyLate) by reflexivity.
  assert (Hin : "b1"%string ∈ OrderBookEntry.id
                  <$> ownSide (Order.side buyLate)
                        (getOrderBook oneBid (Order.bondId buyLate))).
  { apply list_elem_of_In. simpl. left. reflexivity. }
  assert (Hnodup : NoDup (OrderBookEntry.id
                    <$> ownSide (Order.side buyLate)
                          (getOrderBook oneBid (Order.bondId buyLate)))).
  { repeat constructor. apply not_elem_of_nil. }
  destruct (cancel_pending_order_removes_its_entry oneBid "b1" buyLate
              Hfind eq_refl Hin Hnodup) as (Hres & Hstore & Hgone & _).
  split; [exact Hres|]. split; [exact Hstore|exact Hgone].
Defined.

(** * Further properties of the engine *)

(** ** What a call that returns has done *)

(** A limit order whose call returns: the loop on its matchable entries ran
    to its end and kept whatever property [P] its body keeps; the engine
    that results is spelled out. *)
Lemma processLimitOrder_returns_with (P : Matching -> Prop) faults eng order ts :
  let s := Order.side order in
  let book := getOrderBook eng (Order.bondId order) in
  let m0 :=
    mkMatching (tagEntries (oppositeSide s book)) order (Order.quantity order) []
      (mkTx (orderRepository eng) (tradeRepository eng) faults) in
  trades (processLimitOrder faults eng order) = Ok ts ->
  exists ml m1 after,
    matchableOrders s (Order.price order) (tagEntries (oppositeSide s book)) = Ok ml
    /\ limitLoop ml (orderRepository eng) m0 = (m1, None)
    /\ walkInvariant order (oppositeSide s book) m1
    /\ ts = mTrades m1
    /\ updatedOrder (processLimitOrder faults eng order)
       = withAveragePrice ts (limitStatus m1)
    /\ engine (processLimitOrder faults eng order)
       = mkEngine (<[Order.bondId order := after]> (orderBooks eng))
           (saveOrder (updatedOrder (processLimitOrder faults eng order))
              (txOrders (mTx m1)))
           (txTrades (mTx m1))
    /\ oppositeSide s after = untag (mBook m1)
    /\ ((mRemaining m1 <= 0 /\ ownSide s after = ownSide s book)
        \/ (0 < mRemaining m1
            /\ exists p,
                Order.price order = Some p
                /\ ownSide s after
                   = stableSort (ownFirst s)
                       (ownSide s book
                        ++ [OrderBookEntry.mk (Order.id order) p (Order.quantity order)
                              (mRemaining m1) (Order.createdAt order)])))
    /\ (P m0 ->
        (forall tag e m m' ex,
            P m -> (tag, e) ∈ ml -> 0 < mRemaining m ->
            matchEntry (orderRepository eng) tag e m = (m', ex) -> P m') ->
        P m1).
Proof.
  intros s book m0. unfold processLimitOrder.
  destruct (getOrCreateOrderBook_spec (orderBooks eng) (Order.bondId order))
    as (books1 & -> & Hins & _). fold book s.
  destruct (matchableOrders _ _ _) as [ml|e] eqn:Eml; [|done].
  unfold limitTransaction. fold s m0.
  destruct (limitLoop _ _ _) as [m1 [e|]] eqn:Eloop; [done|]. simpl.
  assert (Hinv : walkInvariant order (oppositeSide s book) m1).
  { eapply limitLoop_walkInvariant; [|apply walkInvariant_start|exact Eloop].
    intros tag e. by eapply matchableOrders_from_book. }
  rewrite Hins.
  set (walkedBook := setOppositeSide s (untag (mBook m1)) book).
  assert (Hafter : forall books3,
    (if mRemaining m1 <=? 0 then (<[Order.bondId order := walkedBook]> (orderBooks eng), None)
     else addToOrderBook (<[Order.bondId order := walkedBook]> (orderBooks eng))
            (limitStatus m1) (Some (mRemaining m1))) = (books3, None) ->
    exists after,
      books3 = <[Order.bondId order := after]> (orderBooks eng)
      /\ oppositeSide s after = untag (mBook m1)
      /\ ((mRemaining m1 <= 0 /\ ownSide s after = ownSide s book)
          \/ (0 < mRemaining m1
              /\ exists p,
                  Order.price order = Some p
                  /\ ownSide s after
                     = stableSort (ownFirst s)
                         (ownSide s book
                          ++ [OrderBookEntry.mk (Order.id order) p (Order.quantity order)
                                (mRemaining m1) (Order.createdAt order)])))).
  { intros books3. destruct (Z.leb_spec (mRemaining m1) 0) as [Hle|Hgt].
    - intros [= <-]. exists walkedBook. split; [done|]. subst walkedBook.
      rewrite oppositeSide_setOppositeSide, ownSide_setOppositeSide. auto.
    - rewrite addToOrderBook_spec.
      destruct (limitStatus_fields m1) as (Hside & Hbond & Hprice).
      destruct (sameButFilled_fields _ _ (walk_order _ _ _ Hinv))
        as (_ & Hside' & Hbond' & _ & Hprice' & _).
      rewrite Hside, Hbond, Hprice, Hside', Hbond', Hprice'. fold s.
      destruct (Order.price order) as [p|]; [|done]. intros [= <-].
      rewrite lookup_insert_eq. simpl. eexists. split; [apply insert_insert_eq|].
      rewrite oppositeSide_setOwnSide, ownSide_setOwnSide. subst walkedBook.
      rewrite oppositeSide_setOppositeSide, ownSide_setOppositeSide.
      split; [done|]. right. split; [done|]. exists p. split; [done|].
      rewrite newBookEntry_limitStatus.
      rewrite (newBookEntry_remainder order); [done|apply (walk_order _ _ _ Hinv)|lia]. }
  destruct (if mRemaining m1 <=? 0 then _ else _) as [books3 [e|]] eqn:Ebooks; [done|].
  destruct (Hafter books3 eq_refl) as (after & -> & Hopp & Hown).
  unfold managerSaveOrder, txWrite.
  destruct (txWrites (mTx m1)) as [[|n]|]; simpl; [done| |];
    intros [= <-]; exists ml, m1, after; do 8 (split; [done|]);
    intros HP Hbody; by eapply (limitLoop_invariant P).
Qed.

(** The same for a market order. *)
Lemma processMarketOrder_returns_with (P : Matching -> Prop) faults eng order ts :
  let s := Order.side order in
  let book := getOrderBook eng (Order.bondId order) in
  let walked := stableSort (bestFirst s) (oppositeSide s book) in
  let m0 :=
    mkMatching (tagEntries walked) order (Order.quantity order) []
      (mkTx (orderRepository eng) (tradeRepository eng) faults) in
  trades (processMarketOrder faults eng order) = Ok ts ->
  exists m1,
    marketLoop (length walked) 0 (orderRepository eng) m0 = (m1, None)
    /\ ts = mTrades m1
    /\ updatedOrder (processMarketOrder faults eng order)
       = withAveragePrice ts (marketStatus m1)
    /\ engine (processMarketOrder faults eng order)
       = mkEngine
           (<[Order.bondId order := setOppositeSide s (untag (mBook m1)) book]>
              (orderBooks eng))
           (saveOrder (updatedOrder (processMarketOrder faults eng order))
              (txOrders (mTx m1)))
           (txTrades (mTx m1))
    /\ (P m0 ->
        (forall tag e m m' ex,
            P m -> (tag, e) ∈ mBook m -> 0 < mRemaining m ->
            matchEntry (orderRepository eng) tag e m = (m', ex) -> P m') ->
        P m1).
Proof.
  intros s book walked m0. unfold processMarketOrder.
  destruct (getOrCreateOrderBook_spec (orderBooks eng) (Order.bondId order))
    as (books1 & -> & Hins & _). fold book s walked m0.
  destruct (marketLoop _ _ _ _) as [m1 [e|]] eqn:Eloop; [done|]. simpl.
  unfold managerSaveOrder, txWrite.
  destruct (txWrites (mTx m1)) as [[|n]|]; simpl; [done| |];
    intros [= <-]; exists m1; rewrite Hins; do 4 (split; [done|]);
    intros HP Hbody; by eapply (marketLoop_invariant P).
Qed.

(** ** The stores after a call *)

Lemma findOne_saveOrder_other orderId o rows :
  orderId <> Order.id o -> findOne orderId (saveOrder o rows) = findOne orderId rows.
Proof.
  intros Hne. unfold findOne. induction rows as [|r rows IH]; simpl.
  - destruct (String.eqb_spec (Order.id o) orderId); [congruence|done].
  - destruct (String.eqb_spec (Order.id r) (Order.id o)) as [Heq|Hneq]; simpl.
    + destruct (String.eqb_spec (Order.id o) orderId); [congruence|].
      destruct (String.eqb_spec (Order.id r) orderId); [congruence|done].
    + destruct (String.eqb_spec (Order.id r) orderId); [done|apply IH].
Qed.

Lemma findOne_saveOrder_is_Some orderId o rows :
  is_Some (findOne orderId rows) -> is_Some (findOne orderId (saveOrder o rows)).
Proof.
  destruct (String.eqb_spec orderId (Order.id o)) as [->|Hne].
  - by rewrite findOne_saveOrder.
  - by rewrite findOne_saveOrder_other.
Qed.

(** What one run of the loop body does to the tables of the transaction. *)
Lemma matchEntry_tx rows tag e m m' ex :
  matchEntry rows tag e m = (m', ex) ->
  m' = m
  \/ exists t,
      mTrades m' = mTrades m ++ [t]
      /\ txTrades (mTx m') = txTrades (mTx m) ++ [t]
      /\ (txOrders (mTx m') = txOrders (mTx m)
          \/ exists o,
              Order.id o = OrderBookEntry.id e
              /\ txOrders (mTx m') = saveOrder o (txOrders (mTx m))).
Proof.
  unfold matchEntry, managerSaveTrade, managerSaveOrder, txWrite.
  destruct m as [book order rem ts [orders tds writes]]. simpl.
  destruct writes as [[|n]|]; simpl.
  - intros [= <- <-]. by left.
  - destruct (findOne (OrderBookEntry.id e) orders) as [opp|] eqn:Eopp; simpl.
    + pose proof (findOne_id _ _ _ Eopp) as Hid.
      destruct n as [|n]; simpl; intros [= <- <-]; right; eexists; simpl;
        (split; [done|]); (split; [done|]); [by left|right].
      eexists. split; [|done]. by destruct (_ <=? 0).
    + intros [= <- <-]. right. eexists. simpl. split; [done|]. split; [done|]. by left.
  - destruct (findOne (OrderBookEntry.id e) orders) as [opp|] eqn:Eopp; simpl.
    + pose proof (findOne_id _ _ _ Eopp) as Hid.
      intros [= <- <-]. right. eexists. simpl. split; [done|]. split; [done|]. right.
      eexists. split; [|done]. by destruct (_ <=? 0).
    + intros [= <- <-]. right. eexists. simpl. split; [done|]. split; [done|]. by left.
Qed.

Lemma storeInvariant_start eng ids book order q faults :
  storeInvariant eng ids
    (mkMatching book order q [] (mkTx (orderRepository eng) (tradeRepository eng) faults)).
Proof. split; simpl; [by rewrite app_nil_r|done|done]. Qed.

Lemma matchEntry_storeInvariant eng ids rows tag e m m' ex :
  storeInvariant eng ids m ->
  OrderBookEntry.id e ∈ ids ->
  matchEntry rows tag e m = (m', ex) ->
  storeInvariant eng ids m'.
Proof.
  intros [Ht Hf Hk] He [->|(t & Hts & Htx & Horders)]%matchEntry_tx; [done|].
  split.
  - by rewrite Htx, Hts, Ht, app_assoc.
  - intros orderId Hid. destruct Horders as [->|(o & Ho & ->)]; [by apply Hf|].
    rewrite findOne_saveOrder_other; [by apply Hf|]. intros ->. by rewrite Ho in Hid.
  - intros orderId Hsome. destruct Horders as [->|(o & Ho & ->)]; [by apply Hk|].
    by apply findOne_saveOrder_is_Some, Hk.
Qed.

(** The stores at the end of a walk, for both algorithms. *)
Lemma processOrder_stores faults eng order ts :
  trades (processOrder faults eng order) = Ok ts ->
  Order.orderType order = MARKET \/ Order.orderType order = LIMIT ->
  exists rows,
    orderRepository (engine (processOrder faults eng order))
    = saveOrder (updatedOrder (processOrder faults eng order)) rows
    /\ Order.id (updatedOrder (processOrder faults eng order)) = Order.id order
    /\ tradeRepository (engine (processOrder faults eng order))
       = tradeRepository eng ++ ts
    /\ (forall orderId,
          orderId ∉ OrderBookEntry.id
                      <$> oppositeSide (Order.side order)
                            (getOrderBook eng (Order.bondId order)) ->
          findOne orderId rows = findOne orderId (orderRepository eng))
    /\ (forall orderId,
          is_Some (findOne orderId (orderRepository eng)) ->
          is_Some (findOne orderId rows)).
Proof.
  intros Hts Hty. unfold processOrder in *.
  set (ids := OrderBookEntry.id
                <$> oppositeSide (Order.side order) (getOrderBook eng (Order.bondId order))).
  destruct Hty as [Hty|Hty]; rewrite Hty in *.
  - destruct (processMarketOrder_returns_with
                (fun m => walkInvariant order
                            (stableSort (bestFirst (Order.side order))
                               (oppositeSide (Order.side order)
                                  (getOrderBook eng (Order.bondId order)))) m
                          /\ storeInvariant eng ids m)
                faults eng order ts Hts) as (m1 & _ & -> & Hupd & Heng & HP).
    destruct HP as [Hinv [Ht Hf Hk]].
    { split; [apply walkInvariant_start|apply storeInvariant_start]. }
    { intros tag e m m' ex [Hinv Hst] Hin _ Hm.
      assert (Hoffer : offer e ∈ offer <$> stableSort (bestFirst (Order.side order))
                         (oppositeSide (Order.side order)
                            (getOrderBook eng (Order.bondId order)))).
      { eapply elem_of_sublist; [|apply (walk_book _ _ _ Hinv)].
        apply list_elem_of_fmap. exists e. split; [done|].
        apply list_elem_of_fmap. by exists (tag, e). }
      split; [by eapply matchEntry_walkInvariant|].
      eapply matchEntry_storeInvariant; [done| |exact Hm].
      apply list_elem_of_fmap in Hoffer as (e0 & He0 & Hin0).
      apply stableSort_elem_of in Hin0. subst ids.
      rewrite <- (offer_id e), He0, offer_id. by apply list_elem_of_fmap_2. }
    exists (txOrders (mTx m1)). rewrite Heng. simpl. split; [done|]. split.
    { rewrite Hupd. destruct (mTrades m1); unfold marketStatus;
        destruct (_ <=? 0); try destruct (_ >? 0); simpl;
        by destruct (sameButFilled_fields _ _ (walk_order _ _ _ Hinv)) as (-> & _). }
    done.
  - destruct (processLimitOrder_returns_with (storeInvariant eng ids)
                faults eng order ts Hts)
      as (ml & m1 & after & Hml & _ & Hinv & -> & Hupd & Heng & _ & _ & HP).
    destruct HP as [Ht Hf Hk].
    { apply storeInvariant_start. }
    { intros tag e m m' ex Hst Hin _ Hm.
      eapply matchEntry_storeInvariant; [done| |exact Hm].
      subst ids. apply list_elem_of_fmap_2. by eapply matchableOrders_from_book. }
    exists (txOrders (mTx m1)). rewrite Heng. simpl. split; [done|]. split.
    { rewrite Hupd. destruct (mTrades m1); unfold limitStatus;
        destruct (_ <=? 0); try destruct (_ >? 0); simpl;
        by destruct (sameButFilled_fields _ _ (walk_order _ _ _ Hinv)) as (-> & _). }
    done.
Qed.

(** X3. A call of [processOrder], whether it returns or throws, writes no
    row of the order table but those of the incoming order and of the
    orders that have an entry on the opposite side of the instrument's
    book: every other order reads as before; and no row is ever removed. *)
Theorem other_orders_are_not_written faults eng order orderId :
  orderId <> Order.id order ->
  orderId ∉ OrderBookEntry.id
              <$> oppositeSide (Order.side order) (getOrderBook eng (Order.bondId order)) ->
  findOne orderId (orderRepository (engine (processOrder faults eng order)))
  = findOne orderId (orderRepository eng)
  /\ (forall anyId,
        is_Some (findOne anyId (orderRepository eng)) ->
        is_Some (findOne anyId (orderRepository (engine (processOrder faults eng order))))).
Proof.
  intros Hne Hnotin.
  destruct (trades (processOrder faults eng order)) as [ts|e] eqn:Hts.
  - destruct (Order.orderType order) eqn:Hty.
    1,2: destruct (processOrder_stores faults eng order ts Hts)
           as (rows & -> & Hid & _ & Hframe & Hkeep); [auto|];
         split; [rewrite findOne_saveOrder_other by congruence; by apply Hframe|];
         intros anyId Hsome; by apply findOne_saveOrder_is_Some, Hkeep.
    1,2: unfold processOrder; rewrite Hty; done.
  - assert (Hrows : orderRepository (engine (processOrder faults eng order))
                    = orderRepository eng).
    { revert Hts. unfold processOrder. destruct (Order.orderType order); [| |done|done].
      - destruct (processMarketOrder_view faults eng order) as (m1 & _ & _ & Hout).
        intros He. rewrite He in Hout. tauto.
      - destruct (processLimitOrder_view faults eng order)
          as [(_ & _ & _ & ->)|(m1 & _ & Hout)]; intros He; [done|].
        simpl in Hout. rewrite He in Hout. tauto. }
    by rewrite Hrows.
Qed.

Lemma other_orders_are_not_written_witness :
  let order := newOrder "b1" LIMIT BUY 60 (Some 100) GTC 3 in
  let eng := mkEngine {["INE001"%string := mkBook [] [resting sellA 100]]}
               [sellA; sellB] [] in
  findOne "s2" (orderRepository (engine (processOrder None eng order)))
  = findOne "s2" (orderRepository eng).
Proof.
  intros order eng.
  assert (Hne : "s2"%string <> Order.id order) by discriminate.
  assert (Hnotin : "s2"%string ∉ OrderBookEntry.id
                     <$> oppositeSide (Order.side order)
                           (getOrderBook eng (Order.bondId order))).
  { intros [Heq|Hin]%elem_of_cons; [discriminate|by apply elem_of_nil in Hin]. }
  exact (proj1 (other_orders_are_not_written None eng order "s2" Hne Hnotin)).
Defined.

(** ** Instruments and sides a call leaves alone *)

Lemma getOrCreateOrderBook_other books bondId k :
  k <> bondId -> (getOrCreateOrderBook books bondId).1 !! k = books !! k.
Proof.
  intros Hne. unfold getOrCreateOrderBook. destruct (books !! bondId); simpl; [done|].
  by rewrite lookup_insert_ne.
Qed.

Lemma addToOrderBook_other books order rq k :
  k <> Order.bondId order -> (addToOrderBook books order rq).1 !! k = books !! k.
Proof.
  intros Hne. rewrite addToOrderBook_spec. destruct (Order.price order); simpl.
  - by rewrite lookup_insert_ne.
  - by apply getOrCreateOrderBook_other.
Qed.

Lemma processOrder_other_instrument faults eng order k :
  k <> Order.bondId order ->
  orderBooks (engine (processOrder faults eng order)) !! k = orderBooks eng !! k.
Proof.
  intros Hne. unfold processOrder. destruct (Order.orderType order); [| |done|done].
  - destruct (processMarketOrder_view faults eng order) as (m1 & _ & -> & _).
    by rewrite lookup_insert_ne.
  - destruct (processLimitOrder_view faults eng order)
      as [(_ & _ & _ & ->)|(m1 & Hinv & Hout)].
    { simpl. by apply getOrCreateOrderBook_other. }
    simpl in Hout.
    assert (Hother : forall books,
              books = <[Order.bondId order :=
                          setOppositeSide (Order.side order) (untag (mBook m1))
                            (getOrderBook eng (Order.bondId order))]> (orderBooks eng)
              \/ books = (addToOrderBook
                            (<[Order.bondId order :=
                                 setOppositeSide (Order.side order) (untag (mBook m1))
                                   (getOrderBook eng (Order.bondId order))]> (orderBooks eng))
                            (limitStatus m1) (Some (mRemaining m1))).1 ->
              books !! k = orderBooks eng !! k).
    { intros books [->| ->].
      - by rewrite lookup_insert_ne.
      - rewrite addToOrderBook_other.
        + by rewrite lookup_insert_ne.
        + destruct (limitStatus_fields m1) as (_ & -> & _).
          by destruct (sameButFilled_fields _ _ (walk_order _ _ _ Hinv))
            as (_ & _ & -> & _). }
    apply Hother. destruct (trades (processLimitOrder faults eng order)).
    + destruct Hout as (_ & _ & [[_ ->]|[_ Hadd]]); [by left|right]. by rewrite Hadd.
    + destruct Hout as (_ & _ & [->|[_ ->]]); auto.
Qed.

(** X4. A call of [processOrder] or of the engine's [cancelOrder], whether
    it returns or throws, reads and changes the book of one instrument
    only: the book of every other instrument is as it was. *)
Theorem other_instruments_are_untouched faults eng order orderId bondId :
  (bondId <> Order.bondId order ->
   getOrderBook (engine (processOrder faults eng order)) bondId
   = getOrderBook eng bondId)
  /\ ((forall o, findOne orderId (orderRepository eng) = Some o ->
                 bondId <> Order.bondId o) ->
      getOrderBook (cancelOrder eng orderId) bondId = getOrderBook eng bondId).
Proof.
  split.
  - intros Hne. unfold getOrderBook. by rewrite processOrder_other_instrument.
  - intros Hne. unfold getOrderBook, cancelOrder.
    destruct (findOne orderId (orderRepository eng)) as [o|]; [|done].
    specialize (Hne o eq_refl).
    destruct (getOrCreateOrderBook_spec (orderBooks eng) (Order.bondId o))
      as (books1 & -> & Hins & _). simpl. by rewrite Hins, lookup_insert_ne.
Qed.

Lemma other_instruments_are_untouched_witness :
  let eng :=
    mkEngine {["INE001"%string := mkBook [] [resting sellA 100]; "INE002"%string := mkBook [resting buyLate 50] []]}
      [sellA] [] in
  getOrderBook (engine (processOrder None eng (newOrder "b1" MARKET BUY 60 None GTC 3)))
    "INE002"
  = getOrderBook eng "INE002".
Proof.
  intros eng.
  apply (proj1 (other_instruments_are_untouched None eng
                  (newOrder "b1" MARKET BUY 60 None GTC 3) "b1" "INE002")).
  discriminate.
Defined.

(** X5. A market order never rests, and never stays pending: whether the
    call returns or throws, the order's own side of the book is as it was;
    when the call returns, the order is FILLED, PARTIALLY_FILLED or
    REJECTED, and it is REJECTED exactly when something remains and its
    filled quantity is not positive. *)
Theorem market_order_never_rests faults eng order :
  Order.orderType order = MARKET ->
  let out := processOrder faults eng order in
  ownSide (Order.side order) (getOrderBook (engine out) (Order.bondId order))
  = ownSide (Order.side order) (getOrderBook eng (Order.bondId order))
  /\ (forall ts,
        trades out = Ok ts ->
        let left := Order.quantity order - sumZ (Trade.quantity <$> ts) in
        (Order.status (updatedOrder out) = FILLED
         \/ Order.status (updatedOrder out) = PARTIALLY_FILLED
         \/ Order.status (updatedOrder out) = REJECTED)
        /\ (Order.status (updatedOrder out) = REJECTED
            <-> 0 < left /\ Order.filledQuantity (updatedOrder out) <= 0)).
Proof.
  intros Hty out. subst out. unfold processOrder. rewrite Hty.
  destruct (processMarketOrder_view faults eng order) as (m1 & Hinv & Hbooks & Hout).
  split.
  - unfold getOrderBook at 1. rewrite Hbooks, lookup_insert_eq. simpl.
    by rewrite ownSide_setOppositeSide.
  - intros ts Hts. rewrite Hts in Hout. destruct Hout as [-> ->].
    pose proof (walk_conserves _ _ _ Hinv) as Hc.
    assert (Hfilled : Order.filledQuantity
                        (withAveragePrice (mTrades m1) (marketStatus m1))
                      = Order.filledQuantity (mOrder m1)).
    { destruct (mTrades m1); unfold marketStatus;
        destruct (_ <=? 0); try destruct (_ >? 0); done. }
    rewrite withAveragePrice_status, Hfilled. unfold marketStatus. simpl.
    destruct (Z.leb_spec (mRemaining m1) 0) as [Hle|Hgt]; simpl.
    + split; [auto|]. split; [done|lia].
    + destruct (Z.gtb_spec (Order.filledQuantity (mOrder m1)) 0); simpl.
      * split; [auto|]. split; [done|lia].
      * split; [auto|]. split; [lia|done].
Qed.

Lemma market_order_never_rests_witness :
  ownSide BUY (getOrderBook (engine (processOrder None twoAsks
                                       (newOrder "b1" MARKET BUY 100 None GTC 3))) "INE001")
  = ownSide BUY (getOrderBook twoAsks "INE001").
Proof.
  exact (proj1 (market_order_never_rests None twoAsks
                  (newOrder "b1" MARKET BUY 100 None GTC 3) eq_refl)).
Defined.

(** ** The prices a limit order trades at *)

Lemma matchableOrders_crosses s p tagged ml tag e :
  matchableOrders s (Some p) tagged = Ok ml -> (tag, e) ∈ ml -> crosses s p e = true.
Proof.
  unfold matchableOrders. destruct tagged as [|te tl].
  - intros [= <-] Hin. by apply elem_of_nil in Hin.
  - intros H. replace ml with
      (stableSort (fun a b : Tagged => bestFirst s a.2 b.2)
         (List.filter (fun te : Tagged => crosses s p te.2) (te :: tl))) by congruence.
    rewrite stableSort_elem_of, list_elem_of_In, filter_In. by intros [_ Hc].
Qed.

Lemma crosses_noWorse s p e :
  crosses s p e = true <-> noWorse s (OrderBookEntry.price e) p.
Proof. destruct s; simpl; lia. Qed.

(** X6. A limit order never trades through its limit: every trade of a
    limit buy at [p] is at a price of at most [p], every trade of a limit
    sell at [p] at a price of at least [p]. *)
Theorem limit_order_trades_within_its_limit faults eng order p ts t :
  Order.orderType order = LIMIT ->
  Order.price order = Some p ->
  trades (processOrder faults eng order) = Ok ts ->
  t ∈ ts ->
  noWorse (Order.side order) (Trade.price t) p.
Proof.
  intros Hty Hp Hts Hin. unfold processOrder in Hts. rewrite Hty in Hts.
  destruct (processLimitOrder_returns_with
              (fun m => Forall (fun t => noWorse (Order.side order) (Trade.price t) p)
                          (mTrades m))
              faults eng order ts Hts)
    as (ml & m1 & after & Hml & _ & _ & -> & _ & _ & _ & _ & HP).
  rewrite Hp in Hml.
  assert (Hall : Forall (fun t => noWorse (Order.side order) (Trade.price t) p)
                   (mTrades m1)); [|rewrite Forall_forall in Hall; by apply Hall].
  apply HP.
  - constructor.
  - intros tag e m m' ex Hm He _ Hstep.
    apply matchEntry_spec in Hstep as [[-> _]|(-> & _)]; [done|].
    apply Forall_app. split; [done|]. constructor; [|done]. simpl.
    apply crosses_noWorse. by eapply matchableOrders_crosses.
Qed.

Lemma limit_order_trades_within_its_limit_witness :
  noWorse BUY (Trade.price (Trade.mk "INE001" "b9" "s9" "user-b9" "user-s9" 60 10 600)) 10.
Proof.
  assert (Hin : Trade.mk "INE001" "b9" "s9" "user-b9" "user-s9" 60 10 600
                ∈ [Trade.mk "INE001" "b9" "s9" "user-b9" "user-s9" 60 10 600])
    by (apply list_elem_of_In; simpl; left; reflexivity).
  exact (limit_order_trades_within_its_limit None oneAsk gtcBuy 10 _ _
           eq_refl eq_refl eq_refl Hin).
Defined.

(** ** The order of execution *)

Lemma bestFirst_noWorse s a b :
  bestFirst s a b <= 0 <-> noWorse s (OrderBookEntry.price a) (OrderBookEntry.price b).
Proof. destruct s; unfold bestFirst, byPriceAsc, byPriceDesc; simpl; lia. Qed.

(** One match at the price of an entry that is no better than any price
    traded so far keeps the trades in order. *)
Lemma matchEntry_trades_in_order rows s tag e m m' ex :
  StronglySorted (executedNotAfter s) (mTrades m) ->
  (forall t, t ∈ mTrades m -> noWorse s (Trade.price t) (OrderBookEntry.price e)) ->
  matchEntry rows tag e m = (m', ex) ->
  StronglySorted (executedNotAfter s) (mTrades m')
  /\ (forall t, t ∈ mTrades m' -> t ∈ mTrades m \/ Trade.price t = OrderBookEntry.price e).
Proof.
  intros Hs Hle Hstep.
  apply matchEntry_spec in Hstep as [[-> _]|(-> & _)]; [by auto|]. split.
  - apply StronglySorted_app_2; [|done|repeat constructor].
    intros t1 t2 H1 H2. apply list_elem_of_singleton in H2 as ->.
    unfold executedNotAfter. simpl. by apply Hle.
  - intros t Ht. apply elem_of_app in Ht as [Ht|Ht]; [by left|right].
    by apply list_elem_of_singleton in Ht as ->.
Qed.

Lemma noWorse_refl s p : noWorse s p p.
Proof. destruct s; simpl; lia. Qed.

Lemma limitLoop_trades_in_order rows s ml :
  forall m m' ex,
    StronglySorted (notAfter (fun a b : Tagged => bestFirst s a.2 b.2)) ml ->
    StronglySorted (executedNotAfter s) (mTrades m) ->
    (forall t (te : Tagged), t ∈ mTrades m -> te ∈ ml ->
                  noWorse s (Trade.price t) (OrderBookEntry.price te.2)) ->
    limitLoop ml rows m = (m', ex) ->
    StronglySorted (executedNotAfter s) (mTrades m').
Proof.
  induction ml as [|[tag e] rest IH]; simpl; intros m m' ex Hml Hs Hle Hloop.
  - by simplify_eq.
  - destruct (mRemaining m <=? 0); [by simplify_eq|].
    apply StronglySorted_cons in Hml as [Hhead Hrest].
    destruct (matchEntry rows tag e m) as [m1 ex1] eqn:Em.
    destruct (matchEntry_trades_in_order rows s tag e m m1 ex1 Hs) as [Hs1 Hin1];
      [|done|].
    { intros t Ht. apply (Hle t (tag, e) Ht). left. }
    destruct ex1 as [e1|]; [by simplify_eq|].
    eapply IH; [done|done| |exact Hloop].
    intros t te Ht Hte. destruct (Hin1 t Ht) as [Hold| ->].
    + apply Hle; [done|by right].
    + rewrite Forall_forall in Hhead. apply bestFirst_noWorse.
      exact (Hhead te Hte).
Qed.

Lemma elem_of_drop_S {A} (l : list A) i x : x ∈ drop (S i) l -> x ∈ drop i l.
Proof.
  revert i. induction l as [|a l IH]; intros [|i]; simpl; try done.
  - rewrite drop_0. by right.
  - apply IH.
Qed.

Lemma elem_of_drop_S_delete {A} (l : list A) k i x :
  x ∈ drop (S i) (delete k l) -> x ∈ drop i l.
Proof.
  revert k i. induction l as [|a l IH]; intros k i.
  { destruct k; simpl; intros H; by apply elem_of_nil in H. }
  destruct k as [|k]; simpl.
  - intros H. apply elem_of_drop_S in H. destruct i; simpl.
    + right. by rewrite drop_0 in H.
    + by apply elem_of_drop_S.
  - destruct i; simpl.
    + rewrite drop_0. intros H. right. eapply elem_of_sublist; [exact H|].
      apply sublist_delete.
    + apply IH.
Qed.

Lemma elem_of_drop_removelast {A} (l : list A) i x :
  x ∈ drop i (removelast l) -> x ∈ drop i l.
Proof.
  destruct l as [|a l] using rev_ind; [done|].
  rewrite removelast_last, drop_app. intros H. apply elem_of_app. by left.
Qed.

Lemma elem_of_drop_S_spliceOut tag (book : list Tagged) i (te : Tagged) :
  te ∈ drop (S i) (spliceOut tag book) -> te ∈ drop i book.
Proof.
  unfold spliceOut. destruct (indexOf tag book).
  - apply elem_of_drop_S_delete.
  - intros H. by apply elem_of_drop_S, elem_of_drop_removelast.
Qed.

Lemma elem_of_drop_setRemaining tag v (book : list Tagged) i (te : Tagged) :
  te ∈ drop i (setRemaining tag v book) ->
  exists te0 : Tagged,
    te0 ∈ drop i book /\ OrderBookEntry.price te.2 = OrderBookEntry.price te0.2.
Proof.
  unfold setRemaining. rewrite <- fmap_drop. intros H.
  apply list_elem_of_fmap in H as (te0 & -> & Hin). exists te0. split; [done|].
  by destruct (hasTag tag te0).
Qed.

(** After a match, what lies beyond the next position of the array lay
    at or beyond the position matched, at the same price. *)
Lemma matchEntry_book_ahead rows tag e m m' i (te : Tagged) :
  matchEntry rows tag e m = (m', None) ->
  te ∈ drop (S i) (mBook m') ->
  exists te0 : Tagged,
    te0 ∈ drop i (mBook m) /\ OrderBookEntry.price te.2 = OrderBookEntry.price te0.2.
Proof.
  unfold matchEntry. destruct (managerSaveTrade _ _) as [tx1|]; [|done].
  match goal with
  | |- (match ?s with _ => _ end) = _ -> _ => destruct s as [tx2|]
  end; [|done].
  intros [= <-]. simpl. destruct (_ <=? 0).
  - intros H. apply elem_of_drop_S_spliceOut in H.
    by apply elem_of_drop_setRemaining in H.
  - intros H. apply elem_of_drop_S in H. by apply elem_of_drop_setRemaining in H.
Qed.

Lemma marketLoop_trades_in_order rows s fuel :
  forall i m m' ex,
    sideByPrice s (untag (mBook m)) ->
    StronglySorted (executedNotAfter s) (mTrades m) ->
    (forall t (te : Tagged), t ∈ mTrades m -> te ∈ drop i (mBook m) ->
                  noWorse s (Trade.price t) (OrderBookEntry.price te.2)) ->
    marketLoop fuel i rows m = (m', ex) ->
    StronglySorted (executedNotAfter s) (mTrades m').
Proof.
  induction fuel as [|fuel IH]; simpl; intros i m m' ex Hbook Hs Hle Hloop.
  - by simplify_eq.
  - destruct (mBook m !! i) as [[tag e]|] eqn:Ei; [|by simplify_eq].
    destruct (mRemaining m <=? 0); [by simplify_eq|].
    assert (Hrest : forall te : Tagged,
               te ∈ drop i (mBook m) ->
               noWorse s (OrderBookEntry.price e) (OrderBookEntry.price te.2)).
    { intros te Hte. apply bestFirst_noWorse.
      unfold sideByPrice, untag in Hbook.
      rewrite <- (take_drop i (mBook m)), fmap_app in Hbook.
      apply StronglySorted_app in Hbook as (_ & _ & Hbook).
      rewrite (drop_S _ _ _ Ei) in Hbook, Hte. simpl in Hbook.
      apply StronglySorted_cons in Hbook as [Hhead _].
      apply elem_of_cons in Hte as [->|Hte]; simpl.
      - destruct s; unfold bestFirst, byPriceAsc, byPriceDesc; lia.
      - rewrite Forall_forall in Hhead. apply Hhead.
        apply list_elem_of_fmap. by exists te. }
    destruct (matchEntry rows tag e m) as [m1 ex1] eqn:Em.
    destruct (matchEntry_trades_in_order rows s tag e m m1 ex1 Hs) as [Hs1 Hin1];
      [|done|].
    { intros t Ht. apply (Hle t (tag, e) Ht).
      rewrite (drop_S _ _ _ Ei). left. }
    destruct ex1 as [e1|]; [by simplify_eq|].
    eapply IH; [| | |exact Hloop]; [|done|].
    + pose proof Em as Hspec.
      apply matchEntry_spec in Hspec as [[_ ?]|(_ & _ & _ & Hsub & _)]; [done|].
      by eapply sideByPrice_shrink.
    + intros t te Ht Hte.
      destruct (matchEntry_book_ahead _ _ _ _ _ _ _ Em Hte) as (te0 & Hte0 & ->).
      destruct (Hin1 t Ht) as [Hold| ->]; [by apply Hle|by apply Hrest].
Qed.

Lemma matchableOrders_sorted s limit tagged ml :
  matchableOrders s limit tagged = Ok ml ->
  StronglySorted (notAfter (fun a b : Tagged => bestFirst s a.2 b.2)) ml.
Proof.
  unfold matchableOrders. destruct tagged as [|te tl].
  - intros [= <-]. constructor.
  - destruct limit as [p|]; [|done]. intros H.
    replace ml with
      (stableSort (fun a b : Tagged => bestFirst s a.2 b.2)
         (List.filter (fun te : Tagged => crosses s p te.2) (te :: tl))) by congruence.
    apply stableSort_sorted.
    + intros a b. apply bestFirst_total.
    + intros a b c. apply bestFirst_trans.
Qed.

(** X7. Best price first: the trades of an order, in the order they were
    executed and are returned, go from the best price for the order to the
    worst: ascending prices for a buy, descending prices for a sell. This
    holds for market and limit orders, whatever order the book was in. *)
Theorem trades_are_executed_best_price_first faults eng order ts :
  trades (processOrder faults eng order) = Ok ts ->
  StronglySorted (executedNotAfter (Order.side order)) ts.
Proof.
  unfold processOrder. destruct (Order.orderType order).
  - intros Hts.
    destruct (processMarketOrder_returns_with (fun _ => True) faults eng order ts Hts)
      as (m1 & Hloop & -> & _).
    eapply marketLoop_trades_in_order; [| | |exact Hloop]; simpl.
    + rewrite untag_tagEntries. apply sort_bestFirst_sorted.
    + constructor.
    + intros t te Ht. by apply elem_of_nil in Ht.
  - intros Hts.
    destruct (processLimitOrder_returns_with (fun _ => True) faults eng order ts Hts)
      as (ml & m1 & after & Hml & Hloop & _ & -> & _).
    eapply limitLoop_trades_in_order; [| | |exact Hloop]; simpl.
    + by eapply matchableOrders_sorted.
    + constructor.
    + intros t te Ht. by apply elem_of_nil in Ht.
  - intros [= <-]. constructor.
  - intros [= <-]. constructor.
Qed.

Lemma trades_are_executed_best_price_first_witness :
  StronglySorted (executedNotAfter BUY)
    [Trade.mk "INE001" "b1" "s1" "user-b1" "user-s1" 60 100 6000;
     Trade.mk "INE001" "b1" "s2" "user-b1" "user-s2" 40 101 4040].
Proof.
  exact (trades_are_executed_best_price_first None twoAsks
           (newOrder "b1" LIMIT BUY 100 (Some 101) GTC 3) _ eq_refl).
Defined.

(** ** Edge cases of the two algorithms *)

Lemma setOppositeSide_same s b : setOppositeSide s (oppositeSide s b) b = b.
Proof. by destruct s, b. Qed.

(** X8. A limit order without a price, for a positive quantity, is never
    processed: the call throws a TypeError (in the filter when the opposite
    side has entries, on admission when it has none); nothing is written to
    the stores and both sides of the book are as they were. *)
Theorem limit_order_without_price_throws faults eng order :
  Order.orderType order = LIMIT ->
  Order.price order = None ->
  0 < Order.quantity order ->
  let out := processOrder faults eng order in
  trades out = Throw TypeError
  /\ orderRepository (engine out) = orderRepository eng
  /\ tradeRepository (engine out) = tradeRepository eng
  /\ getOrderBook (engine out) (Order.bondId order)
     = getOrderBook eng (Order.bondId order).
Proof.
  intros Hty Hp Hq. unfold processOrder. rewrite Hty. unfold processLimitOrder.
  destruct (getOrCreateOrderBook_spec (orderBooks eng) (Order.bondId order))
    as (books1 & -> & Hins & Hbook & _).
  change (default emptyBook (orderBooks eng !! Order.bondId order))
    with (getOrderBook eng (Order.bondId order)) in *.
  set (book := getOrderBook eng (Order.bondId order)) in *.
  rewrite Hp. destruct (oppositeSide (Order.side order) book) as [|x l] eqn:Eopp.
  - simpl. unfold limitTransaction. rewrite Eopp. simpl.
    destruct (Z.leb_spec (Order.quantity order) 0); [lia|].
    rewrite addToOrderBook_spec.
    replace (Order.price (limitStatus _)) with (@None Z).
    2:{ unfold limitStatus. simpl.
        destruct (_ <=? 0); [done|]. by destruct (_ >? 0). }
    simpl. repeat split; try done.
    replace (Order.bondId (limitStatus _)) with (Order.bondId order).
    2:{ unfold limitStatus. simpl.
        destruct (_ <=? 0); [done|]. by destruct (_ >? 0). }
    unfold getOrderBook at 1, getOrCreateOrderBook. simpl.
    rewrite lookup_insert_eq. simpl. rewrite lookup_insert_eq. simpl.
    rewrite <- Eopp. apply setOppositeSide_same.
  - simpl. repeat split; try done. unfold getOrderBook at 1. simpl. by rewrite Hbook.
Qed.

Lemma limit_order_without_price_throws_witness :
  trades (processOrder None twoAsks (newOrder "b1" LIMIT BUY 10 None GTC 3))
  = Throw TypeError.
Proof.
  apply (limit_order_without_price_throws None twoAsks
           (newOrder "b1" LIMIT BUY 10 None GTC 3)); [done|done|simpl; lia].
Defined.

(** ** How much a limit order fills *)

(** The walk of a limit order stops when nothing remains of the order or
    when the matchable entries are used up, whichever comes first. *)
Lemma limitLoop_remaining rows ml :
  forall m m',
    Forall (fun te : Tagged => 0 <= OrderBookEntry.remainingQuantity te.2) ml ->
    0 <= mRemaining m ->
    limitLoop ml rows m = (m', None) ->
    mRemaining m'
    = Z.max 0 (mRemaining m - sumZ (OrderBookEntry.remainingQuantity <$> untag ml)).
Proof.
  induction ml as [|[tag e] rest IH]; simpl; intros m m' Hpos Hrem Hloop.
  - simplify_eq. unfold sumZ. simpl. lia.
  - apply Forall_cons in Hpos as [He Hrest]. simpl in He.
    change (list_fmap OrderBookEntry.t Z OrderBookEntry.remainingQuantity (untag rest))
      with (OrderBookEntry.remainingQuantity <$> untag rest) in *.
    assert (0 <= sumZ (OrderBookEntry.remainingQuantity <$> untag rest)).
    { apply sumZ_nonneg, Forall_fmap, Forall_fmap.
      eapply Forall_impl; [exact Hrest|]. by intros [n x]. }
    destruct (Z.leb_spec (mRemaining m) 0); [simplify_eq; lia|].
    destruct (matchEntry rows tag e m) as [m1 [e1|]] eqn:Em; [done|].
    apply matchEntry_spec in Em as [[_ ?]|(_ & Hrem1 & _)]; [done|].
    rewrite (IH m1 m' Hrest); [|lia|done]. lia.
Qed.

(** X9. On whole numbers that doubles hold exactly, a limit order with a
    price fills as much as rests on the opposite side at crossing prices,
    up to its quantity, whatever its time-in-force: the traded quantity is
    the smaller of the two. When the crossing entries cover the order, it
    ends FILLED and nothing of it rests. (With decimals neither holds:
    [decimal_fill_leaves_dust].) *)
Theorem limit_order_fills_what_crosses faults eng order p ts :
  Order.orderType order = LIMIT ->
  Order.price order = Some p ->
  exactWalk order
    (oppositeSide (Order.side order) (getOrderBook eng (Order.bondId order))) ->
  trades (processOrder faults eng order) = Ok ts ->
  let s := Order.side order in
  let available := crossingQuantity s p (getOrderBook eng (Order.bondId order)) in
  let out := processOrder faults eng order in
  sumZ (Trade.quantity <$> ts) = Z.min (Order.quantity order) available
  /\ (Order.quantity order <= available ->
      Order.status (updatedOrder out) = FILLED
      /\ ownSide s (getOrderBook (engine out) (Order.bondId order))
         = ownSide s (getOrderBook eng (Order.bondId order))).
Proof.
  intros Hty Hp (Hq & _ & _ & _ & Hside) Hts s available out. subst out.
  assert (Hpos : Forall (fun e => 0 <= OrderBookEntry.remainingQuantity e)
                   (oppositeSide (Order.side order)
                      (getOrderBook eng (Order.bondId order)))).
  { eapply Forall_impl; [exact Hside|]. by intros e (? & _). }
  unfold processOrder in *. rewrite Hty in *.
  destruct (processLimitOrder_returns_with (fun _ => True) faults eng order ts Hts)
    as (ml & m1 & after & Hml & Hloop & Hinv & -> & -> & -> & _ & Hown & _).
  fold s in Hml, Hloop, Hown. rewrite Hp in Hml.
  pose proof (matchableOrders_crossing _ _ _ _ Hml) as Hperm.
  assert (Hsum : sumZ (OrderBookEntry.remainingQuantity <$> untag ml) = available).
  { unfold available, crossingQuantity. apply sumZ_Permutation. by rewrite Hperm. }
  assert (Hrem : mRemaining m1 = Z.max 0 (Order.quantity order - available)).
  { rewrite <- Hsum.
    apply (limitLoop_remaining _ _ _ _) in Hloop; [exact Hloop| |done].
    apply Forall_forall. intros [tag e] Hin. simpl.
    rewrite Forall_forall in Hpos. apply Hpos.
    by eapply matchableOrders_from_book. }
  pose proof (walk_conserves _ _ _ Hinv) as Hc. split; [lia|].
  intros Hle. rewrite withAveragePrice_status. split.
  - unfold limitStatus. destruct (Z.leb_spec (mRemaining m1) 0); [done|lia].
  - unfold getOrderBook at 1. simpl. rewrite lookup_insert_eq. simpl.
    destruct Hown as [[_ ->]|[Hgt _]]; [done|lia].
Qed.

Lemma limit_order_fills_what_crosses_witness :
  sumZ (Trade.quantity
          <$> [Trade.mk "INE001" "b1" "s1" "user-b1" "user-s1" 60 100 6000;
               Trade.mk "INE001" "b1" "s2" "user-b1" "user-s2" 40 101 4040])
  = Z.min 100 110
  /\ Order.status (updatedOrder (processOrder None twoAsks
                                   (newOrder "b1" LIMIT BUY 100 (Some 101) GTC 3)))
     = FILLED.
Proof.
  pose (order := newOrder "b1" LIMIT BUY 100 (Some 101) GTC 3).
  assert (Hexact : exactWalk order
                     (oppositeSide (Order.side order)
                        (getOrderBook twoAsks (Order.bondId order)))).
  { exact_walk [resting sellA 100; resting sellB 101]. }
  assert (Hle : Order.quantity order
                <= crossingQuantity (Order.side order) 101
                     (getOrderBook twoAsks (Order.bondId order))).
  { vm_compute. discriminate. }
  destruct (limit_order_fills_what_crosses None twoAsks order 101 _
              eq_refl eq_refl Hexact eq_refl) as [Hsum Hfilled].
  split; [exact Hsum|exact (proj1 (Hfilled Hle))].
Defined.

(** ** The walk of a market order over the array it splices *)

(** A run of the loop body that does not throw, in full. *)
Lemma matchEntry_returns rows tag e m m' :
  matchEntry rows tag e m = (m', None) ->
  let q := Z.min (mRemaining m) (OrderBookEntry.remainingQuantity e) in
  let left := OrderBookEntry.remainingQuantity e - q in
  mBook m' = (if left <=? 0 then spliceOut tag (setRemaining tag left (mBook m))
              else setRemaining tag left (mBook m))
  /\ mTrades m' = mTrades m ++ [createTrade rows (mOrder m) e q]
  /\ mRemaining m' = mRemaining m - q
  /\ mOrder m'
     = Order.set_filledQuantity (Order.filledQuantity (mOrder m) + q) (mOrder m).
Proof.
  intros H q left. unfold matchEntry in H. fold q left in H.
  destruct (managerSaveTrade _ _) as [tx1|]; [|done].
  match type of H with
  | (match ?s with _ => _ end) = _ => destruct s as [tx2|]
  end; [|done].
  by simplify_eq.
Qed.

Lemma setRemaining_absent tag v (book : list Tagged) :
  tag ∉ book.*1 -> setRemaining tag v book = book.
Proof.
  unfold setRemaining. induction book as [|te book IH]; simpl; [done|].
  intros Hnot. apply not_elem_of_cons in Hnot as [Hne Hnot].
  unfold hasTag at 1. destruct (Nat.eqb_spec te.1 tag); [done|]. f_equal. by apply IH.
Qed.

Lemma setRemaining_middle tag v (pre tl : list Tagged) e :
  NoDup (pre ++ (tag, e) :: tl).*1 ->
  setRemaining tag v (pre ++ (tag, e) :: tl)
  = pre ++ (tag, OrderBookEntry.set_remainingQuantity v e) :: tl.
Proof.
  rewrite fmap_app, fmap_cons. simpl. intros Hnd.
  apply NoDup_app in Hnd as (_ & Hpre & Htl).
  apply NoDup_cons in Htl as [Htl _].
  assert (tag ∉ pre.*1). { intros Hin. apply (Hpre _ Hin). left. }
  pose proof (setRemaining_absent tag v pre) as Hp.
  pose proof (setRemaining_absent tag v tl) as Ht.
  unfold setRemaining in *. rewrite fmap_app, fmap_cons, Hp, Ht by done.
  unfold hasTag. simpl. by rewrite Nat.eqb_refl.
Qed.

Lemma indexOf_middle tag (pre tl : list Tagged) e :
  tag ∉ pre.*1 -> indexOf tag (pre ++ (tag, e) :: tl) = Some (length pre).
Proof.
  induction pre as [|te pre IH]; simpl.
  - intros _. unfold hasTag. simpl. by rewrite Nat.eqb_refl.
  - intros Hnot. apply not_elem_of_cons in Hnot as [Hne Hnot].
    unfold hasTag at 1. destruct (Nat.eqb_spec te.1 tag); [done|].
    by rewrite IH.
Qed.

Lemma spliceOut_middle tag (pre tl : list Tagged) e :
  tag ∉ pre.*1 -> spliceOut tag (pre ++ (tag, e) :: tl) = pre ++ tl.
Proof.
  intros Hnot. unfold spliceOut. rewrite indexOf_middle by done.
  apply delete_middle.
Qed.

Lemma createTrade_sameButFilled rows a b e q :
  sameButFilled a b -> createTrade rows a e q = createTrade rows b e q.
Proof.
  unfold sameButFilled. intros H.
  change (createTrade rows (Order.set_filledQuantity 0 a) e q
          = createTrade rows (Order.set_filledQuantity 0 b) e q).
  by rewrite H.
Qed.

Lemma sameButFilled_set_filledQuantity v a b :
  sameButFilled a b -> sameButFilled (Order.set_filledQuantity v a) b.
Proof. unfold sameButFilled. by destruct a. Qed.

Lemma odds_cons_cons {A} (x y : A) l : odds (x :: y :: l) = y :: odds l.
Proof. by destruct l. Qed.

Lemma evens_sublist {A} (l : list A) :
  evens l `sublist_of` l /\ forall x, evens (x :: l) `sublist_of` x :: l.
Proof.
  induction l as [|a l [IH1 IH2]]; [done|]. split; [apply IH2|].
  intros x. simpl. by apply sublist_skip, sublist_cons.
Qed.

Lemma evens_remaining_nonneg (l : list Tagged) :
  Forall (fun te : Tagged => 0 < OrderBookEntry.remainingQuantity te.2) l ->
  0 <= sumZ (OrderBookEntry.remainingQuantity <$> untag (evens l)).
Proof.
  intros Hpos. apply sumZ_nonneg, Forall_fmap, Forall_fmap.
  apply Forall_forall. intros te Hin. rewrite Forall_forall in Hpos. simpl.
  apply Z.lt_le_incl, Hpos. eapply elem_of_sublist; [exact Hin|].
  apply evens_sublist.
Qed.

(** Against an order that takes every entry it visits whole, the iterator
    visits the entries at the even positions only: a splice at position i
    moves the next entry to i, and the iterator goes on at i + 1. *)
Lemma marketLoop_every_other rows order fuel :
  forall (suf pre : list Tagged) m m',
    NoDup (pre ++ suf).*1 ->
    mBook m = pre ++ suf ->
    sameButFilled (mOrder m) order ->
    Forall (fun te : Tagged => 0 < OrderBookEntry.remainingQuantity te.2) suf ->
    sumZ (OrderBookEntry.remainingQuantity <$> untag (evens suf)) <= mRemaining m ->
    (length suf <= fuel)%nat ->
    marketLoop fuel (length pre) rows m = (m', None) ->
    mBook m' = pre ++ odds suf
    /\ mTrades m'
       = mTrades m
         ++ ((fun e => createTrade rows order e (OrderBookEntry.remainingQuantity e))
               <$> untag (evens suf))
    /\ mRemaining m'
       = mRemaining m - sumZ (OrderBookEntry.remainingQuantity <$> untag (evens suf))
    /\ Order.filledQuantity (mOrder m')
       = Order.filledQuantity (mOrder m)
         + sumZ (OrderBookEntry.remainingQuantity <$> untag (evens suf))
    /\ sameButFilled (mOrder m') order.
Proof.
  induction fuel as [|fuel IH]; intros suf pre m m' Hnd Hbook Hord Hpos Hsum Hfuel Hloop.
  { destruct suf; [|simpl in Hfuel; lia]. simpl in Hloop.
    rewrite app_nil_r in Hbook. simplify_eq.
    simpl. rewrite !app_nil_r. unfold sumZ. simpl. repeat split; (done || lia). }
  simpl in Hloop. rewrite Hbook in Hloop.
  destruct suf as [|[tag e] tl].
  { rewrite app_nil_r in Hbook, Hloop. rewrite lookup_ge_None_2 in Hloop by done.
    simplify_eq.
    simpl. rewrite !app_nil_r. unfold sumZ. simpl. repeat split; (done || lia). }
  rewrite list_lookup_middle in Hloop by done.
  apply Forall_cons in Hpos as [He Htl]. simpl in He.
  assert (Hpre : tag ∉ pre.*1).
  { rewrite fmap_app in Hnd. apply NoDup_app in Hnd as (_ & Hdis & _).
    intros Hin. apply (Hdis _ Hin). left. }
  assert (Hstep : forall m1,
             0 < mRemaining m -> OrderBookEntry.remainingQuantity e <= mRemaining m ->
             matchEntry rows tag e m = (m1, None) ->
             mBook m1 = pre ++ tl
             /\ mTrades m1
                = mTrades m
                  ++ [createTrade rows order e (OrderBookEntry.remainingQuantity e)]
             /\ mRemaining m1 = mRemaining m - OrderBookEntry.remainingQuantity e
             /\ Order.filledQuantity (mOrder m1)
                = Order.filledQuantity (mOrder m) + OrderBookEntry.remainingQuantity e
             /\ sameButFilled (mOrder m1) order).
  { intros m1 Hgt Hle Em.
    apply matchEntry_returns in Em as (Hb1 & Ht1 & Hr1 & Ho1).
    rewrite Z.min_r in Hb1, Ht1, Hr1, Ho1 by lia.
    rewrite Z.sub_diag in Hb1. simpl in Hb1.
    rewrite Hbook, setRemaining_middle, spliceOut_middle in Hb1 by done.
    rewrite (createTrade_sameButFilled _ _ order) in Ht1 by done.
    rewrite Ho1.
    repeat split; (done || by apply sameButFilled_set_filledQuantity). }
  destruct tl as [|y tl].
  - simpl in Hsum. unfold sumZ in Hsum. simpl in Hsum.
    destruct (Z.leb_spec (mRemaining m) 0); [lia|].
    destruct (matchEntry rows tag e m) as [m1 [e1|]] eqn:Em; [done|].
    destruct (Hstep m1) as (Hb1 & Ht1 & Hr1 & Hf1 & Ho1); [lia|lia|done|].
    assert (Hend : marketLoop fuel (S (length pre)) rows m1 = (m1, None)).
    { destruct fuel; simpl; [done|]. rewrite Hb1, app_nil_r.
      by rewrite lookup_ge_None_2 by lia. }
    rewrite Hend in Hloop. simplify_eq. simpl.
    rewrite Hb1, Ht1, Hr1, Hf1. unfold sumZ. simpl.
    repeat split; (done || lia).
  - apply Forall_cons in Htl as [_ Htl].
    pose proof (evens_remaining_nonneg tl Htl) as Hnonneg.
    rewrite odds_cons_cons.
    change (evens ((tag, e) :: y :: tl)) with ((tag, e) :: evens tl) in *.
    simpl in Hsum |- *.
    change (list_fmap OrderBookEntry.t Z OrderBookEntry.remainingQuantity
              (untag (evens tl)))
      with (OrderBookEntry.remainingQuantity <$> untag (evens tl)) in *.
    destruct (Z.leb_spec (mRemaining m) 0); [lia|].
    destruct (matchEntry rows tag e m) as [m1 [e1|]] eqn:Em; [done|].
    destruct (Hstep m1) as (Hb1 & Ht1 & Hr1 & Hf1 & Ho1); [lia|lia|done|].
    replace (S (length pre)) with (length (pre ++ [y])) in Hloop
      by (rewrite length_app; simpl; lia).
    destruct (IH tl (pre ++ [y]) m1 m') as (Hb & Ht & Hr & Hf & Ho); try done.
    + rewrite <- app_assoc. simpl.
      rewrite fmap_app, fmap_cons in Hnd. rewrite fmap_app, fmap_cons.
      apply NoDup_app in Hnd as (Hnpre & Hdis & Hsuf).
      apply NoDup_cons in Hsuf as [Hnot Hsuf].
      apply NoDup_app. repeat split; [done| |done].
      intros x Hx Hx'. apply (Hdis x Hx). by right.
    + by rewrite Hb1, <- app_assoc.
    + lia.
    + simpl in Hfuel. lia.
    + rewrite Hb, Ht, Hr, Hf, Ht1, Hr1, Hf1, <- !app_assoc. simpl.
      repeat split; (done || lia).
Qed.

Lemma evens_fmap {A B} (f : A -> B) (l : list A) :
  evens (f <$> l) = f <$> evens l
  /\ forall x, evens (f <$> x :: l) = f <$> evens (x :: l).
Proof.
  induction l as [|a l [IH1 IH2]]; [done|]. split; [apply IH2|].
  intros x. change (f x :: evens (f <$> l) = f x :: (f <$> evens l)).
  by rewrite IH1.
Qed.

Lemma untag_evens (l : list Tagged) : untag (evens l) = evens (untag l).
Proof. unfold untag. symmetry. apply evens_fmap. Qed.

Lemma untag_odds (l : list Tagged) : untag (odds l) = odds (untag l).
Proof. destruct l as [|x l]; [done|]. simpl. apply untag_evens. Qed.

Lemma marketLoop_done rows fuel i m :
  mRemaining m <= 0 -> marketLoop fuel i rows m = (m, None).
Proof.
  intros Hle. destruct fuel; simpl; [done|].
  destruct (mBook m !! i) as [[tag e]|]; [|done].
  by destruct (Z.leb_spec (mRemaining m) 0); [|lia].
Qed.

(** X10. On whole numbers that doubles hold exactly, a market order that
    takes whole every entry it comes to passes over every other entry of
    the side. When the entries at the even
    positions of the sorted opposite side (the best, the third best, ...)
    together hold no more than the order asks for, the order trades with
    exactly these, each for all it has; the entries at the odd positions
    stay in the book untouched, and an order that is larger than what it
    took ends PARTIALLY_FILLED although the side is not used up. (With
    decimals the subtractions round, and an entry taken whole on paper can
    be left with dust.) *)
Theorem market_order_passes_over_every_other_entry faults eng order ts :
  Order.orderType order = MARKET ->
  let s := Order.side order in
  let walked :=
    stableSort (bestFirst s) (oppositeSide s (getOrderBook eng (Order.bondId order))) in
  let taken := sumZ (OrderBookEntry.remainingQuantity <$> evens walked) in
  exactWalk order (oppositeSide s (getOrderBook eng (Order.bondId order))) ->
  Forall (fun e => 0 < OrderBookEntry.remainingQuantity e) walked ->
  taken <= Order.quantity order ->
  trades (processOrder faults eng order) = Ok ts ->
  let out := processOrder faults eng order in
  ts = (fun e => createTrade (orderRepository eng) order e
                   (OrderBookEntry.remainingQuantity e)) <$> evens walked
  /\ oppositeSide s (getOrderBook (engine out) (Order.bondId order)) = odds walked
  /\ Order.status (updatedOrder out)
     = (if Order.quantity order - taken <=? 0 then FILLED
        else if Order.filledQuantity order + taken >? 0 then PARTIALLY_FILLED
             else REJECTED).
Proof.
  intros Hty s walked taken _ Hpos Hle Hts out. subst out.
  unfold processOrder in *. rewrite Hty in *.
  destruct (processMarketOrder_returns_with (fun _ => True) faults eng order ts Hts)
    as (m1 & Hloop & -> & -> & -> & _).
  fold s walked in Hloop.
  set (m0 := mkMatching _ _ _ _ _) in Hloop.
  destruct (marketLoop_every_other (orderRepository eng) order (length walked)
              (tagEntries walked) [] m0 m1) as (Hb & Ht & Hr & Hf & Ho).
  - apply tagEntries_NoDup.
  - done.
  - done.
  - apply Forall_forall. intros [tag e] Hin. simpl.
    rewrite Forall_forall in Hpos. apply Hpos.
    apply (list_elem_of_fmap_2 snd) in Hin.
    fold (untag (tagEntries walked)) in Hin. by rewrite untag_tagEntries in Hin.
  - by rewrite untag_evens, untag_tagEntries.
  - by rewrite tagEntries_length.
  - exact Hloop.
  - simpl in Hb, Ht, Hr, Hf.
    rewrite untag_evens, untag_tagEntries in Ht, Hr, Hf. fold taken in Hr, Hf.
    split; [done|]. split.
    + unfold getOrderBook at 1. simpl. rewrite lookup_insert_eq. simpl.
      rewrite oppositeSide_setOppositeSide, Hb, untag_odds.
      by rewrite untag_tagEntries.
    + rewrite withAveragePrice_status. unfold marketStatus. rewrite Hr, Hf.
      destruct (_ <=? 0); [done|]. by destruct (_ >? 0).
Qed.

Lemma market_order_passes_over_every_other_entry_witness :
  oppositeSide BUY
    (getOrderBook (engine (processOrder None twoAsks
                             (newOrder "b1" MARKET BUY 100 None GTC 3))) "INE001")
  = [resting sellB 101]
  /\ Order.status (updatedOrder (processOrder None twoAsks
                                   (newOrder "b1" MARKET BUY 100 None GTC 3)))
     = PARTIALLY_FILLED.
Proof.
  pose (order := newOrder "b1" MARKET BUY 100 None GTC 3).
  assert (Hpos : Forall (fun e => 0 < OrderBookEntry.remainingQuantity e)
                   (stableSort (bestFirst (Order.side order))
                      (oppositeSide (Order.side order)
                         (getOrderBook twoAsks (Order.bondId order))))).
  { vm_compute. repeat constructor. }
  assert (Hle : sumZ (OrderBookEntry.remainingQuantity
                        <$> evens (stableSort (bestFirst (Order.side order))
                                     (oppositeSide (Order.side order)
                                        (getOrderBook twoAsks (Order.bondId order)))))
                <= Order.quantity order).
  { vm_compute. discriminate. }
  assert (Hexact : exactWalk order
                     (oppositeSide (Order.side order)
                        (getOrderBook twoAsks (Order.bondId order)))).
  { exact_walk [resting sellA 100; resting sellB 101]. }
  destruct (market_order_passes_over_every_other_entry None twoAsks order _
              eq_refl Hexact Hpos Hle eq_refl) as (_ & Hbook & Hstatus).
  split; [exact Hbook|exact Hstatus].
Defined.

(** X11. A market order that the best entry of the opposite side covers
    trades once, with that entry, for its whole quantity, and ends FILLED;
    the entry stays with the rest of its quantity and leaves the book when
    nothing is left of it. *)
Theorem market_order_within_best_entry faults eng order best rest ts :
  Order.orderType order = MARKET ->
  let s := Order.side order in
  stableSort (bestFirst s) (oppositeSide s (getOrderBook eng (Order.bondId order)))
  = best :: rest ->
  0 < Order.quantity order <= OrderBookEntry.remainingQuantity best ->
  trades (processOrder faults eng order) = Ok ts ->
  let out := processOrder faults eng order in
  let left := OrderBookEntry.remainingQuantity best - Order.quantity order in
  ts = [createTrade (orderRepository eng) order best (Order.quantity order)]
  /\ Order.status (updatedOrder out) = FILLED
  /\ oppositeSide s (getOrderBook (engine out) (Order.bondId order))
     = (if left <=? 0 then rest
        else OrderBookEntry.set_remainingQuantity left best :: rest).
Proof.
  intros Hty s Hwalked Hq Hts out left. subst out.
  unfold processOrder in *. rewrite Hty in *.
  destruct (processMarketOrder_returns_with (fun _ => True) faults eng order ts Hts)
    as (m1 & Hloop & -> & -> & -> & _).
  fold s in Hloop. rewrite Hwalked in Hloop.
  pose proof (tagEntries_NoDup (best :: rest)) as Hnd.
  unfold tagEntries in Hloop, Hnd. simpl in Hloop, Hnd.
  destruct (Z.leb_spec (Order.quantity order) 0); [lia|].
  destruct (matchEntry _ 0%nat best _) as [m2 [e2|]] eqn:Em; [done|].
  apply matchEntry_returns in Em as (Hb & Ht & Hr & Ho).
  cbn [mBook mOrder mRemaining mTrades] in Hb, Ht, Hr, Ho.
  rewrite Z.min_l in Hb, Ht, Hr, Ho by lia. fold left in Hb.
  pose proof (setRemaining_middle 0 left [] (zip (seq 1 (length rest)) rest) best Hnd)
    as Hset.
  pose proof (spliceOut_middle 0 [] (zip (seq 1 (length rest)) rest)
                (OrderBookEntry.set_remainingQuantity left best)
                (not_elem_of_nil _)) as Hsplice.
  rewrite !app_nil_l in Hset, Hsplice. rewrite Hset, Hsplice in Hb.
  rewrite marketLoop_done in Hloop by lia. simplify_eq.
  rewrite Ht. split; [done|]. split.
  - rewrite withAveragePrice_status. unfold marketStatus. rewrite Hr.
    by destruct (Z.leb_spec (Order.quantity order - Order.quantity order) 0); [|lia].
  - unfold getOrderBook at 1. simpl. rewrite lookup_insert_eq. simpl.
    rewrite oppositeSide_setOppositeSide, Hb.
    assert (Hrest : untag (zip (seq 1 (length rest)) rest) = rest).
    { apply snd_zip. by rewrite length_seq. }
    destruct (left <=? 0); [done|].
    change (OrderBookEntry.set_remainingQuantity left best
            :: untag (zip (seq 1 (length rest)) rest)
            = OrderBookEntry.set_remainingQuantity left best :: rest).
    by rewrite Hrest.
Qed.

Lemma market_order_within_best_entry_witness :
  Order.status (updatedOrder (processOrder None twoAsks
                                (newOrder "b1" MARKET BUY 40 None GTC 3)))
  = FILLED
  /\ oppositeSide BUY
       (getOrderBook (engine (processOrder None twoAsks
                                (newOrder "b1" MARKET BUY 40 None GTC 3))) "INE001")
     = [OrderBookEntry.set_remainingQuantity 20 (resting sellA 100); resting sellB 101].
Proof.
  pose (order := newOrder "b1" MARKET BUY 40 None GTC 3).
  assert (Hq : 0 < Order.quantity order
               <= OrderBookEntry.remainingQuantity (resting sellA 100)).
  { simpl. lia. }
  exact (proj2 (market_order_within_best_entry None twoAsks order
                  (resting sellA 100) [resting sellB 101] _
                  eq_refl eq_refl Hq eq_refl)).
Defined.

(** X12. A market order that finds the opposite side empty trades nothing
    and leaves the book as it was; when it asks for a positive quantity
    and nothing of it was filled before, it is returned REJECTED, with no
    other field changed. *)
Theorem market_order_without_liquidity_is_rejected faults eng order ts :
  Order.orderType order = MARKET ->
  oppositeSide (Order.side order) (getOrderBook eng (Order.bondId order)) = [] ->
  trades (processOrder faults eng order) = Ok ts ->
  let out := processOrder faults eng order in
  ts = []
  /\ getOrderBook (engine out) (Order.bondId order)
     = getOrderBook eng (Order.bondId order)
  /\ (0 < Order.quantity order -> Order.filledQuantity order <= 0 ->
      updatedOrder out = Order.set_status REJECTED order).
Proof.
  intros Hty Hempty Hts out. subst out.
  unfold processOrder in *. rewrite Hty in *.
  destruct (processMarketOrder_returns_with (fun _ => True) faults eng order ts Hts)
    as (m1 & Hloop & -> & -> & -> & _).
  rewrite Hempty in Hloop. simpl in Hloop. simplify_eq. simpl.
  split; [done|]. split.
  - unfold getOrderBook at 1. simpl. rewrite lookup_insert_eq. simpl.
    rewrite <- Hempty. apply setOppositeSide_same.
  - intros Hq Hf. unfold marketStatus. simpl.
    destruct (Z.leb_spec (Order.quantity order) 0); [lia|].
    by destruct (Z.gtb_spec (Order.filledQuantity order) 0); [lia|].
Qed.

Lemma market_order_without_liquidity_is_rejected_witness :
  updatedOrder (processOrder None freshEngine (newOrder "b1" MARKET BUY 40 None GTC 3))
  = Order.set_status REJECTED (newOrder "b1" MARKET BUY 40 None GTC 3).
Proof.
  pose (order := newOrder "b1" MARKET BUY 40 None GTC 3).
  apply (market_order_without_liquidity_is_rejected None freshEngine order []
           eq_refl eq_refl eq_refl); simpl; lia.
Defined.

(** ** Cancellation requests that are refused *)

Lemma getOrder_Ok eng orderId userId o :
  getOrder eng orderId userId = Ok o ->
  o ∈ orderRepository eng /\ Order.id o = orderId /\ Order.userId o = userId.
Proof.
  unfold getOrder. destruct (List.find _ _) as [o'|] eqn:E; [|done].
  intros [= ->]. apply find_some in E as [Hin Hb].
  apply andb_true_iff in Hb as [Hid Hu].
  apply String.eqb_eq in Hid, Hu. by rewrite list_elem_of_In.
Qed.

Lemma getOrder_Throw eng orderId userId e :
  getOrder eng orderId userId = Throw e ->
  e = NotFoundException
  /\ forall o, o ∈ orderRepository eng -> Order.id o = orderId ->
               Order.userId o <> userId.
Proof.
  unfold getOrder. destruct (List.find _ _) as [o'|] eqn:E; [done|].
  intros [= <-]. split; [done|]. intros o Hin Hid Hu.
  apply list_elem_of_In in Hin. pose proof (find_none _ _ E o Hin) as Hb.
  simpl in Hb. rewrite Hid, Hu, !String.eqb_refl in Hb. done.
Qed.

(** X13. A cancellation request that is refused changes nothing, in the
    books or in the stores. It is refused with NotFoundException when the
    user has no order of that id, and with BadRequestException when the
    user's order is in any state but PENDING. *)
Theorem refused_cancellation_changes_nothing eng orderId userId e :
  (TradingService_cancelOrder eng orderId userId).2 = Throw e ->
  (TradingService_cancelOrder eng orderId userId).1 = eng
  /\ ((e = NotFoundException
       /\ forall o, o ∈ orderRepository eng -> Order.id o = orderId ->
                    Order.userId o <> userId)
      \/ (e = BadRequestException
          /\ exists o, o ∈ orderRepository eng /\ Order.id o = orderId
                       /\ Order.userId o = userId /\ Order.status o <> PENDING)).
Proof.
  unfold TradingService_cancelOrder.
  destruct (getOrder eng orderId userId) as [o|e'] eqn:Eget; simpl.
  - destruct (OrderStatus_eqb (Order.status o) PENDING) eqn:Est; simpl; [done|].
    intros [= <-]. split; [done|]. right. split; [done|].
    apply getOrder_Ok in Eget as (Hin & Hid & Hu). exists o.
    repeat split; try done. intros Hst. by rewrite Hst in Est.
  - intros [= <-]. split; [done|]. left. by eapply getOrder_Throw.
Qed.

Lemma refused_cancellation_changes_nothing_witness :
  (TradingService_cancelOrder afterPartialFill "b9" "user-b9").1 = afterPartialFill.
Proof.
  exact (proj1 (refused_cancellation_changes_nothing afterPartialFill "b9" "user-b9"
                  BadRequestException eq_refl)).
Defined.

Lemma find_saved_order o rows :
  List.find (fun r => String.eqb (Order.id r) (Order.id o)
                      && String.eqb (Order.userId r) (Order.userId o))
    (saveOrder o rows)
  = Some o.
Proof.
  induction rows as [|r rows IH]; simpl.
  - by rewrite !String.eqb_refl.
  - destruct (String.eqb (Order.id r) (Order.id o)) eqn:E; simpl.
    + by rewrite !String.eqb_refl.
    + by rewrite E.
Qed.

(** X14. An order cannot be cancelled twice: after a cancellation request
    that succeeded, the same request is refused with BadRequestException
    and changes nothing. *)
Theorem cancelled_order_cannot_be_cancelled_again eng orderId userId o :
  (TradingService_cancelOrder eng orderId userId).2 = Ok o ->
  let cancelled := (TradingService_cancelOrder eng orderId userId).1 in
  TradingService_cancelOrder cancelled orderId userId
  = (cancelled, Throw BadRequestException).
Proof.
  intros Hok cancelled. subst cancelled. revert Hok.
  unfold TradingService_cancelOrder at 1 3 4.
  destruct (getOrder eng orderId userId) as [order|e'] eqn:Eget; [|done].
  destruct (OrderStatus_eqb (Order.status order) PENDING); [|done]. simpl.
  intros _. apply getOrder_Ok in Eget as (_ & Hid & Hu).
  unfold TradingService_cancelOrder, getOrder. simpl.
  pose proof (find_saved_order (Order.set_status CANCELLED order)
                (orderRepository (cancelOrder eng orderId))) as Hfind.
  simpl in Hfind. rewrite Hid, Hu in Hfind. by rewrite Hfind.
Qed.

Lemma cancelled_order_cannot_be_cancelled_again_witness :
  TradingService_cancelOrder (TradingService_cancelOrder oneBid "b1" "user-b1").1
    "b1" "user-b1"
  = ((TradingService_cancelOrder oneBid "b1" "user-b1").1, Throw BadRequestException).
Proof.
  exact (cancelled_order_cannot_be_cancelled_again oneBid "b1" "user-b1"
           (Order.set_status CANCELLED buyLate) eq_refl).
Defined.

(** ** Price-time priority *)

Lemma StronglySorted_sublist {A} (R : relation A) (l l' : list A) :
  l' `sublist_of` l -> StronglySorted R l -> StronglySorted R l'.
Proof.
  induction 1 as [|x l1 l2 Hsub IH|x l1 l2 Hsub IH].
  - done.
  - rewrite !StronglySorted_cons. intros [Hx Hs]. split; [|by apply IH].
    apply Forall_forall. intros y Hy. rewrite Forall_forall in Hx. apply Hx.
    by eapply elem_of_sublist.
  - rewrite StronglySorted_cons. intros [_ Hs]. by apply IH.
Qed.

Lemma StronglySorted_weaken {A} (R R' : relation A) (l : list A) :
  (forall a b, R a b -> R' a b) -> StronglySorted R l -> StronglySorted R' l.
Proof.
  intros HR. induction l as [|x l IH]; [constructor|].
  rewrite !StronglySorted_cons. intros [Hx Hs]. split; [|by apply IH].
  eapply Forall_impl; [exact Hx|]. apply HR.
Qed.

Lemma sorted_offers (R : relation OrderBookEntry.t) l :
  (forall a b, R (offer a) (offer b) <-> R a b) ->
  StronglySorted R l <-> StronglySorted R (offer <$> l).
Proof.
  intros HR. induction l as [|x l IH]; simpl.
  - split; constructor.
  - rewrite !StronglySorted_cons, IH, Forall_fmap.
    unfold compose. by setoid_rewrite HR.
Qed.

Lemma sorted_shrink (R : relation OrderBookEntry.t) l l' :
  (forall a b, R (offer a) (offer b) <-> R a b) ->
  offer <$> l' `sublist_of` offer <$> l -> StronglySorted R l -> StronglySorted R l'.
Proof.
  intros HR Hsub Hs. apply (sorted_offers R); [done|].
  eapply StronglySorted_sublist; [exact Hsub|]. by apply (proj1 (sorted_offers R l HR)).
Qed.

Lemma inPriceTime_sides s b :
  inPriceTime b
  <-> StronglySorted (bestThenEarliest s) (ownSide s b)
      /\ facingInTime s (oppositeSide s b).
Proof. destruct s, b; unfold inPriceTime; simpl; tauto. Qed.

Lemma facingInTime_price s l : facingInTime s l -> sideByPrice s l.
Proof.
  destruct s; simpl; apply StronglySorted_weaken; intros a b;
    unfold askBefore, bidBefore, notAfter, bestFirst, byPriceAsc, byPriceDesc; lia.
Qed.

Lemma facingInTime_shrink s l l' :
  offer <$> l' `sublist_of` offer <$> l -> facingInTime s l -> facingInTime s l'.
Proof. destruct s; simpl; by apply sorted_shrink. Qed.

Lemma bestThenEarliest_price s l :
  StronglySorted (bestThenEarliest s) l -> StronglySorted (notAfter (ownFirst s)) l.
Proof.
  apply StronglySorted_weaken. intros a b.
  destruct s; unfold bestThenEarliest, askBefore, bidBefore, notAfter, ownFirst,
    byPriceAsc, byPriceDesc; lia.
Qed.

(** An entry pushed on a side in price-time order whose timestamp is not
    before any timestamp of the side leaves the side in price-time order:
    the sort by price puts it behind the entries at its price. *)
Lemma push_in_time_order s l x :
  StronglySorted (bestThenEarliest s) l ->
  Forall (fun e => OrderBookEntry.timestamp e <= OrderBookEntry.timestamp x) l ->
  StronglySorted (bestThenEarliest s) (stableSort (ownFirst s) (l ++ [x])).
Proof.
  intros Hs Hts.
  rewrite stableSort_push; [|apply ownFirst_trans|by apply bestThenEarliest_price].
  rewrite Forall_forall in Hts.
  apply StronglySorted_app_2.
  - intros a b Ha Hb.
    apply list_elem_of_In, filter_In in Ha as [Ha Hca].
    apply list_elem_of_In in Ha. specialize (Hts a Ha).
    apply Z.leb_le in Hca.
    apply elem_of_cons in Hb as [->|Hb].
    + destruct s; unfold bestThenEarliest, askBefore, bidBefore, ownFirst,
        byPriceAsc, byPriceDesc in *; lia.
    + apply list_elem_of_In, filter_In in Hb as [_ Hcb].
      apply negb_true_iff, Z.leb_gt in Hcb.
      destruct s; unfold bestThenEarliest, askBefore, bidBefore, ownFirst,
        byPriceAsc, byPriceDesc in *; lia.
  - eapply StronglySorted_sublist; [apply filter_sublist_bool|done].
  - apply StronglySorted_cons. split.
    + apply Forall_forall. intros b Hb.
      apply list_elem_of_In, filter_In in Hb as [_ Hcb].
      apply negb_true_iff, Z.leb_gt in Hcb.
      destruct s; unfold bestThenEarliest, askBefore, bidBefore, ownFirst,
        byPriceAsc, byPriceDesc in *; lia.
    + eapply StronglySorted_sublist; [apply filter_sublist_bool|done].
Qed.

Lemma emptyBook_inPriceTime : inPriceTime emptyBook.
Proof. split; constructor. Qed.

(** Admission of an order that is not older than what rests on its side. *)
Lemma addToOrderBook_inPriceTime books o rq :
  let book := default emptyBook (books !! Order.bondId o) in
  inPriceTime book ->
  Forall (fun e => OrderBookEntry.timestamp e <= Order.createdAt o)
    (ownSide (Order.side o) book) ->
  inPriceTime (default emptyBook ((addToOrderBook books o rq).1 !! Order.bondId o)).
Proof.
  intros book Hbook Hts. rewrite addToOrderBook_spec.
  destruct (Order.price o) as [p|]; simpl.
  - rewrite lookup_insert_eq. simpl.
    apply (inPriceTime_sides (Order.side o)) in Hbook as [Hown Hopp].
    apply (inPriceTime_sides (Order.side o)).
    rewrite ownSide_setOwnSide, oppositeSide_setOwnSide. split; [|done].
    by apply push_in_time_order.
  - destruct (getOrCreateOrderBook_spec books (Order.bondId o))
      as (books1 & Hget & _ & Hlook & _). rewrite Hget. simpl. by rewrite Hlook.
Qed.

Lemma walked_side_inPriceTime s book m1 order :
  inPriceTime book ->
  walkInvariant order (oppositeSide s book) m1 ->
  inPriceTime (setOppositeSide s (untag (mBook m1)) book).
Proof.
  intros Hbook Hinv. apply (inPriceTime_sides s) in Hbook as [Hown Hopp].
  apply (inPriceTime_sides s).
  rewrite ownSide_setOppositeSide, oppositeSide_setOppositeSide. split; [done|].
  eapply facingInTime_shrink; [apply (walk_book _ _ _ Hinv)|done].
Qed.

Lemma limitStatus_createdAt m : Order.createdAt (limitStatus m) = Order.createdAt (mOrder m).
Proof. unfold limitStatus. destruct (_ <=? 0); [done|]. by destruct (_ >? 0). Qed.

(** X15. Price-time priority is kept as long as orders reach the book in
    the order of their creation: when both sides of the instrument's book
    are in price-time order and no entry on the order's own side has a
    later timestamp than the order's creation date, the book is in
    price-time order after [processOrder], whether it returns or throws.
    The engine's [cancelOrder] keeps the order of every book. *)
Theorem price_time_priority_is_kept_in_arrival_order faults eng order orderId :
  (let s := Order.side order in
   let book := getOrderBook eng (Order.bondId order) in
   inPriceTime book ->
   Forall (fun e => OrderBookEntry.timestamp e <= Order.createdAt order)
     (ownSide s book) ->
   inPriceTime (getOrderBook (engine (processOrder faults eng order))
                  (Order.bondId order)))
  /\ (forall bondId,
        inPriceTime (getOrderBook eng bondId) ->
        inPriceTime (getOrderBook (cancelOrder eng orderId) bondId)).
Proof.
  split.
  - intros s book Hbook Hts. unfold processOrder.
    destruct (Order.orderType order); [| |done|done].
    + destruct (processMarketOrder_view faults eng order) as (m1 & Hinv & Hbooks & _).
      unfold getOrderBook at 1. rewrite Hbooks, lookup_insert_eq. simpl.
      fold s book in Hinv |- *.
      apply (walked_side_inPriceTime s book m1 order); [done|].
      rewrite stableSort_of_sorted in Hinv; [done|].
      apply facingInTime_price. by apply (inPriceTime_sides s) in Hbook as [_ ?].
    + destruct (processLimitOrder_view faults eng order)
        as [(_ & _ & _ & ->)|(m1 & Hinv & Hout)].
      { unfold getOrderBook at 1. simpl.
        destruct (getOrCreateOrderBook_spec (orderBooks eng) (Order.bondId order))
          as (books1 & Hget & _ & Hlook & _). rewrite Hget. simpl. by rewrite Hlook. }
      simpl in Hout. fold s book in Hinv, Hout.
      set (books2 := <[Order.bondId order :=
                         setOppositeSide s (untag (mBook m1)) book]> (orderBooks eng))
        in Hout.
      pose proof (walked_side_inPriceTime s book m1 order Hbook Hinv) as Hwalked.
      destruct (limitStatus_fields m1) as (Hside & Hbond & _).
      destruct (sameButFilled_fields _ _ (walk_order _ _ _ Hinv))
        as (_ & Hside' & Hbond' & _ & _ & _).
      assert (H2 : inPriceTime (default emptyBook (books2 !! Order.bondId order))).
      { subst books2. by rewrite lookup_insert_eq. }
      assert (H3 : inPriceTime
                     (default emptyBook
                        ((addToOrderBook books2 (limitStatus m1)
                            (Some (mRemaining m1))).1 !! Order.bondId order))).
      { pose proof (addToOrderBook_inPriceTime books2 (limitStatus m1)
                      (Some (mRemaining m1))) as Hadd.
        rewrite Hbond, Hbond', Hside, Hside', limitStatus_createdAt in Hadd.
        apply Hadd; [done|]. subst books2. rewrite lookup_insert_eq. simpl.
        fold s. rewrite ownSide_setOppositeSide.
        replace (Order.createdAt (mOrder m1)) with (Order.createdAt order); [done|].
        pose proof (walk_order _ _ _ Hinv) as Ho. unfold sameButFilled in Ho.
        by destruct (mOrder m1), order; simplify_eq. }
      unfold getOrderBook at 1.
      destruct (trades (processLimitOrder faults eng order)) as [ts|e].
      * destruct Hout as (_ & _ & [[_ ->]|[_ Hadd]]); [done|]. by rewrite Hadd in H3.
      * destruct Hout as (_ & _ & [->|[_ ->]]); done.
  - intros bondId Hbook. unfold cancelOrder.
    destruct (findOne orderId (orderRepository eng)) as [o|]; [|done].
    destruct (getOrCreateOrderBook_spec (orderBooks eng) (Order.bondId o))
      as (books1 & -> & Hins & _). unfold getOrderBook. simpl. rewrite Hins.
    destruct (decide (bondId = Order.bondId o)) as [->|Hne];
      [|by rewrite lookup_insert_ne].
    rewrite lookup_insert_eq. simpl.
    apply (inPriceTime_sides (Order.side o)) in Hbook as [Hown Hopp].
    apply (inPriceTime_sides (Order.side o)).
    rewrite ownSide_setOwnSide, oppositeSide_setOwnSide. split; [|done].
    destruct (findIndex _ _) as [i|]; [|done].
    eapply StronglySorted_sublist; [apply sublist_delete|done].
Qed.

Lemma price_time_priority_is_kept_in_arrival_order_witness :
  inPriceTime (getOrderBook (engine (processOrder None oneBid
                                       (newOrder "b3" LIMIT BUY 10 (Some 50) GTC 7)))
                 "INE001").
Proof.
  pose (order := newOrder "b3" LIMIT BUY 10 (Some 50) GTC 7).
  assert (Hbook : inPriceTime (getOrderBook oneBid (Order.bondId order))).
  { split; repeat constructor. }
  assert (Hts : Forall (fun e => OrderBookEntry.timestamp e <= Order.createdAt order)
                  (ownSide (Order.side order)
                     (getOrderBook oneBid (Order.bondId order)))).
  { repeat constructor. simpl. lia. }
  exact (proj1 (price_time_priority_is_kept_in_arrival_order None oneBid order "b3")
           Hbook Hts).
Defined.

Lemma elem_of_book_sides s b (e : OrderBookEntry.t) :
  e ∈ bids b ++ asks b <-> e ∈ ownSide s b \/ e ∈ oppositeSide s b.
Proof. destruct s; simpl; rewrite elem_of_app; tauto. Qed.

(** Admission of the active orders in the order of their creation. *)
Lemma addAllToOrderBook_inPriceTime activeOrders :
  forall books,
    StronglySorted (notAfter byCreatedAt) activeOrders ->
    (forall bondId,
        let b := default emptyBook (books !! bondId) in
        inPriceTime b
        /\ forall e o, e ∈ bids b ++ asks b -> o ∈ activeOrders ->
                       OrderBookEntry.timestamp e <= Order.createdAt o) ->
    forall bondId,
      inPriceTime
        (default emptyBook ((addAllToOrderBook books activeOrders).1 !! bondId)).
Proof.
  induction activeOrders as [|o rest IH]; simpl; intros books Hsorted Hbooks bondId.
  { apply Hbooks. }
  apply StronglySorted_cons in Hsorted as [Hfirst Hsorted].
  assert (Hnext : forall bondId,
             let b := default emptyBook
                        ((addToOrderBook books o None).1 !! bondId) in
             inPriceTime b
             /\ forall e o', e ∈ bids b ++ asks b -> o' ∈ rest ->
                             OrderBookEntry.timestamp e <= Order.createdAt o').
  { intros k. simpl. destruct (decide (k = Order.bondId o)) as [->|Hne].
    2:{ rewrite addToOrderBook_other by done. destruct (Hbooks k) as [Hin Hts].
        split; [done|]. intros e o' He Ho'. apply Hts; [done|by right]. }
    destruct (Hbooks (Order.bondId o)) as [Hin Hts]. split.
    - apply addToOrderBook_inPriceTime; [done|].
      apply Forall_forall. intros e He. apply Hts; [|left].
      apply (elem_of_book_sides (Order.side o)). by left.
    - rewrite addToOrderBook_spec. destruct (Order.price o) as [p|]; simpl.
      + rewrite lookup_insert_eq. simpl. intros e o' He Ho'.
        apply (elem_of_book_sides (Order.side o)) in He.
        rewrite ownSide_setOwnSide, oppositeSide_setOwnSide in He.
        rewrite stableSort_elem_of, elem_of_app, list_elem_of_singleton in He.
        destruct He as [[He| ->]|He].
        * apply Hts; [|by right].
          apply (elem_of_book_sides (Order.side o)). by left.
        * simpl. rewrite Forall_forall in Hfirst.
          specialize (Hfirst o' Ho'). unfold notAfter, byCreatedAt in Hfirst. lia.
        * apply Hts; [|by right].
          apply (elem_of_book_sides (Order.side o)). by right.
      + destruct (getOrCreateOrderBook_spec books (Order.bondId o))
          as (books1 & Hget & _ & Hlook & _). rewrite Hget. simpl. rewrite Hlook.
        simpl. intros e o' He Ho'. apply Hts; [done|by right]. }
  destruct (addToOrderBook books o None) as [books' [e|]]; simpl in *.
  - apply Hnext.
  - by apply IH.
Qed.

(** X16. Recovery builds every book in price-time order: whatever the
    order table holds, after the engine has been constructed on it both
    sides of every instrument's book are sorted by price, and by timestamp
    among equal prices; this also holds for the part of the books built
    when recovery throws. *)
Theorem recovery_builds_books_in_price_time_order orders ts bondId :
  inPriceTime (getOrderBook (startEngine orders ts).1 bondId).
Proof.
  unfold startEngine, initializeOrderBooks, getOrderBook. simpl.
  pose proof (addAllToOrderBook_inPriceTime (findActiveOrders orders) ∅) as Hall.
  destruct (addAllToOrderBook ∅ (findActiveOrders orders)) as [books thrown].
  simpl in *. apply Hall.
  - apply stableSort_sorted; [apply byCreatedAt_total|apply byCreatedAt_trans].
  - intros k. rewrite lookup_empty. simpl. split; [apply emptyBook_inPriceTime|].
    intros e o He. by apply elem_of_nil in He.
Qed.

(** ** What recovery admits *)

Lemma findActiveOrders_elem_of o rows :
  o ∈ findActiveOrders rows <-> o ∈ rows /\ Order.status o = PENDING.
Proof.
  unfold findActiveOrders.
  rewrite stableSort_elem_of, list_elem_of_In, filter_In, <- list_elem_of_In.
  destruct (Order.status o); simpl; intuition congruence.
Qed.

Lemma addAllToOrderBook_thrown activeOrders :
  forall books,
    ((addAllToOrderBook books activeOrders).2 = None
     \/ (addAllToOrderBook books activeOrders).2 = Some TypeError)
    /\ ((addAllToOrderBook books activeOrders).2 = None
        <-> forall o, o ∈ activeOrders -> is_Some (Order.price o)).
Proof.
  induction activeOrders as [|o rest IH]; simpl; intros books.
  { split; [by left|]. split; [|done]. intros _ o Ho. by apply elem_of_nil in Ho. }
  rewrite addToOrderBook_spec. destruct (Order.price o) as [p|] eqn:Ep; simpl.
  - destruct (IH (<[Order.bondId o :=
                      setOwnSide (Order.side o)
                        (stableSort (ownFirst (Order.side o))
                           (ownSide (Order.side o)
                              (default emptyBook (books !! Order.bondId o))
                            ++ [newBookEntry o p None]))
                        (default emptyBook (books !! Order.bondId o))]> books))
      as [Hcase Hiff].
    split; [done|]. rewrite Hiff. split.
    + intros Hall o' [->|Ho']%elem_of_cons; [by rewrite Ep|by apply Hall].
    + intros Hall o' Ho'. apply Hall. by right.
  - split; [by right|]. split; [done|]. intros Hall.
    destruct (Hall o) as [p Hp]; [left|]. congruence.
Qed.

Lemma ownSide_setOwnSide_other s s' l b :
  s' <> s -> ownSide s' (setOwnSide s l b) = ownSide s' b.
Proof. by destruct s, s'. Qed.

Lemma addAllToOrderBook_entries activeOrders :
  forall books books',
    addAllToOrderBook books activeOrders = (books', None) ->
    forall s bondId e,
      e ∈ ownSide s (default emptyBook (books' !! bondId))
      <-> e ∈ ownSide s (default emptyBook (books !! bondId))
          \/ exists o p,
               o ∈ activeOrders /\ Order.bondId o = bondId /\ Order.side o = s
               /\ Order.price o = Some p /\ e = newBookEntry o p None.
Proof.
  induction activeOrders as [|o rest IH]; simpl; intros books books' Hall s bondId e.
  { simplify_eq. split; [by left|]. intros [?|(o & p & Ho & _)]; [done|].
    by apply elem_of_nil in Ho. }
  rewrite addToOrderBook_spec in Hall.
  destruct (Order.price o) as [p|] eqn:Ep; simpl in Hall; [|done].
  rewrite (IH _ _ Hall s bondId e). clear IH Hall.
  assert (Hnow :
    e ∈ ownSide s
          (default emptyBook
             (<[Order.bondId o :=
                  setOwnSide (Order.side o)
                    (stableSort (ownFirst (Order.side o))
                       (ownSide (Order.side o)
                          (default emptyBook (books !! Order.bondId o))
                        ++ [newBookEntry o p None]))
                    (default emptyBook (books !! Order.bondId o))]> books !! bondId))
    <-> e ∈ ownSide s (default emptyBook (books !! bondId))
        \/ (Order.bondId o = bondId /\ Order.side o = s /\ e = newBookEntry o p None)).
  { destruct (decide (bondId = Order.bondId o)) as [->|Hne].
    - rewrite lookup_insert_eq. simpl.
      assert (Hs : s = Order.side o \/ s <> Order.side o)
        by (destruct s, (Order.side o); (by left) || (by right)).
      destruct Hs as [->|Hs].
      + rewrite ownSide_setOwnSide, stableSort_elem_of, elem_of_app,
          list_elem_of_singleton. tauto.
      + rewrite ownSide_setOwnSide_other by done. split; [by left|].
        intros [?|(_ & ? & _)]; [done|congruence].
    - rewrite lookup_insert_ne by done. split; [by left|].
      intros [?|(? & _)]; [done|congruence]. }
  rewrite Hnow. split.
  - intros [[?|(Hb & Hs & ->)]|(o' & p' & Ho' & Hrest)].
    + by left.
    + right. exists o, p. split; [left|done].
    + right. exists o', p'. split; [by right|done].
  - intros [?|(o' & p' & [->|Ho']%elem_of_cons & Hb & Hs & Hp & ->)].
    + by left; left.
    + left; right. by simplify_eq.
    + right. by exists o', p'.
Qed.

(** X17. What recovery admits. The construction of the engine on a store
    either succeeds or throws a TypeError, and it succeeds exactly when
    every PENDING order of the table has a price. When it succeeds, the
    entries of each side of each instrument's book are those of the
    PENDING orders of that instrument and side and no others, each with
    the order's price, its creation date as timestamp, and what is not
    yet filled of its quantity as remaining quantity. *)
Theorem recovery_admits_the_pending_orders orders ts :
  let started := startEngine orders ts in
  (started.2 = None \/ started.2 = Some TypeError)
  /\ (started.2 = None
      <-> forall o, o ∈ orders -> Order.status o = PENDING -> is_Some (Order.price o))
  /\ (started.2 = None ->
      forall s bondId e,
        e ∈ ownSide s (getOrderBook started.1 bondId)
        <-> exists o p,
              o ∈ orders /\ Order.status o = PENDING
              /\ Order.bondId o = bondId /\ Order.side o = s
              /\ Order.price o = Some p
              /\ e = OrderBookEntry.mk (Order.id o) p (Order.quantity o)
                       (Order.quantity o - Order.filledQuantity o)
                       (Order.createdAt o)).
Proof.
  unfold startEngine, initializeOrderBooks, getOrderBook. simpl.
  destruct (addAllToOrderBook_thrown (findActiveOrders orders) ∅) as [Hcase Hiff].
  pose proof (addAllToOrderBook_entries (findActiveOrders orders) ∅) as Hentries.
  destruct (addAllToOrderBook ∅ (findActiveOrders orders)) as [books thrown].
  simpl in *. split; [done|]. split.
  - rewrite Hiff. split.
    + intros Hall o Ho Hst. apply Hall. by apply findActiveOrders_elem_of.
    + intros Hall o Ho. apply findActiveOrders_elem_of in Ho as [Ho Hst].
      by apply Hall.
  - intros ->. intros s bondId e. rewrite (Hentries books eq_refl s bondId e).
    rewrite lookup_empty. simpl. split.
    + intros [He|(o & p & Ho & Hb & Hs & Hp & ->)].
      * destruct s; by apply elem_of_nil in He.
      * apply findActiveOrders_elem_of in Ho as [Ho Hst]. by exists o, p.
    + intros (o & p & Ho & Hst & Hb & Hs & Hp & ->). right. exists o, p.
      split; [by apply findActiveOrders_elem_of|done].
Qed.

(** ** Remaining quantities in the book *)

(** The loops again, for a property that only the runs of the body that
    return need to keep. *)
Lemma marketLoop_invariant_returns (P : Matching -> Prop) rows :
  (forall tag e m m',
      P m -> (tag, e) ∈ mBook m -> 0 < mRemaining m ->
      matchEntry rows tag e m = (m', None) -> P m') ->
  forall fuel i m m',
    P m -> marketLoop fuel i rows m = (m', None) -> P m'.
Proof.
  intros Hbody fuel. induction fuel as [|fuel IH]; simpl; intros i m m' HP H.
  - by simplify_eq.
  - destruct (mBook m !! i) as [[tag e]|] eqn:Ei; [|by simplify_eq].
    destruct (Z.leb_spec (mRemaining m) 0); [by simplify_eq|].
    destruct (matchEntry rows tag e m) as [m1 [e1|]] eqn:Em; [done|].
    eapply IH; [|exact H]. eapply Hbody; eauto. by eapply list_elem_of_lookup_2.
Qed.

Lemma limitLoop_invariant_returns (P : Matching -> Prop) rows :
  forall matchable,
  (forall tag e m m',
      P m -> (tag, e) ∈ matchable -> 0 < mRemaining m ->
      matchEntry rows tag e m = (m', None) -> P m') ->
  forall m m',
    P m -> limitLoop matchable rows m = (m', None) -> P m'.
Proof.
  intros matchable.
  induction matchable as [|[tag e] rest IH]; simpl; intros Hbody m m' HP H.
  - by simplify_eq.
  - destruct (Z.leb_spec (mRemaining m) 0); [by simplify_eq|].
    destruct (matchEntry rows tag e m) as [m1 [e1|]] eqn:Em; [done|].
    eapply IH; [| |exact H].
    + intros ? ? ? ? ? ? ?. eapply Hbody; eauto. by right.
    + eapply Hbody; eauto. left.
Qed.

Lemma spliceOut_removes tag (book : list Tagged) (te : Tagged) :
  NoDup book.*1 -> te ∈ spliceOut tag book -> te ∈ book /\ te.1 <> tag.
Proof.
  intros Hnd Hin. split.
  { eapply elem_of_sublist; [exact Hin|apply spliceOut_sublist]. }
  revert Hnd Hin. unfold spliceOut.
  induction book as [|te0 book IH]; simpl; [by intros _ ?%elem_of_nil|].
  intros [Hnot Hnd]%NoDup_cons. unfold hasTag at 1.
  destruct (Nat.eqb_spec te0.1 tag) as [Heq|Hne]; simpl.
  - intros Hin <-. apply Hnot. rewrite Heq. by apply list_elem_of_fmap_2.
  - destruct (indexOf tag book) as [i|] eqn:Ei; simpl.
    + intros [->|Hin]%elem_of_cons; [done|]. by apply IH.
    + apply indexOf_None in Ei. intros Hin Heq.
      assert (Hin' : te ∈ te0 :: book).
      { eapply elem_of_sublist; [exact Hin|].
        apply (removelast_sublist (te0 :: book)). }
      apply elem_of_cons in Hin' as [->|Hin']; [done|].
      apply Ei. rewrite <- Heq. by apply list_elem_of_fmap_2.
Qed.

Lemma elem_of_setRemaining tag v (book : list Tagged) (te : Tagged) :
  te ∈ setRemaining tag v book ->
  (te ∈ book /\ te.1 <> tag)
  \/ (te.1 = tag /\ OrderBookEntry.remainingQuantity te.2 = v).
Proof.
  unfold setRemaining. intros Hin.
  apply list_elem_of_fmap in Hin as (te0 & -> & Hin). unfold hasTag.
  destruct (Nat.eqb_spec te0.1 tag); [by right|by left].
Qed.

(** One match on a side of positive remainders: the trade is for a positive
    quantity, and the entry matched stays only with a positive remainder. *)
Lemma matchEntry_positive rows tag e m m' :
  NoDup (mBook m).*1 ->
  (forall te : Tagged, te ∈ mBook m -> 0 < OrderBookEntry.remainingQuantity te.2) ->
  0 < OrderBookEntry.remainingQuantity e ->
  0 < mRemaining m ->
  matchEntry rows tag e m = (m', None) ->
  NoDup (mBook m').*1
  /\ (forall te : Tagged, te ∈ mBook m' -> 0 < OrderBookEntry.remainingQuantity te.2)
  /\ exists t, mTrades m' = mTrades m ++ [t] /\ 0 < Trade.quantity t.
Proof.
  intros Hnd Hpos He Hrem Hm.
  apply matchEntry_returns in Hm as (Hb & Ht & _).
  set (left := OrderBookEntry.remainingQuantity e
               - Z.min (mRemaining m) (OrderBookEntry.remainingQuantity e)) in Hb.
  assert (Hnd1 : NoDup (setRemaining tag left (mBook m)).*1)
    by (by rewrite setRemaining_tags).
  split; [|split].
  - rewrite Hb. destruct (left <=? 0); [|done].
    eapply sublist_NoDup; [exact Hnd1|]. apply fmap_sublist, spliceOut_sublist.
  - rewrite Hb. intros te Hin. destruct (Z.leb_spec left 0).
    + apply spliceOut_removes in Hin as [Hin Hne]; [|done].
      apply elem_of_setRemaining in Hin as [[Hin _]|[Htag _]]; [by apply Hpos|done].
    + apply elem_of_setRemaining in Hin as [[Hin _]|[_ ->]]; [by apply Hpos|done].
  - eexists. split; [exact Ht|]. simpl. lia.
Qed.

Lemma bookPositive_sides s b :
  bookPositive b <-> sidePositive (ownSide s b) /\ sidePositive (oppositeSide s b).
Proof. destruct s, b; unfold bookPositive; simpl; tauto. Qed.

(** X18. When a call of [processOrder] returns, no entry of the
    instrument's book is left with nothing to trade, and no trade is for
    nothing: if every entry of the book had a positive remaining quantity
    before the call, every entry has one after it, and every trade
    returned is for a positive quantity. *)
Theorem returned_book_has_positive_remainders faults eng order ts :
  bookPositive (getOrderBook eng (Order.bondId order)) ->
  trades (processOrder faults eng order) = Ok ts ->
  bookPositive (getOrderBook (engine (processOrder faults eng order))
                  (Order.bondId order))
  /\ forall t, t ∈ ts -> 0 < Trade.quantity t.
Proof.
  intros Hbook. unfold processOrder.
  apply (bookPositive_sides (Order.side order)) in Hbook as [Hown Hopp].
  set (P := fun m : Matching =>
              NoDup (mBook m).*1
              /\ (forall te : Tagged,
                     te ∈ mBook m -> 0 < OrderBookEntry.remainingQuantity te.2)
              /\ forall t, t ∈ mTrades m -> 0 < Trade.quantity t).
  assert (Hstart : forall l tx,
             sidePositive l ->
             P (mkMatching (tagEntries l) order (Order.quantity order) [] tx)).
  { intros l tx Hl. split; [apply tagEntries_NoDup|]. split; simpl.
    - intros te Hin. unfold sidePositive in Hl. rewrite Forall_forall in Hl.
      apply Hl. apply (list_elem_of_fmap_2 snd) in Hin.
      fold (untag (tagEntries l)) in Hin. by rewrite untag_tagEntries in Hin.
    - intros t Ht. by apply elem_of_nil in Ht. }
  assert (Hbody : forall rows tag e m m',
             P m -> 0 < OrderBookEntry.remainingQuantity e -> 0 < mRemaining m ->
             matchEntry rows tag e m = (m', None) -> P m').
  { intros rows tag e m m' (Hnd & Hpos & Htr) He Hrem Hm.
    destruct (matchEntry_positive _ _ _ _ _ Hnd Hpos He Hrem Hm)
      as (Hnd' & Hpos' & t & Ht & Hq).
    split; [done|]. split; [done|]. rewrite Ht. intros t' Hin.
    apply elem_of_app in Hin as [Hin|Hin]; [by apply Htr|].
    by apply list_elem_of_singleton in Hin as ->. }
  assert (Hside : forall m, P m -> sidePositive (untag (mBook m))).
  { intros m (_ & Hpos & _). apply Forall_forall. intros e He.
    apply list_elem_of_fmap in He as (te & -> & Hin). by apply Hpos. }
  destruct (Order.orderType order).
  - intros Hts.
    destruct (processMarketOrder_returns_with (fun _ => True) faults eng order ts Hts)
      as (m1 & Hloop & -> & _ & -> & _).
    assert (HP : P m1).
    { eapply (marketLoop_invariant_returns P); [|apply Hstart|exact Hloop].
      - intros tag e m m' Hm Hin. apply (Hbody _ tag e m m' Hm).
        destruct Hm as (_ & Hpos & _). apply (Hpos _ Hin).
      - apply Forall_forall. intros e He. apply stableSort_elem_of in He.
        unfold sidePositive in Hopp. rewrite Forall_forall in Hopp. by apply Hopp. }
    split; [|apply HP].
    unfold getOrderBook at 1. simpl. rewrite lookup_insert_eq. simpl.
    apply (bookPositive_sides (Order.side order)).
    rewrite ownSide_setOppositeSide, oppositeSide_setOppositeSide.
    split; [done|by apply Hside].
  - intros Hts.
    destruct (processLimitOrder_returns_with (fun _ => True) faults eng order ts Hts)
      as (ml & m1 & after & Hml & Hloop & _ & -> & _ & -> & Hafter & Hrest & _).
    assert (HP : P m1).
    { eapply (limitLoop_invariant_returns P); [|by apply Hstart|exact Hloop].
      intros tag e m m' Hm Hin. apply (Hbody _ tag e m m' Hm).
      unfold sidePositive in Hopp. rewrite Forall_forall in Hopp. apply Hopp.
      by eapply matchableOrders_from_book. }
    split; [|apply HP].
    unfold getOrderBook at 1. simpl. rewrite lookup_insert_eq. simpl.
    apply (bookPositive_sides (Order.side order)). rewrite Hafter.
    split; [|by apply Hside].
    destruct Hrest as [[_ ->]|(Hgt & p & _ & ->)]; [done|].
    apply Forall_forall. intros e He.
    rewrite stableSort_elem_of, elem_of_app, list_elem_of_singleton in He.
    destruct He as [He| ->]; [|done].
    unfold sidePositive in Hown. rewrite Forall_forall in Hown. by apply Hown.
  - intros [= <-]. split; [|by intros t ?%elem_of_nil].
    by apply (bookPositive_sides (Order.side order)).
  - intros [= <-]. split; [|by intros t ?%elem_of_nil].
    by apply (bookPositive_sides (Order.side order)).
Qed.

Lemma returned_book_has_positive_remainders_witness :
  bookPositive (getOrderBook (engine (processOrder None oneAsk gtcBuy)) "INE001").
Proof.
  assert (Hbook : bookPositive (getOrderBook oneAsk (Order.bondId gtcBuy))).
  { split; repeat constructor. }
  exact (proj1 (returned_book_has_positive_remainders None oneAsk gtcBuy _
                  Hbook eq_refl)).
Defined.

(** ** The order book update *)

(** X19. The 'orderbook.updated' event shows the best prices of the book.
    Its payload is cut off after ten entries a side; of a book in price
    order, no bid left out of it is higher than a bid it shows, and no ask
    left out of it is lower than an ask it shows. *)
Theorem order_book_update_shows_the_best_prices eng bondId :
  priceOrdered (getOrderBook eng bondId) ->
  let book := getOrderBook eng bondId in
  let shown := orderBookUpdate eng bondId in
  (forall e e', e ∈ bids shown -> e' ∈ drop 10 (bids book) ->
                OrderBookEntry.price e' <= OrderBookEntry.price e)
  /\ (forall e e', e ∈ asks shown -> e' ∈ drop 10 (asks book) ->
                   OrderBookEntry.price e <= OrderBookEntry.price e').
Proof.
  intros [Hbids Hasks] book shown. subst shown. unfold orderBookUpdate.
  cbn [bids asks]. fold book in Hbids, Hasks |- *.
  unfold bidsByPrice in Hbids. unfold asksByPrice in Hasks.
  rewrite <- (take_drop 10 (bids book)) in Hbids.
  rewrite <- (take_drop 10 (asks book)) in Hasks.
  apply StronglySorted_app in Hbids as (Hb & _ & _).
  apply StronglySorted_app in Hasks as (Ha & _ & _).
  split; intros e e' He He'.
  - specialize (Hb e e' He He'). unfold notAfter, byPriceDesc in Hb. lia.
  - specialize (Ha e e' He He'). unfold notAfter, byPriceAsc in Ha. lia.
Qed.

Lemma order_book_update_shows_the_best_prices_witness :
  length (asks (getOrderBook elevenAsks "INE001")) = 11%nat
  /\ asks (orderBookUpdate elevenAsks "INE001")
     = take 10 (asks (getOrderBook elevenAsks "INE001"))
  /\ drop 10 (asks (getOrderBook elevenAsks "INE001"))
     = [OrderBookEntry.mk "a11" 110 10 10 11]
  /\ OrderBookEntry.price (OrderBookEntry.mk "a10" 109 10 10 10)
     <= OrderBookEntry.price (OrderBookEntry.mk "a11" 110 10 10 11).
Proof.
  assert (Hbook : priceOrdered (getOrderBook elevenAsks "INE001")).
  { vm_compute. split; repeat constructor; discriminate. }
  assert (Hshown : OrderBookEntry.mk "a10" 109 10 10 10
                   ∈ asks (orderBookUpdate elevenAsks "INE001")).
  { apply list_elem_of_In. vm_compute. do 9 right. left. reflexivity. }
  assert (Hleft : OrderBookEntry.mk "a11" 110 10 10 11
                  ∈ drop 10 (asks (getOrderBook elevenAsks "INE001"))).
  { apply list_elem_of_In. vm_compute. left. reflexivity. }
  split; [reflexivity|]. split; [reflexivity|]. split; [reflexivity|].
  exact (proj2 (order_book_update_shows_the_best_prices elevenAsks "INE001" Hbook)
           _ _ Hshown Hleft).
Defined.

(** ** Where the traded quantity comes from *)







(** ** The parties of a trade *)

(** X21. The users a trade names: the user of the incoming order on the
    order's side, and on the other side the user that the order table, as
    it was when the call began, holds for the resting order; the empty
    string when the table has no row of that id. *)
Theorem trades_name_both_users faults eng order ts t :
  trades (processOrder faults eng order) = Ok ts ->
  t ∈ ts ->
  match Order.side order with
  | BUY =>
      Trade.buyUserId t = Order.userId order
      /\ Trade.sellUserId t
         = getUserIdByOrderId (orderRepository eng) (Trade.sellOrderId t)
  | SELL =>
      Trade.sellUserId t = Order.userId order
      /\ Trade.buyUserId t
         = getUserIdByOrderId (orderRepository eng) (Trade.buyOrderId t)
  end.
Proof.
  intros Hts Hin.
  set (Q := fun t : Trade.t =>
              match Order.side order with
              | BUY =>
                  Trade.buyUserId t = Order.userId order
                  /\ Trade.sellUserId t
                     = getUserIdByOrderId (orderRepository eng) (Trade.sellOrderId t)
              | SELL =>
                  Trade.sellUserId t = Order.userId order
                  /\ Trade.buyUserId t
                     = getUserIdByOrderId (orderRepository eng) (Trade.buyOrderId t)
              end).
  set (P := fun m : Matching =>
              sameButFilled (mOrder m) order /\ Forall Q (mTrades m)).
  assert (Hbody : forall tag e m m' ex,
             P m -> matchEntry (orderRepository eng) tag e m = (m', ex) -> P m').
  { intros tag e m m' ex [Hord Hall] Hm.
    apply matchEntry_spec in Hm as [[-> _]|(Ht & _ & Ho & _)]; [done|]. split.
    - rewrite Ho. by apply sameButFilled_set_filledQuantity.
    - rewrite Ht. apply Forall_app. split; [done|]. constructor; [|done].
      rewrite (createTrade_sameButFilled _ _ order) by done.
      unfold Q, createTrade. by destruct (Order.side order). }
  assert (Hall : Forall Q ts); [|rewrite Forall_forall in Hall; by apply Hall].
  unfold processOrder in Hts. destruct (Order.orderType order).
  - destruct (processMarketOrder_returns_with P faults eng order ts Hts)
      as (m1 & _ & -> & _ & _ & HP).
    apply HP; [by split|]. intros tag e m m' ex Hm _ _. by apply Hbody.
  - destruct (processLimitOrder_returns_with P faults eng order ts Hts)
      as (ml & m1 & after & _ & _ & _ & -> & _ & _ & _ & _ & HP).
    apply HP; [by split|]. intros tag e m m' ex Hm _ _. by apply Hbody.
  - injection Hts as <-. constructor.
  - injection Hts as <-. constructor.
Qed.

Lemma trades_name_both_users_witness :
  Trade.buyUserId (Trade.mk "INE001" "b9" "s9" "user-b9" "user-s9" 60 10 600)
  = "user-b9"%string
  /\ Trade.sellUserId (Trade.mk "INE001" "b9" "s9" "user-b9" "user-s9" 60 10 600)
     = getUserIdByOrderId (orderRepository oneAsk) "s9".
Proof.
  assert (Hin : Trade.mk "INE001" "b9" "s9" "user-b9" "user-s9" 60 10 600
                ∈ [Trade.mk "INE001" "b9" "s9" "user-b9" "user-s9" 60 10 600])
    by (apply list_elem_of_In; simpl; left; reflexivity).
  exact (trades_name_both_users None oneAsk gtcBuy _ _ eq_refl Hin).
Defined.

(** ** The rows of the resting orders *)






(** ** Calls that return *)

(** X24. On a store that never fails, every order is processed to the
    end: the call returns its trades. The one exception is a limit order
    without a price. *)
Theorem priced_orders_are_processed_on_a_reliable_store eng order :
  (Order.orderType order = LIMIT -> is_Some (Order.price order)) ->
  exists ts, trades (processOrder None eng order) = Ok ts.
Proof.
  intros Hprice. apply processOrder_returns.
  intros Hty Hnone. destruct (Hprice Hty) as [p Hp]. congruence.
Qed.

Lemma priced_orders_are_processed_on_a_reliable_store_witness :
  exists ts, trades (processOrder None oneAsk gtcBuy) = Ok ts.
Proof.
  apply (priced_orders_are_processed_on_a_reliable_store oneAsk gtcBuy).
  intros _. simpl. eexists. reflexivity.
Defined.
